(** * jafr_ng-core: role resolution, route guard, HTTP interceptors,
      error banner, browser storage and preferences

    A shallow embedding of the TypeScript sources of the core library,
    followed by the properties stated about them.

    Conventions of the embedding:
    - JavaScript numbers that the code handles here (timestamps, counters,
      HTTP status codes, the preferences version, thresholds) are integers
      and are modelled as [Z].
    - A value of type [any] (HTTP bodies, what [JSON.parse] returns) is a
      [JSValue].
    - Services are records; a method that mutates its service takes the
      record and returns the new one.  Calls to collaborators that only
      produce an effect (router navigation, toasts) are appended to a log.
    - Logger and console output is not modelled. *)

From Stdlib Require Import ZArith Ascii.
From stdpp Require Import gmap strings list pretty.

Local Open Scope Z_scope.

(* ===================================================================== *)
(** * JavaScript values *)
(* ===================================================================== *)

Module JS.

(** An optional property of an object literal: the property may be missing,
    present with the value [undefined], or present with a value.  Object
    spread copies a property that is present, whatever its value. *)
Inductive Opt (A : Type) : Type :=
  | Missing
  | Undef
  | Given (a : A).
Arguments Missing {A}.
Arguments Undef {A}.
Arguments Given {A} a.

(** [{...a, ...b}] for one property. *)
Definition spread {A} (a b : Opt A) : Opt A :=
  match b with
  | Missing => a
  | _ => b
  end.

(** Reading a property: a missing property reads as [undefined]. *)
Definition read {A} (o : Opt A) : Opt A :=
  match o with
  | Missing => Undef
  | _ => o
  end.

(** [o ?? d] *)
Definition nullish {A} (o : Opt A) (d : A) : A :=
  match o with
  | Given a => a
  | _ => d
  end.

#[local] Unset Elimination Schemes.
Inductive JSValue : Type :=
  | JUndefined
  | JNull
  | JBool (b : bool)
  | JNum (n : Z)
  | JStr (s : string)
  | JArr (l : list JSValue)
  | JObj (l : list (string * JSValue)).
#[local] Set Elimination Schemes.

(** Structural equality test, used for [===] on primitives. *)
Definition strict_eq_prim (a b : JSValue) : bool :=
  match a, b with
  | JUndefined, JUndefined => true
  | JNull, JNull => true
  | JBool x, JBool y => bool_decide (x = y)
  | JNum x, JNum y => bool_decide (x = y)
  | JStr x, JStr y => bool_decide (x = y)
  | _, _ => false
  end.

(** [v === s] for a string [s]: only the same string is strictly equal. *)
Definition strict_eq_string (v : JSValue) (s : string) : bool :=
  strict_eq_prim v (JStr s).

Definition is_undefined (v : JSValue) : bool :=
  match v with JUndefined => true | _ => false end.

(** ToBoolean *)
Definition truthy (v : JSValue) : bool :=
  match v with
  | JUndefined | JNull => false
  | JBool b => b
  | JNum n => negb (bool_decide (n = 0))
  | JStr s => negb (bool_decide (s = ""))
  | JArr _ | JObj _ => true
  end.

(** [typeof v === 'object'] *)
Definition typeof_object (v : JSValue) : bool :=
  match v with
  | JNull | JArr _ | JObj _ => true
  | _ => false
  end.

(** [typeof v === 'string'] *)
Definition typeof_string (v : JSValue) : bool :=
  match v with JStr _ => true | _ => false end.

(** ** Own properties

    The own string keys of an object are kept in the order in which
    [Object.entries], object spread and [JSON.stringify] visit them:
    array indices in ascending order first, then the other keys in the
    order of their creation. *)

Definition is_digit (c : ascii) : bool :=
  let n := N_of_ascii c in ((48 <=? n) && (n <=? 57))%N.

Fixpoint digits_value (acc : N) (s : string) : option N :=
  match s with
  | EmptyString => Some acc
  | String c s' =>
      if is_digit c
      then digits_value (acc * 10 + (N_of_ascii c - 48))%N s'
      else None
  end.

(** A canonical array index: the decimal numeral, without leading zero, of
    an integer below 2^32 - 1. *)
Definition array_index (k : string) : option N :=
  match k with
  | EmptyString => None
  | String c rest =>
      if bool_decide (c = "0"%char) && negb (bool_decide (rest = "")) then None
      else
        match digits_value 0%N k with
        | Some n => if (n <? 4294967295)%N then Some n else None
        | None => None
        end
  end.

Section assoc.
Context {V : Type}.

Fixpoint assoc_get (k : string) (l : list (string * V)) : option V :=
  match l with
  | [] => None
  | (k', v) :: l' => if bool_decide (k' = k) then Some v else assoc_get k l'
  end.

Fixpoint assoc_replace (k : string) (v : V) (l : list (string * V))
  : list (string * V) :=
  match l with
  | [] => []
  | (k', v') :: l' =>
      if bool_decide (k' = k) then (k, v) :: l'
      else (k', v') :: assoc_replace k v l'
  end.

(** Insert a new index key [n] before the first key that is not an index
    or is a larger index. *)
Fixpoint assoc_insert_index (n : N) (k : string) (v : V)
    (l : list (string * V)) : list (string * V) :=
  match l with
  | [] => [(k, v)]
  | (k', v') :: l' =>
      match array_index k' with
      | Some m =>
          if (m <? n)%N then (k', v') :: assoc_insert_index n k v l'
          else (k, v) :: l
      | None => (k, v) :: l
      end
  end.

(** [o[k] = v] on the own properties of an ordinary object. *)
Definition assoc_set (k : string) (v : V) (l : list (string * V))
  : list (string * V) :=
  match assoc_get k l with
  | Some _ => assoc_replace k v l
  | None =>
      match array_index k with
      | Some n => assoc_insert_index n k v l
      | None => l ++ [(k, v)]
      end
  end.
End assoc.

(** ["abc"] has the own enumerable properties 0:"a", 1:"b", 2:"c". *)
Fixpoint string_chars (s : string) : list JSValue :=
  match s with
  | EmptyString => []
  | String c s' => JStr (String c EmptyString) :: string_chars s'
  end.

Definition indexed (l : list JSValue) : list (string * JSValue) :=
  imap (fun i v => (pretty (N.of_nat i), v)) l.

(** [Object.entries(v)], which is also what [{...v}] copies. *)
Definition own_entries (v : JSValue) : list (string * JSValue) :=
  match v with
  | JObj l => l
  | JArr l => indexed l
  | JStr s => indexed (string_chars s)
  | _ => []
  end.

(** [{...a, ...b}] on property lists. *)
Definition assign (a b : list (string * JSValue)) : list (string * JSValue) :=
  foldl (fun acc kv => assoc_set kv.1 kv.2 acc) a b.

(** [v.k] for a property name [k] that no prototype defines.  The callers
    guard against [null] and [undefined] receivers. *)
Definition get_prop (v : JSValue) (k : string) : JSValue :=
  match v with
  | JObj l => default JUndefined (assoc_get k l)
  | _ => JUndefined
  end.

(** [v.k = x] in strict mode: it throws a TypeError on a primitive.  An
    array would take the property as well; arrays carry no named
    properties in [JSValue], so that case is reported as [None] too. *)
Definition set_prop (v : JSValue) (k : string) (x : JSValue) : option JSValue :=
  match v with
  | JObj l => Some (JObj (assoc_set k x l))
  | _ => None
  end.

(** ** String helpers *)

(** [s.startsWith(p)] *)
Definition startsWith (s p : string) : bool := String.prefix p s.

(** [s.includes(p)] *)
Fixpoint includes (s p : string) : bool :=
  String.prefix p s ||
  match s with
  | EmptyString => false
  | String _ s' => includes s' p
  end.

Fixpoint join (sep : string) (l : list string) : string :=
  match l with
  | [] => ""
  | [x] => x
  | x :: l' => x +:+ sep +:+ join sep l'
  end.

(** ToString, as a template literal applies it. *)
Fixpoint to_string (v : JSValue) : string :=
  match v with
  | JUndefined => "undefined"
  | JNull => "null"
  | JBool b => if b then "true" else "false"
  | JNum n => pretty n
  | JStr s => s
  | JArr l =>
      join "," (map (fun x =>
                       match x with
                       | JUndefined | JNull => ""
                       | _ => to_string x
                       end) l)
  | JObj _ => "[object Object]"
  end.

(** ** JSON.stringify *)

Definition dquote : ascii := ascii_of_N 34.
Definition backslash : ascii := ascii_of_N 92.

Definition hex_digit (n : N) : ascii :=
  ascii_of_N (if (n <? 10)%N then 48 + n else 87 + n)%N.

Definition escape_char (c : ascii) : string :=
  let n := N_of_ascii c in
  if bool_decide (n = 34)%N then String backslash (String dquote "")
  else if bool_decide (n = 92)%N then String backslash (String backslash "")
  else if bool_decide (n = 8)%N then String backslash "b"
  else if bool_decide (n = 12)%N then String backslash "f"
  else if bool_decide (n = 10)%N then String backslash "n"
  else if bool_decide (n = 13)%N then String backslash "r"
  else if bool_decide (n = 9)%N then String backslash "t"
  else if (n <? 32)%N then
    String backslash
      ("u00" +:+ String (hex_digit (n / 16)) (String (hex_digit (n mod 16)) ""))
  else String c "".

Fixpoint escape (s : string) : string :=
  match s with
  | EmptyString => ""
  | String c s' => escape_char c +:+ escape s'
  end.

Definition quote (s : string) : string :=
  String dquote (escape s +:+ String dquote "").

(** [JSON.stringify(v)].  It returns [undefined] (here [None]) for
    [undefined]; inside an array [undefined] is written as [null], and a
    property whose value is [undefined] is left out. *)
Fixpoint JSON_stringify (v : JSValue) : option string :=
  match v with
  | JUndefined => None
  | JNull => Some "null"
  | JBool b => Some (if b then "true" else "false")
  | JNum n => Some (pretty n)
  | JStr s => Some (quote s)
  | JArr l =>
      Some ("[" +:+ join "," (map (fun x => default "null" (JSON_stringify x)) l)
                +:+ "]")
  | JObj l =>
      Some ("{" +:+ join ","
                     (omap (fun kv =>
                              match JSON_stringify kv.2 with
                              | Some sx => Some (quote kv.1 +:+ ":" +:+ sx)
                              | None => None
                              end) l)
                +:+ "}")
  end.

(** ** JSON.parse

    [JSON_parse_text] reads the JSON texts whose numbers are integers and
    whose [\u] escapes stay below 256; it is the instance used to run the
    model on concrete storage contents.  The operations of the storage
    service take the parser as a parameter, so what is proved about them
    for every parser holds for the browser's. *)

Definition is_ws (c : ascii) : bool :=
  let n := N_of_ascii c in
  bool_decide (n = 32)%N || bool_decide (n = 9)%N
  || bool_decide (n = 10)%N || bool_decide (n = 13)%N.

Fixpoint skip_ws (s : string) : string :=
  match s with
  | EmptyString => ""
  | String c s' => if is_ws c then skip_ws s' else s
  end.

Definition hex_value (c : ascii) : option N :=
  let n := N_of_ascii c in
  if ((48 <=? n) && (n <=? 57))%N then Some (n - 48)%N
  else if ((97 <=? n) && (n <=? 102))%N then Some (n - 87)%N
  else if ((65 <=? n) && (n <=? 70))%N then Some (n - 55)%N
  else None.

Definition unescape (e : ascii) : option ascii :=
  if bool_decide (e = dquote) then Some dquote
  else if bool_decide (e = backslash) then Some backslash
  else if bool_decide (e = "/"%char) then Some "/"%char
  else if bool_decide (e = "b"%char) then Some (ascii_of_N 8)
  else if bool_decide (e = "f"%char) then Some (ascii_of_N 12)
  else if bool_decide (e = "n"%char) then Some (ascii_of_N 10)
  else if bool_decide (e = "r"%char) then Some (ascii_of_N 13)
  else if bool_decide (e = "t"%char) then Some (ascii_of_N 9)
  else None.

Definition cons_char (c : ascii) (r : option (string * string))
  : option (string * string) :=
  match r with
  | Some (str, rest) => Some (String c str, rest)
  | None => None
  end.

(** The characters of a string literal after its opening quote. *)
Fixpoint parse_chars (s : string) : option (string * string) :=
  match s with
  | EmptyString => None
  | String c s' =>
      if bool_decide (c = dquote) then Some ("", s')
      else if bool_decide (c = backslash) then
        match s' with
        | EmptyString => None
        | String e s'' =>
            match unescape e with
            | Some ch => cons_char ch (parse_chars s'')
            | None =>
                match s'' with
                | String h1 (String h2 (String h3 (String h4 rest))) =>
                    if bool_decide (e = "u"%char) then
                      match hex_value h1, hex_value h2,
                            hex_value h3, hex_value h4 with
                      | Some 0%N, Some 0%N, Some a, Some b =>
                          cons_char (ascii_of_N (a * 16 + b)) (parse_chars rest)
                      | _, _, _, _ => None
                      end
                    else None
                | _ => None
                end
            end
        end
      else if (N_of_ascii c <? 32)%N then None
      else cons_char c (parse_chars s')
  end.

Fixpoint take_digits (s : string) : string * string :=
  match s with
  | EmptyString => ("", "")
  | String c s' =>
      if is_digit c
      then let '(d, r) := take_digits s' in (String c d, r)
      else ("", s)
  end.

(** An integer literal; a fraction or an exponent is outside the fragment. *)
Definition parse_int (s : string) : option (Z * string) :=
  let '(neg, s1) :=
    match s with
    | String "-"%char r => (true, r)
    | _ => (false, s)
    end in
  let '(d, r) := take_digits s1 in
  match d with
  | EmptyString => None
  | String c d' =>
      if bool_decide (c = "0"%char) && negb (bool_decide (d' = "")) then None
      else
        match r with
        | String "."%char _ | String "e"%char _ | String "E"%char _ => None
        | _ =>
            match digits_value 0%N d with
            | Some n => Some (if neg then - Z.of_N n else Z.of_N n, r)
            | None => None
            end
        end
  end.

Definition parse_literal (lit : string) (v : JSValue) (s : string)
  : option (JSValue * string) :=
  if String.prefix lit s
  then Some (v, String.substring (String.length lit)
                                 (String.length s - String.length lit) s)
  else None.

Fixpoint parse_value (fuel : nat) (s : string) : option (JSValue * string) :=
  match fuel with
  | O => None
  | S fuel' =>
      match skip_ws s with
      | EmptyString => None
      | String c s' as s0 =>
          if bool_decide (c = "["%char) then
            match skip_ws s' with
            | String "]"%char r => Some (JArr [], r)
            | s1 => parse_elements fuel' s1 []
            end
          else if bool_decide (c = "{"%char) then
            match skip_ws s' with
            | String "}"%char r => Some (JObj [], r)
            | s1 => parse_members fuel' s1 []
            end
          else if bool_decide (c = dquote) then
            match parse_chars s' with
            | Some (str, r) => Some (JStr str, r)
            | None => None
            end
          else if bool_decide (c = "n"%char) then parse_literal "null" JNull s0
          else if bool_decide (c = "t"%char) then
            parse_literal "true" (JBool true) s0
          else if bool_decide (c = "f"%char) then
            parse_literal "false" (JBool false) s0
          else
            match parse_int s0 with
            | Some (n, r) => Some (JNum n, r)
            | None => None
            end
      end
  end
with parse_elements (fuel : nat) (s : string) (acc : list JSValue)
  : option (JSValue * string) :=
  match fuel with
  | O => None
  | S fuel' =>
      match parse_value fuel' s with
      | Some (v, r) =>
          match skip_ws r with
          | String ","%char r' => parse_elements fuel' r' (acc ++ [v])
          | String "]"%char r' => Some (JArr (acc ++ [v]), r')
          | _ => None
          end
      | None => None
      end
  end
with parse_members (fuel : nat) (s : string) (acc : list (string * JSValue))
  : option (JSValue * string) :=
  match fuel with
  | O => None
  | S fuel' =>
      match skip_ws s with
      | String c s' =>
          if bool_decide (c = dquote) then
            match parse_chars s' with
            | Some (k, r) =>
                match skip_ws r with
                | String ":"%char r1 =>
                    match parse_value fuel' r1 with
                    | Some (v, r2) =>
                        match skip_ws r2 with
                        | String ","%char r' =>
                            parse_members fuel' r' (assoc_set k v acc)
                        | String "}"%char r' =>
                            Some (JObj (assoc_set k v acc), r')
                        | _ => None
                        end
                    | None => None
                    end
                | _ => None
                end
            | None => None
            end
          else None
      | EmptyString => None
      end
  end.

Definition JSON_parse_text (s : string) : option JSValue :=
  match parse_value (3 * String.length s + 3) s with
  | Some (v, r) => if bool_decide (skip_ws r = "") then Some v else None
  | None => None
  end.

End JS.

Import JS.

(* ===================================================================== *)
(** * services/storage.service.ts: BrowserStorageService *)
(* ===================================================================== *)

Module BrowserStorageService.

Inductive StorageType : Type := LOCAL | SESSION.

Record StorageOptions : Type := {
  type : Opt StorageType;
  prefix : Opt string
}.

(** [localStorage] and [sessionStorage] of the browser. *)
Record Browser : Type := {
  localStorage : gmap string string;
  sessionStorage : gmap string string
}.

Definition storage_of (t : StorageType) (b : Browser) : gmap string string :=
  match t with
  | LOCAL => localStorage b
  | SESSION => sessionStorage b
  end.

Definition with_storage (t : StorageType) (m : gmap string string)
    (b : Browser) : Browser :=
  match t with
  | LOCAL => {| localStorage := m; sessionStorage := sessionStorage b |}
  | SESSION => {| localStorage := localStorage b; sessionStorage := m |}
  end.

Definition defaultOptions : StorageOptions :=
  {| type := Given LOCAL; prefix := Given "" |}.

(** [{ ...this.defaultOptions, ...options }] *)
Definition merge_options (options : option StorageOptions) : StorageOptions :=
  match options with
  | None => defaultOptions
  | Some o =>
      {| type := spread (type defaultOptions) (type o);
         prefix := spread (prefix defaultOptions) (prefix o) |}
  end.

(** [getStorage]: [None] is the thrown "Unsupported storage type". *)
Definition getStorage (t : Opt StorageType) : option StorageType :=
  match t with
  | Given t => Some t
  | _ => None
  end.

Definition getPrefixedKey (key : string) (prefix : Opt string) : string :=
  match prefix with
  | Given p => if bool_decide (p = "") then key else p +:+ key
  | _ => key
  end.

(** [typeof value === 'string' ? value : JSON.stringify(value)], then
    turned into a string by [Storage.setItem]. *)
Definition serialize (value : JSValue) : string :=
  match value with
  | JStr s => s
  | _ => default "undefined" (JSON_stringify value)
  end.

Section service.
(** The browser's [JSON.parse]: [None] is a thrown SyntaxError. *)
Variable JSON_parse : string -> option JSValue.
(** Whether [Storage.setItem] stores the item; it throws (quota exceeded)
    where this is [false]. *)
Variable accepts : StorageType -> gmap string string -> string -> string -> bool.

Definition setItem (key : string) (value : JSValue)
    (options : option StorageOptions) (b : Browser) : Browser * bool :=
  let opts := merge_options options in
  match getStorage (type opts) with
  | None => (b, false)
  | Some t =>
      let finalKey := getPrefixedKey key (prefix opts) in
      let serializedValue := serialize value in
      if accepts t (storage_of t b) finalKey serializedValue
      then (with_storage t (<[finalKey := serializedValue]> (storage_of t b)) b,
            true)
      else (b, false)
  end.

(** [null] is [JNull]. *)
Definition getItem (key : string) (options : option StorageOptions)
    (b : Browser) : JSValue :=
  let opts := merge_options options in
  match getStorage (type opts) with
  | None => JNull
  | Some t =>
      let finalKey := getPrefixedKey key (prefix opts) in
      match storage_of t b !! finalKey with
      | None => JNull
      | Some stored =>
          match JSON_parse stored with
          | Some v => v
          | None => JStr stored
          end
      end
  end.

Definition removeItem (key : string) (options : option StorageOptions)
    (b : Browser) : Browser * bool :=
  let opts := merge_options options in
  match getStorage (type opts) with
  | None => (b, false)
  | Some t =>
      let finalKey := getPrefixedKey key (prefix opts) in
      (with_storage t (delete finalKey (storage_of t b)) b, true)
  end.

(** [hasItem] has no [try]: [None] is the exception of [getStorage]. *)
Definition hasItem (key : string) (options : option StorageOptions)
    (b : Browser) : option bool :=
  let opts := merge_options options in
  match getStorage (type opts) with
  | None => None
  | Some t =>
      let finalKey := getPrefixedKey key (prefix opts) in
      Some (bool_decide (is_Some (storage_of t b !! finalKey)))
  end.

(** The [prefix?: string] argument of the convenience methods ends up as
    a present property, [undefined] when it was left out. *)
Definition options_for (t : StorageType) (prefix : option string)
  : option StorageOptions :=
  Some {| type := Given t;
          prefix := match prefix with Some p => Given p | None => Undef end |}.

Definition setLocal (key : string) (value : JSValue) (prefix : option string)
  := setItem key value (options_for LOCAL prefix).
Definition getLocal (key : string) (prefix : option string)
  := getItem key (options_for LOCAL prefix).
Definition removeLocal (key : string) (prefix : option string)
  := removeItem key (options_for LOCAL prefix).
Definition setSession (key : string) (value : JSValue) (prefix : option string)
  := setItem key value (options_for SESSION prefix).
Definition getSession (key : string) (prefix : option string)
  := getItem key (options_for SESSION prefix).
Definition removeSession (key : string) (prefix : option string)
  := removeItem key (options_for SESSION prefix).
End service.

Section storage_keys.
(** Whether [Storage.setItem] stores the item, as above. *)
Variable accepts : StorageType -> gmap string string -> string -> string -> bool.
(** The keys of a storage in the order of [storage.key(0)],
    [storage.key(1)], ..., which the browser chooses. *)
Variable keys_of : gmap string string -> list string.

(** [getKeys]: a key that is falsy (the empty string) is not pushed. *)
Definition getKeys (options : option StorageOptions) (b : Browser) : list string :=
  let opts := merge_options options in
  match getStorage (type opts) with
  | None => []
  | Some t =>
      List.filter (fun key => negb (bool_decide (key = ""))) (keys_of (storage_of t b))
  end.

Definition clear (options : option StorageOptions) (b : Browser) : Browser * bool :=
  let opts := merge_options options in
  match getStorage (type opts) with
  | None => (b, false)
  | Some t =>
      match prefix opts with
      | Given p =>
          if bool_decide (p = "") then (with_storage t ∅ b, true)
          else
            let keys := getKeys (Some opts) b in
            (with_storage t
               (foldl (fun storage key =>
                         if startsWith key p then delete key storage else storage)
                      (storage_of t b) keys) b,
             true)
      | _ => (with_storage t ∅ b, true)
      end
  end.

Definition getSize (options : option StorageOptions) (b : Browser) : Z :=
  let opts := merge_options options in
  match getStorage (type opts) with
  | None => 0
  | Some t => Z.of_nat (size (storage_of t b))
  end.

(** [isAvailable(type)]; the parameter defaults to [LOCAL]. *)
Definition isAvailable (type : option StorageType) (b : Browser) : Browser * bool :=
  let t := default LOCAL type in
  let testKey := "__storage_test__" in
  if accepts t (storage_of t b) testKey "test"
  then (with_storage t (delete testKey (<[testKey := "test"]> (storage_of t b))) b,
        true)
  else (b, false).

Definition clearLocal (prefix : option string) := clear (options_for LOCAL prefix).
Definition clearSession (prefix : option string) := clear (options_for SESSION prefix).
End storage_keys.

End BrowserStorageService.

(* ===================================================================== *)
(** * interfaces/preferences.interface.ts, services/preferences.service.ts *)
(* ===================================================================== *)

Module PreferencesService.
Import BrowserStorageService.

Definition defaultPreferences : JSValue :=
  JObj [("language", JStr "");
        ("theme", JStr "aura-light-orange");
        ("darkMode", JBool false);
        ("scale", JNum 14);
        ("menuLayout", JStr "horizontal");
        ("autoDarkMode", JBool false);
        ("preset", JStr "Aura");
        ("primaryColor", JStr "orange");
        ("surface", JStr "slate");
        ("fontSize", JStr "1rem")].

Definition PREFERENCES_VERSION : Z := 2.

Definition LOCAL_STORAGE_KEY : string := "user-preferences".
Definition VERSION_KEY : string := "preferences-version".

(** The service: the current value of [preferencesSubject]. *)
Record PreferencesService : Type := {
  preferencesSubject : JSValue
}.

Section service.
Variable JSON_parse : string -> option JSValue.
Variable accepts : StorageType -> gmap string string -> string -> string -> bool.

(** [{ ...defaultPreferences, ...stored }] *)
Definition merge_with_defaults (stored : JSValue) : JSValue :=
  JObj (assign (own_entries defaultPreferences) (own_entries stored)).

Definition loadPreferences (b : Browser) : JSValue :=
  let stored := getLocal JSON_parse LOCAL_STORAGE_KEY None b in
  if truthy stored then merge_with_defaults stored
  else JObj (own_entries defaultPreferences).

Definition savePreferences (preferences : JSValue)
    (st : Browser * PreferencesService) : Browser * PreferencesService :=
  let '(b', success) := setLocal accepts LOCAL_STORAGE_KEY preferences None st.1 in
  if success then (b', {| preferencesSubject := preferences |})
  else (b', st.2).

Definition constructor (b : Browser) : Browser * PreferencesService :=
  let initialPreferences := loadPreferences b in
  let this := {| preferencesSubject := initialPreferences |} in
  let storedVersion := getLocal JSON_parse VERSION_KEY None b in
  let currentVersion := pretty PREFERENCES_VERSION in
  if negb (strict_eq_string storedVersion currentVersion) then
    let b1 := (removeLocal LOCAL_STORAGE_KEY None b).1 in
    let b2 := (setLocal accepts VERSION_KEY (JStr currentVersion) None b1).1 in
    savePreferences defaultPreferences (b2, this)
  else if negb (default false (hasItem LOCAL_STORAGE_KEY None b)) then
    savePreferences defaultPreferences (b, this)
  else
    let currentStored := loadPreferences b in
    let merged := merge_with_defaults currentStored in
    if bool_decide (JSON_stringify currentStored <> JSON_stringify merged)
    then savePreferences merged (b, this)
    else (b, this).

Definition getPreferences (this : PreferencesService) : JSValue :=
  preferencesSubject this.

Definition updatePreference (key : string) (value : JSValue)
    (st : Browser * PreferencesService) : Browser * PreferencesService :=
  let currentPrefs := getPreferences st.2 in
  let updatedPrefs := JObj (assoc_set key value (own_entries currentPrefs)) in
  savePreferences updatedPrefs st.

Definition resetPreferences (st : Browser * PreferencesService)
  : Browser * PreferencesService :=
  savePreferences (JObj (own_entries defaultPreferences)) st.
End service.

Section theme.
Variable accepts : StorageType -> gmap string string -> string -> string -> bool.

Definition updateTheme (preset primaryColor : string) (isDark : bool)
    (st : Browser * PreferencesService) : Browser * PreferencesService :=
  let newThemeName :=
    preset +:+ "-" +:+ (if isDark then "dark" else "light") +:+ "-" +:+ primaryColor in
  let updatedPrefs :=
    JObj (assoc_set "darkMode" (JBool isDark)
            (assoc_set "primaryColor" (JStr primaryColor)
               (assoc_set "preset" (JStr preset)
                  (assoc_set "theme" (JStr newThemeName)
                     (own_entries (getPreferences st.2)))))) in
  savePreferences accepts updatedPrefs st.

(** The calls that change the preferences, and a run of them. *)
Inductive Op : Type :=
  | UpdatePreference (key : string) (value : JSValue)
  | ResetPreferences
  | UpdateTheme (preset primaryColor : string) (isDark : bool).

Definition step (st : Browser * PreferencesService) (op : Op)
  : Browser * PreferencesService :=
  match op with
  | UpdatePreference key value => updatePreference accepts key value st
  | ResetPreferences => resetPreferences accepts st
  | UpdateTheme preset primaryColor isDark =>
      updateTheme preset primaryColor isDark st
  end.

Definition run (ops : list Op) (st : Browser * PreferencesService)
  : Browser * PreferencesService :=
  foldl step st ops.
End theme.

End PreferencesService.

(* ===================================================================== *)
(** * services/api.service.ts: ApiService *)
(* ===================================================================== *)

Module ApiService.

(** [apiMetadata] is [JNull] until a response sets it.  The subject holds
    the same object as the field. *)
Record ApiService : Type := {
  apiMetadata : JSValue;
  apiMetadataSubject : JSValue
}.

Definition initial : ApiService :=
  {| apiMetadata := JNull; apiMetadataSubject := JNull |}.

Definition setApiMetadata (meta : JSValue) (this : ApiService) : ApiService :=
  {| apiMetadata := meta; apiMetadataSubject := meta |}.

Definition clearApiMetadata (this : ApiService) : ApiService :=
  {| apiMetadata := JNull; apiMetadataSubject := JNull |}.

(** [None] is the TypeError of assigning a property to a primitive. *)
Definition setSessionId (sessionId : JSValue) (this : ApiService)
  : option ApiService :=
  if truthy (apiMetadata this) then
    match set_prop (apiMetadata this) "session" sessionId with
    | Some m => Some {| apiMetadata := m; apiMetadataSubject := m |}
    | None => None
    end
  else Some this.

(** [x?.k ?? null] *)
Definition optional_prop (x : JSValue) (k : string) : JSValue :=
  match x with
  | JNull | JUndefined => JNull
  | _ => match get_prop x k with
         | JUndefined | JNull => JNull
         | v => v
         end
  end.

Definition getSessionId (this : ApiService) : JSValue :=
  optional_prop (apiMetadata this) "session".

Definition getStage (this : ApiService) : JSValue :=
  optional_prop (apiMetadata this) "stage".

Definition getApiMetadata (this : ApiService) : JSValue := apiMetadata this.

Definition getTimestamp (this : ApiService) : JSValue :=
  optional_prop (apiMetadata this) "timestamp".

Definition getApiVersion (this : ApiService) : JSValue :=
  optional_prop (apiMetadata this) "version".

Definition getCacheValidThru (this : ApiService) : JSValue :=
  optional_prop (apiMetadata this) "cacheValidThru".

Definition getErrorCode (this : ApiService) : JSValue :=
  optional_prop (apiMetadata this) "errorCode".

Definition getErrorMessage (this : ApiService) : JSValue :=
  optional_prop (apiMetadata this) "errorMessage".

End ApiService.

(* ===================================================================== *)
(** * interfaces/banner.interface.ts, layout: AppBannerComponent *)
(* ===================================================================== *)

Module AppBannerComponent.

Inductive BannerType : Type :=
  | BannerError | BannerWarning | BannerInfo | BannerSuccess.

Record BannerConfig : Type := {
  type : BannerType;
  title : string;
  message : string;
  icon : Opt string;
  customClasses : Opt string;
  autoHide : Opt bool;
  autoHideTimeout : Opt Z;
  closable : Opt bool;
  id : Opt string
}.

(** [ErrorBannerConfig]: its [type] is always ['error']. *)
Record ErrorBannerConfig : Type := {
  e_title : string;
  e_message : string;
  e_icon : Opt string;
  e_customClasses : Opt string;
  e_autoHide : Opt bool;
  e_autoHideTimeout : Opt Z;
  e_closable : Opt bool;
  e_id : Opt string;
  errorThreshold : Opt Z;
  timeWindow : Opt Z
}.

Record BannerState : Type := {
  isVisible : bool;
  config : option BannerConfig;
  errorCount : Z;
  errorTimestamps : list Z
}.

(** The component: its [bannerState] signal and the pending auto-hide
    timer (its delay), if any.  The padding of the document body is not
    modelled. *)
Record AppBannerComponent : Type := {
  bannerState : BannerState;
  autoHideTimer : option Z
}.

(** The entries of [DEFAULT_CONFIGS]. *)
Record BannerDefaults : Type := {
  d_icon : Opt string;
  d_autoHide : Opt bool;
  d_autoHideTimeout : Opt Z;
  d_closable : Opt bool
}.

Definition DEFAULT_CONFIGS (t : BannerType) : BannerDefaults :=
  match t with
  | BannerError =>
      {| d_icon := Given "pi pi-exclamation-triangle"; d_autoHide := Given true;
         d_autoHideTimeout := Given 60000; d_closable := Given true |}
  | BannerWarning =>
      {| d_icon := Given "pi pi-exclamation-triangle"; d_autoHide := Given false;
         d_autoHideTimeout := Missing; d_closable := Given true |}
  | BannerInfo =>
      {| d_icon := Given "pi pi-info-circle"; d_autoHide := Given false;
         d_autoHideTimeout := Missing; d_closable := Given true |}
  | BannerSuccess =>
      {| d_icon := Given "pi pi-check-circle"; d_autoHide := Given true;
         d_autoHideTimeout := Given 5000; d_closable := Given true |}
  end.

Definition DEFAULT_ERROR_THRESHOLD : Z := 5.
Definition DEFAULT_TIME_WINDOW_MS : Z := 10000.

Definition initial : AppBannerComponent :=
  {| bannerState := {| isVisible := false; config := None;
                       errorCount := 0; errorTimestamps := [] |};
     autoHideTimer := None |}.

(** [s || d] on an optional string *)
Definition or_string (s : Opt string) (d : string) : string :=
  match s with
  | Given x => if bool_decide (x = "") then d else x
  | _ => d
  end.

(** [{ ...defaultConfig, ...config, id: config.id || `banner-${Date.now()}` }] *)
Definition mergedConfig (cfg : BannerConfig) (now : Z) : BannerConfig :=
  let defaultConfig := DEFAULT_CONFIGS (type cfg) in
  {| type := type cfg;
     title := title cfg;
     message := message cfg;
     icon := spread (d_icon defaultConfig) (icon cfg);
     customClasses := customClasses cfg;
     autoHide := spread (d_autoHide defaultConfig) (autoHide cfg);
     autoHideTimeout := spread (d_autoHideTimeout defaultConfig) (autoHideTimeout cfg);
     closable := spread (d_closable defaultConfig) (closable cfg);
     id := Given (or_string (id cfg) ("banner-" +:+ pretty now)) |}.

(** [clearAutoHideTimer] followed by the conditional [setTimeout]. *)
Definition setupAutoHide (cfg : BannerConfig) : option Z :=
  match autoHide cfg, autoHideTimeout cfg with
  | Given true, Given t => if bool_decide (t = 0) then None else Some t
  | _, _ => None
  end.

Definition show (cfg : BannerConfig) (now : Z) (this : AppBannerComponent)
  : AppBannerComponent :=
  let merged := mergedConfig cfg now in
  let state := bannerState this in
  {| bannerState := {| isVisible := true;
                       config := Some merged;
                       errorCount := errorCount state;
                       errorTimestamps := errorTimestamps state |};
     autoHideTimer := setupAutoHide merged |}.

Definition hide (this : AppBannerComponent) : AppBannerComponent :=
  {| bannerState := {| isVisible := false; config := None;
                       errorCount := 0; errorTimestamps := [] |};
     autoHideTimer := None |}.

(** The callback of the auto-hide timer. *)
Definition autoHideTimer_fires (this : AppBannerComponent) : AppBannerComponent :=
  match autoHideTimer this with
  | Some _ => hide this
  | None => this
  end.

Definition threshold_of (cfg : option ErrorBannerConfig) : Z :=
  match cfg with
  | Some c => nullish (errorThreshold c) DEFAULT_ERROR_THRESHOLD
  | None => DEFAULT_ERROR_THRESHOLD
  end.

Definition window_of (cfg : option ErrorBannerConfig) : Z :=
  match cfg with
  | Some c => nullish (timeWindow c) DEFAULT_TIME_WINDOW_MS
  | None => DEFAULT_TIME_WINDOW_MS
  end.

(** The timestamps kept by [registerError], the current one included. *)
Definition validTimestamps (cfg : option ErrorBannerConfig) (now : Z)
    (timestamps : list Z) : list Z :=
  filter (fun timestamp => now - timestamp < window_of cfg) timestamps ++ [now].

(** The banner configuration that [registerError] passes to [show]. *)
Definition errorConfig (cfg : option ErrorBannerConfig) : BannerConfig :=
  match cfg with
  | Some c =>
      {| type := BannerError;
         title := or_string (Given (e_title c)) "core.backendErrorBanner.title";
         message := or_string (Given (e_message c)) "core.backendErrorBanner.message";
         icon := read (e_icon c);
         customClasses := read (e_customClasses c);
         autoHide := read (e_autoHide c);
         autoHideTimeout := read (e_autoHideTimeout c);
         closable := read (e_closable c);
         id := read (e_id c) |}
  | None =>
      {| type := BannerError;
         title := "core.backendErrorBanner.title";
         message := "core.backendErrorBanner.message";
         icon := Undef; customClasses := Undef; autoHide := Undef;
         autoHideTimeout := Undef; closable := Undef; id := Undef |}
  end.

Definition registerError (cfg : option ErrorBannerConfig) (now : Z)
    (this : AppBannerComponent) : AppBannerComponent * bool :=
  let errorThreshold := threshold_of cfg in
  let currentState := bannerState this in
  let valid := validTimestamps cfg now (errorTimestamps currentState) in
  let this1 :=
    {| bannerState := {| isVisible := isVisible currentState;
                         config := config currentState;
                         errorCount := Z.of_nat (length valid);
                         errorTimestamps := valid |};
       autoHideTimer := autoHideTimer this |} in
  if bool_decide (errorThreshold <= Z.of_nat (length valid))
  then (show (errorConfig cfg) now this1, true)
  else (this1, false).

Definition isActive (this : AppBannerComponent) : bool :=
  isVisible (bannerState this).

Definition getErrorCount (this : AppBannerComponent) : Z :=
  errorCount (bannerState this).

(** The operations that update the component, and the states they reach
    from the initial one. *)
Inductive Op : Type :=
  | OpShow (cfg : BannerConfig) (now : Z)
  | OpHide
  | OpRegisterError (cfg : option ErrorBannerConfig) (now : Z)
  | OpTimer.

Definition run (op : Op) (this : AppBannerComponent) : AppBannerComponent :=
  match op with
  | OpShow cfg now => show cfg now this
  | OpHide => hide this
  | OpRegisterError cfg now => (registerError cfg now this).1
  | OpTimer => autoHideTimer_fires this
  end.

Inductive reachable : AppBannerComponent -> Prop :=
  | reachable_initial : reachable initial
  | reachable_run op this : reachable this -> reachable (run op this).

End AppBannerComponent.

(* ===================================================================== *)
(** * services/banner.service.ts: BannerService *)
(* ===================================================================== *)

Module BannerService.

(** The registered banner component, or [null]. *)
Record BannerService : Type := {
  bannerComponent : option AppBannerComponent.AppBannerComponent
}.

Definition registerBannerComponent (c : AppBannerComponent.AppBannerComponent)
    (this : BannerService) : BannerService :=
  {| bannerComponent := Some c |}.

Definition unregisterBannerComponent (this : BannerService) : BannerService :=
  {| bannerComponent := None |}.

Definition registerError (cfg : option AppBannerComponent.ErrorBannerConfig)
    (now : Z) (this : BannerService) : BannerService * bool :=
  match bannerComponent this with
  | Some c =>
      let '(c', result) := AppBannerComponent.registerError cfg now c in
      ({| bannerComponent := Some c' |}, result)
  | None => (this, false)
  end.

Definition hide (this : BannerService) : BannerService :=
  match bannerComponent this with
  | Some c => {| bannerComponent := Some (AppBannerComponent.hide c) |}
  | None => this
  end.

Definition isActive (this : BannerService) : bool :=
  match bannerComponent this with
  | Some c => AppBannerComponent.isActive c
  | None => false
  end.

End BannerService.

(* ===================================================================== *)
(** * interfaces/stage.interface.ts, services/message.service.ts *)
(* ===================================================================== *)

Module Stage.

Inductive Stage : Type :=
  | BOOTSTRAP | DEV | ENTW | SYST | INTG | GATE | PROD | MOCK.

(** The string value of the enum member. *)
Definition to_string (s : Stage) : string :=
  match s with
  | BOOTSTRAP => "BOOTSTRAP" | DEV => "DEV" | ENTW => "ENTW" | SYST => "SYST"
  | INTG => "INTG" | GATE => "GATE" | PROD => "PROD" | MOCK => "MOCK"
  end.

#[global] Instance Stage_eq_dec : EqDecision Stage.
Proof. solve_decision. Defined.

End Stage.

Module AppMessageService.

(** A toast message; [key] and [data], which the interceptors never set,
    are left out. *)
Record Message : Type := {
  severity : string;
  summary : string;
  detail : JSValue;
  icon : Opt string;
  sticky : Opt bool;
  closable : Opt bool;
  life : Opt Z
}.

(** The messages handed to PrimeNG's [MessageService.add], oldest first. *)
Definition AppMessageService : Type := list Message.

Definition add (m : Message) (this : AppMessageService) : AppMessageService :=
  this ++ [m].

(** [showError(detail)] with the default options. *)
Definition showError (detail : JSValue) (this : AppMessageService)
  : AppMessageService :=
  add {| severity := "error"; summary := "Fehler"; detail := detail;
         icon := Given "pi pi-times-circle"; sticky := Given true;
         closable := Given true; life := Undef |} this.

(** [showInfo(detail)] with the default options. *)
Definition showInfo (detail : JSValue) (this : AppMessageService)
  : AppMessageService :=
  add {| severity := "info"; summary := "Information"; detail := detail;
         icon := Given "pi pi-info-circle"; sticky := Given false;
         closable := Given true; life := Given 5000 |} this.

End AppMessageService.

(* ===================================================================== *)
(** * interceptors: apiInterceptor and errorInterceptor *)
(* ===================================================================== *)

Module Interceptors.

Record HttpRequest : Type := {
  url : string;
  headers : list (string * string)
}.

Definition lower_char (c : ascii) : ascii :=
  let n := N_of_ascii c in
  if ((65 <=? n) && (n <=? 90))%N then ascii_of_N (n + 32) else c.

Fixpoint toLowerCase (s : string) : string :=
  match s with
  | EmptyString => ""
  | String c s' => String (lower_char c) (toLowerCase s')
  end.

(** [request.headers.has(name)]: header names do not depend on case. *)
Definition headers_has (name : string) (req : HttpRequest) : bool :=
  existsb (fun h => bool_decide (toLowerCase h.1 = toLowerCase name)) (headers req).

(** What the next handler emits: a response, or one of the other events
    of a request (sent, progress, headers). *)
Inductive HttpEvent : Type :=
  | HttpResponse (body : JSValue) (status : Z)
  | HttpOtherEvent (kind : Z).

(** [router.navigate(commands, { queryParams })] *)
Record Navigation : Type := {
  commands : list string;
  queryParams : list (string * string)
}.

(** The services the interceptors inject. *)
Record Services : Type := {
  apiMetaService : ApiService.ApiService;
  bannerService : BannerService.BannerService;
  messageService : AppMessageService.AppMessageService;
  router : list Navigation;
  stage : Stage.Stage
}.

Definition set_api (a : ApiService.ApiService) (w : Services) : Services :=
  {| apiMetaService := a; bannerService := bannerService w;
     messageService := messageService w; router := router w; stage := stage w |}.

Definition set_banner (b : BannerService.BannerService) (w : Services) : Services :=
  {| apiMetaService := apiMetaService w; bannerService := b;
     messageService := messageService w; router := router w; stage := stage w |}.

Definition set_messages (m : AppMessageService.AppMessageService) (w : Services)
  : Services :=
  {| apiMetaService := apiMetaService w; bannerService := bannerService w;
     messageService := m; router := router w; stage := stage w |}.

Definition navigate (n : Navigation) (w : Services) : Services :=
  {| apiMetaService := apiMetaService w; bannerService := bannerService w;
     messageService := messageService w; router := router w ++ [n];
     stage := stage w |}.

(** ** api.meta.interceptor.ts *)

(** The requests the envelope interceptor hands on untouched. *)
Definition skipped (req : HttpRequest) : bool :=
  startsWith (url req) "/assets" || startsWith (url req) "http://"
  || startsWith (url req) "https://".

Definition is_legacy (body : JSValue) : bool :=
  truthy body && negb (is_undefined (get_prop body "result"))
  && negb (is_undefined (get_prop body "status")).

Definition is_meta_data (body : JSValue) : bool :=
  truthy body && truthy (get_prop body "meta")
  && negb (is_undefined (get_prop body "data")).

Definition stage_mismatch_message (clientStage : Stage.Stage) (metaStage : JSValue)
  : string :=
  "Stage mismatch: Client expected stage '" +:+ Stage.to_string clientStage
  +:+ "' but API returned stage '" +:+ JS.to_string metaStage
  +:+ "'. Redirecting to error page.".

Definition stage_mismatch_navigation (clientStage : Stage.Stage)
    (metaStage : JSValue) : Navigation :=
  {| commands := ["/status/500"];
     queryParams := [("message", stage_mismatch_message clientStage metaStage)] |}.

(** The toasts for one entry of [body.errors]. *)
Definition show_error_entry (value : JSValue)
    (m : AppMessageService.AppMessageService) : AppMessageService.AppMessageService :=
  match value with
  | JArr msgs => foldl (fun acc msg => AppMessageService.showError msg acc) m msgs
  | JStr _ => AppMessageService.showError value m
  | _ => m
  end.

Definition show_errors (errors : JSValue)
    (m : AppMessageService.AppMessageService) : AppMessageService.AppMessageService :=
  foldl (fun acc kv => show_error_entry kv.2 acc) m (own_entries errors).

(** The function given to [map] for one event.  [None] is an exception
    thrown inside it, which the observable delivers as an error. *)
Definition unwrap (suppressToasts : bool) (event : HttpEvent) (w : Services)
  : Services * option HttpEvent :=
  match event with
  | HttpResponse body status =>
      if is_legacy body then
        match ApiService.setSessionId (get_prop body "session") (apiMetaService w) with
        | None => (w, None)
        | Some api =>
            let w1 := set_api api w in
            let message := get_prop body "message" in
            let w2 :=
              if truthy message && typeof_string message && negb suppressToasts
              then set_messages (AppMessageService.showInfo message (messageService w1)) w1
              else w1 in
            (w2, Some (HttpResponse (get_prop body "result") status))
        end
      else if is_meta_data body then
        let meta := get_prop body "meta" in
        let w1 := set_api (ApiService.setApiMetadata meta (apiMetaService w)) w in
        let clientStage := stage w1 in
        let metaStage := get_prop meta "stage" in
        let w2 :=
          if truthy metaStage
             && negb (strict_eq_string metaStage (Stage.to_string clientStage))
          then navigate (stage_mismatch_navigation clientStage metaStage) w1
          else w1 in
        let errors := get_prop body "errors" in
        let w3 :=
          if truthy errors && typeof_object errors && negb suppressToasts
          then set_messages (show_errors errors (messageService w2)) w2
          else w2 in
        (w3, Some (HttpResponse (get_prop body "data") status))
      else (w, Some event)
  | HttpOtherEvent _ => (w, Some event)
  end.

(** [apiInterceptor] on one event that the next handler emits for
    [request]. *)
Definition apiInterceptor (request : HttpRequest) (event : HttpEvent)
    (w : Services) : Services * option HttpEvent :=
  let suppressToasts := headers_has "X-Suppress-Error-Toast" request in
  if skipped request then (w, Some event)
  else unwrap suppressToasts event w.

(** ** The error interceptor (second part of api.url.interceptor.ts) *)

Record HttpErrorResponse : Type := {
  err_status : Z;
  err_url : option string;
  err_error : JSValue;
  err_message : string
}.

(** How the next handler ends for the error interceptor: with an event,
    with no answer within the 120 s timeout, with an HTTP error, or with
    some other error. *)
Inductive Outcome : Type :=
  | Emits (event : HttpEvent)
  | TimeoutError
  | HttpError (error : HttpErrorResponse)
  | OtherError.

Inductive Result : Type :=
  | Emitted (event : HttpEvent)
  | ThrowRequestTimedOut
  | ThrowHttpError (error : HttpErrorResponse)
  | ThrowOtherError.

Section error_interceptor.
(** [translate.instant] *)
Variable translate : string -> string.

Definition warn_toast (summaryKey detailKey : string) : AppMessageService.Message :=
  {| AppMessageService.severity := "warn";
     AppMessageService.summary := translate summaryKey;
     AppMessageService.detail := JStr (translate detailKey);
     AppMessageService.icon := Missing;
     AppMessageService.sticky := Given true;
     AppMessageService.closable := Missing;
     AppMessageService.life := Missing |}.

(** The configuration passed to [registerError] for a 5xx answer. *)
Definition backend_error_config : AppBannerComponent.ErrorBannerConfig :=
  {| AppBannerComponent.e_title := "core.backendErrorBanner.title";
     AppBannerComponent.e_message := "core.backendErrorBanner.message";
     AppBannerComponent.e_icon := Missing;
     AppBannerComponent.e_customClasses := Missing;
     AppBannerComponent.e_autoHide := Missing;
     AppBannerComponent.e_autoHideTimeout := Missing;
     AppBannerComponent.e_closable := Missing;
     AppBannerComponent.e_id := Missing;
     AppBannerComponent.errorThreshold := Missing;
     AppBannerComponent.timeWindow := Missing |}.

Definition from_status_page (error : HttpErrorResponse) : bool :=
  match err_url error with
  | Some u =>
      negb (bool_decide (u = ""))
      && (includes u "/status/403" || includes u "/status/500")
  | None => false
  end.

(** [error?.error?.error || error?.message || translate.instant(...)] *)
Definition error_text (error : HttpErrorResponse) : JSValue :=
  let inner := get_prop (err_error error) "error" in
  if truthy inner then inner
  else if negb (bool_decide (err_message error = "")) then JStr (err_message error)
  else JStr (translate "core.interceptors.error.genericError").

(** The function given to [catchError]; [now] is [Date.now()]. *)
Definition handle_error (suppressToasts : bool) (now : Z) (o : Outcome)
    (w : Services) : Services * Result :=
  match o with
  | Emits event => (w, Emitted event)
  | TimeoutError =>
      let '(b, shouldSilence) := BannerService.registerError None now (bannerService w) in
      let w1 := set_banner b w in
      let w2 :=
        if negb shouldSilence && negb suppressToasts
        then set_messages
               (AppMessageService.add
                  (warn_toast "core.interceptors.error.timeout.summary"
                              "core.interceptors.error.timeout.detail")
                  (messageService w1)) w1
        else w1 in
      (w2, ThrowRequestTimedOut)
  | HttpError error =>
      if from_status_page error then (w, ThrowHttpError error)
      else if bool_decide (500 <= err_status error) then
        let '(b, shouldSilence) :=
          BannerService.registerError (Some backend_error_config) now (bannerService w) in
        let w1 := set_banner b w in
        let w2 :=
          if negb shouldSilence && negb suppressToasts
          then set_messages
                 (AppMessageService.add
                    (warn_toast "core.interceptors.error.serverError.summary"
                                "core.interceptors.error.serverError.detail")
                    (messageService w1)) w1
          else w1 in
        (w2, ThrowHttpError error)
      else
        let w1 :=
          if negb (bool_decide (err_status error = 0))
             && bool_decide (400 <= err_status error)
             && negb (BannerService.isActive (bannerService w))
             && negb suppressToasts
          then set_messages
                 (AppMessageService.showError (error_text error) (messageService w)) w
          else w in
        let w2 :=
          if bool_decide (err_status error = 403)
          then navigate {| commands := ["/status/403"];
                           queryParams := [("error", "forbidden")] |} w1
          else w1 in
        (w2, ThrowHttpError error)
  | OtherError => (w, ThrowOtherError)
  end.

Definition errorInterceptor (request : HttpRequest) (now : Z) (o : Outcome)
    (w : Services) : Services * Result :=
  handle_error (headers_has "X-Suppress-Error-Toast" request) now o w.
End error_interceptor.

(** ** api.url.interceptor.ts (first part): apiUrlInterceptor *)

(** [s.substring(n)] *)
Fixpoint substring_from (n : nat) (s : string) : string :=
  match n, s with
  | O, _ => s
  | S n', String _ s' => substring_from n' s'
  | S _, EmptyString => ""
  end.

(** config/api.config.ts *)
Definition apiBaseUrlFactory (useProxy : Opt bool) (apiUrl : string) : string :=
  match useProxy with
  | Given true => ""
  | _ => apiUrl
  end.

(** The request that [apiUrlInterceptor] hands to the next handler;
    [baseUrl] is the injected [API_BASE_URL]. *)
Definition apiUrlInterceptor (baseUrl : string) (request : HttpRequest) : HttpRequest :=
  if startsWith (url request) "./assets/" || startsWith (url request) "http"
  then request
  else
    let finalUrl :=
      if negb (bool_decide (baseUrl = "")) && startsWith (url request) "/api"
      then substring_from 4 (url request)
      else url request in
    {| url := baseUrl +:+ finalUrl; headers := headers request |}.

(** ** authInterceptor (second part of guards/role.guard.ts) *)

(** [s.endsWith(suffix)] *)
Definition endsWith (s suffix : string) : bool :=
  (String.length suffix <=? String.length s)%nat
  && bool_decide (substring_from (String.length s - String.length suffix) s = suffix).

(** [request.headers.get(name)]: the value of the header of that name. *)
Definition headers_get (name : string) (hs : list (string * string)) : option string :=
  snd <$> List.find (fun h => bool_decide (toLowerCase h.1 = toLowerCase name)) hs.

(** The headers after [request.clone({ setHeaders: { [name]: value } })]:
    the header takes the place of the headers of that name. *)
Definition headers_set (name value : string) (hs : list (string * string))
  : list (string * string) :=
  List.filter (fun h => negb (bool_decide (toLowerCase h.1 = toLowerCase name))) hs
  ++ [(name, value)].

(** The requests that get no token: static assets, JSON files and the
    requests to Keycloak itself. *)
Definition without_token (keycloakUrl : string) (request : HttpRequest) : bool :=
  startsWith (url request) "/assets/"
  || endsWith (url request) ".json"
  || (negb (bool_decide (keycloakUrl = "")) && startsWith (url request) keycloakUrl).

(** The request that [authInterceptor] hands to the next handler;
    [token] is what the promise of [authService.getToken()] resolves to
    (the empty string when there is no token). *)
Definition authInterceptor (stage : Stage.Stage) (keycloakUrl token : string)
    (request : HttpRequest) : HttpRequest :=
  if bool_decide (stage = Stage.MOCK) then request
  else if negb (without_token keycloakUrl request) then
    if negb (bool_decide (token = ""))
    then {| url := url request;
            headers := headers_set "Authorization" ("Bearer " +:+ token)
                         (headers request) |}
    else request
  else request.

End Interceptors.

(* ===================================================================== *)
(** * services/api-log.service.ts: ApiLogService *)
(* ===================================================================== *)

Module ApiLogService.

Inductive Status : Type := pending | succeeded | failed.

(** [ApiLogEntry]; [timestamp] is the time of the [Date] in milliseconds. *)
Record ApiLogEntry : Type := {
  id : Z;
  timestamp : Z;
  method : string;
  url : string;
  status : Status;
  requestHeaders : list (string * string);
  requestBody : JSValue;
  responseHeaders : Opt (list (string * string));
  responseBody : Opt JSValue;
  duration : Opt Z;
  expanded : Opt bool
}.

(** [logsSubject] holds the array that was last given to [next]. *)
Record ApiLogService : Type := {
  logsSubject : list ApiLogEntry;
  logs : list ApiLogEntry;
  idCounter : Z
}.

Definition initial : ApiLogService :=
  {| logsSubject := []; logs := []; idCounter := 0 |}.

(** [{ ...entry, id, timestamp }] *)
Definition with_id (newId newTimestamp : Z) (entry : ApiLogEntry) : ApiLogEntry :=
  {| id := newId; timestamp := newTimestamp;
     method := method entry; url := url entry; status := status entry;
     requestHeaders := requestHeaders entry; requestBody := requestBody entry;
     responseHeaders := responseHeaders entry; responseBody := responseBody entry;
     duration := duration entry; expanded := expanded entry |}.

(** [addEntry(entry)]; [now] is the time of [new Date()].  The fields
    [id] and [timestamp] of the argument are overwritten. *)
Definition addEntry (entry : ApiLogEntry) (now : Z) (this : ApiLogService)
  : ApiLogService * ApiLogEntry :=
  let newEntry := with_id (idCounter this) now entry in
  let logs1 := newEntry :: logs this in
  ({| logsSubject := logs1; logs := logs1; idCounter := idCounter this + 1 |},
   newEntry).

(** [logs.findIndex((log) => log.id === updatedEntry.id)] *)
Definition findIndex (updatedId : Z) (l : list ApiLogEntry) : option nat :=
  fst <$> list_find (fun log => id log = updatedId) l.

Definition updateEntry (updatedEntry : ApiLogEntry) (this : ApiLogService)
  : ApiLogService :=
  match findIndex (id updatedEntry) (logs this) with
  | Some index =>
      let logs1 := <[index := updatedEntry]> (logs this) in
      {| logsSubject := logs1; logs := logs1; idCounter := idCounter this |}
  | None => this
  end.

Definition clearLogs (this : ApiLogService) : ApiLogService :=
  {| logsSubject := []; logs := []; idCounter := idCounter this |}.

(** The calls of the service, and a run of them. *)
Inductive Op : Type :=
  | AddEntry (entry : ApiLogEntry) (now : Z)
  | UpdateEntry (updatedEntry : ApiLogEntry)
  | ClearLogs.

Definition step (this : ApiLogService) (op : Op) : ApiLogService :=
  match op with
  | AddEntry entry now => (addEntry entry now this).1
  | UpdateEntry updatedEntry => updateEntry updatedEntry this
  | ClearLogs => clearLogs this
  end.

Definition run (ops : list Op) (this : ApiLogService) : ApiLogService :=
  foldl step this ops.

End ApiLogService.

(* ===================================================================== *)
(** * api.meta.interceptor.ts (second part): apiLoggingInterceptor *)
(* ===================================================================== *)

Module ApiLoggingInterceptor.
Import ApiLogService.

(** The request as the logging interceptor reads it. *)
Record LoggedRequest : Type := {
  request_method : string;
  request : Interceptors.HttpRequest;
  request_body : JSValue
}.

(** The synchronous part: outside production the request is entered as
    pending.  [startTime] is [Date.now()], [now] the time of the
    [new Date()] in [addEntry].  The entry returned is the [logEntry] of
    the closure. *)
Definition on_request (stage : Stage.Stage) (r : LoggedRequest) (now : Z)
    (log : ApiLogService) : ApiLogService * option ApiLogEntry :=
  if bool_decide (stage = Stage.PROD) then (log, None)
  else
    let '(log1, logEntry) :=
      addEntry {| id := 0; timestamp := 0;
                  method := request_method r;
                  url := Interceptors.url (request r);
                  status := pending;
                  requestHeaders := Interceptors.headers (request r);
                  requestBody := request_body r;
                  responseHeaders := Missing; responseBody := Missing;
                  duration := Missing; expanded := Missing |} now log in
    (log1, Some logEntry).

(** The [tap] for one event; [responseHeaders] are the headers of the
    response, [now] is [Date.now()]. *)
Definition on_event (logEntry : option ApiLogEntry) (startTime now : Z)
    (responseHeaders : list (string * string)) (event : Interceptors.HttpEvent)
    (log : ApiLogService) : ApiLogService :=
  match logEntry, event with
  | Some e, Interceptors.HttpResponse body _ =>
      updateEntry {| id := id e; timestamp := timestamp e;
                     method := method e; url := url e;
                     status := succeeded;
                     requestHeaders := requestHeaders e;
                     requestBody := requestBody e;
                     responseHeaders := Given responseHeaders;
                     responseBody := Given body;
                     duration := Given (now - startTime);
                     expanded := expanded e |} log
  | _, _ => log
  end.

(** The [catchError]: the entry is marked as failed and the error is
    thrown again. *)
Definition on_error (logEntry : option ApiLogEntry) (startTime now : Z)
    (error : Interceptors.HttpErrorResponse) (log : ApiLogService)
  : ApiLogService * Interceptors.Result :=
  match logEntry with
  | Some e =>
      (updateEntry {| id := id e; timestamp := timestamp e;
                      method := method e; url := url e;
                      status := failed;
                      requestHeaders := requestHeaders e;
                      requestBody := requestBody e;
                      responseHeaders := responseHeaders e;
                      responseBody := Given (Interceptors.err_error error);
                      duration := Given (now - startTime);
                      expanded := expanded e |} log,
       Interceptors.ThrowHttpError error)
  | None => (log, Interceptors.ThrowHttpError error)
  end.

End ApiLoggingInterceptor.

(* ===================================================================== *)
(** * interfaces/roles.interface.ts, services/roles.service.ts *)
(* ===================================================================== *)

Module RolesService.

Record InternalRole : Type := {
  name : string;
  displayName : string;
  description : string;
  keycloakRoles : list string
}.

(** [internalRolesCache$]: the fetch pipeline behind [shareReplay(1)].  It
    is in flight, or replays the value it emitted, or completed without a
    value. *)
Inductive RolesStream : Type :=
  | InFlight
  | Replays (roles : list InternalRole)
  | Completed.

Inductive PromiseState : Type := Pending | Resolved | Rejected.

(** How the observable of the role data provider ends.  It is taken to
    produce at most one value. *)
Inductive FetchOutcome : Type :=
  | FetchEmits (roles : list InternalRole)
  | FetchErrors
  | FetchCompletesEmpty.

(** The service.  [storedRoles] is the session storage entry
    ['user_roles_cache'], as [getSession<InternalRole[]>] types it: the
    service is the only writer of the entry.  [orphaned] counts the fetches
    still in flight whose stream [clearCache] has dropped.  [promises] are
    the promises returned by [ensureRolesLoaded], in the order of the
    calls.  With an entry that is absent or a role list
    [initializeRoles] does not throw and [isLoadingMappingsSubject] never
    errors, so no promise is rejected; an entry written by something
    else, on which [buildRoleMappingCache] can throw inside the promise
    executor, is not part of this model. *)
Record RolesService : Type := {
  ADMIN_ROLE : string;
  SYSTEM_ROLE : string;
  initialized : bool;
  isLoadingMappingsSubject : bool;
  internalRolesCache : option RolesStream;
  roleMappingCache : gmap string (list string);
  storedRoles : option (list InternalRole);
  orphaned : nat;
  promises : list PromiseState
}.

(** The service as its constructor leaves it, over a session storage. *)
Definition constructor (admin system : string)
    (stored : option (list InternalRole)) : RolesService :=
  {| ADMIN_ROLE := admin; SYSTEM_ROLE := system;
     initialized := false;
     isLoadingMappingsSubject := true;
     internalRolesCache := None;
     roleMappingCache := ∅;
     storedRoles := stored;
     orphaned := 0%nat;
     promises := [] |}.

Definition resolve (p : PromiseState) : PromiseState :=
  match p with
  | Pending => Resolved
  | _ => p
  end.

(** [isLoadingMappingsSubject.next(b)]: the subscriptions made by
    [ensureRolesLoaded] wait for the first [false]. *)
Definition next_loading (b : bool) (this : RolesService) : RolesService :=
  {| ADMIN_ROLE := ADMIN_ROLE this; SYSTEM_ROLE := SYSTEM_ROLE this;
     initialized := initialized this;
     isLoadingMappingsSubject := b;
     internalRolesCache := internalRolesCache this;
     roleMappingCache := roleMappingCache this;
     storedRoles := storedRoles this;
     orphaned := orphaned this;
     promises := if b then promises this else resolve <$> promises this |}.

Definition set_stream (c : option RolesStream) (this : RolesService) : RolesService :=
  {| ADMIN_ROLE := ADMIN_ROLE this; SYSTEM_ROLE := SYSTEM_ROLE this;
     initialized := initialized this;
     isLoadingMappingsSubject := isLoadingMappingsSubject this;
     internalRolesCache := c;
     roleMappingCache := roleMappingCache this;
     storedRoles := storedRoles this;
     orphaned := orphaned this;
     promises := promises this |}.

Definition set_mapping (m : gmap string (list string)) (this : RolesService)
  : RolesService :=
  {| ADMIN_ROLE := ADMIN_ROLE this; SYSTEM_ROLE := SYSTEM_ROLE this;
     initialized := initialized this;
     isLoadingMappingsSubject := isLoadingMappingsSubject this;
     internalRolesCache := internalRolesCache this;
     roleMappingCache := m;
     storedRoles := storedRoles this;
     orphaned := orphaned this;
     promises := promises this |}.

Definition set_stored (r : option (list InternalRole)) (this : RolesService)
  : RolesService :=
  {| ADMIN_ROLE := ADMIN_ROLE this; SYSTEM_ROLE := SYSTEM_ROLE this;
     initialized := initialized this;
     isLoadingMappingsSubject := isLoadingMappingsSubject this;
     internalRolesCache := internalRolesCache this;
     roleMappingCache := roleMappingCache this;
     storedRoles := r;
     orphaned := orphaned this;
     promises := promises this |}.

Definition set_initialized (this : RolesService) : RolesService :=
  {| ADMIN_ROLE := ADMIN_ROLE this; SYSTEM_ROLE := SYSTEM_ROLE this;
     initialized := true;
     isLoadingMappingsSubject := isLoadingMappingsSubject this;
     internalRolesCache := internalRolesCache this;
     roleMappingCache := roleMappingCache this;
     storedRoles := storedRoles this;
     orphaned := orphaned this;
     promises := promises this |}.

Definition set_orphaned (n : nat) (this : RolesService) : RolesService :=
  {| ADMIN_ROLE := ADMIN_ROLE this; SYSTEM_ROLE := SYSTEM_ROLE this;
     initialized := initialized this;
     isLoadingMappingsSubject := isLoadingMappingsSubject this;
     internalRolesCache := internalRolesCache this;
     roleMappingCache := roleMappingCache this;
     storedRoles := storedRoles this;
     orphaned := n;
     promises := promises this |}.

Definition add_promise (p : PromiseState) (this : RolesService) : RolesService :=
  {| ADMIN_ROLE := ADMIN_ROLE this; SYSTEM_ROLE := SYSTEM_ROLE this;
     initialized := initialized this;
     isLoadingMappingsSubject := isLoadingMappingsSubject this;
     internalRolesCache := internalRolesCache this;
     roleMappingCache := roleMappingCache this;
     storedRoles := storedRoles this;
     orphaned := orphaned this;
     promises := promises this ++ [p] |}.

(** The reverse index built from a list of roles, starting from the
    cleared map. *)
Definition push_role (roleName : string) (m : gmap string (list string))
    (keycloakRole : string) : gmap string (list string) :=
  <[keycloakRole := default [] (m !! keycloakRole) ++ [roleName]]> m.

Definition index_roles (internalRoles : list InternalRole)
  : gmap string (list string) :=
  foldl (fun m internalRole =>
           foldl (push_role (name internalRole)) m (keycloakRoles internalRole))
        ∅ internalRoles.

Definition buildRoleMappingCache (internalRoles : list InternalRole)
    (this : RolesService) : RolesService :=
  set_mapping (index_roles internalRoles) this.

Definition getFallbackRoles (this : RolesService) : list InternalRole :=
  [ {| name := ADMIN_ROLE this;
       displayName := ADMIN_ROLE this;
       description := "Full system access";
       keycloakRoles := [] |} ].

Section service.
(** Whether the browser stores the serialized roles ([setSession]
    returns [true]). *)
Variable storage_accepts : list InternalRole -> bool.

Definition saveRolesToStorage (roles : list InternalRole) (this : RolesService)
  : RolesService :=
  if storage_accepts roles then set_stored (Some roles) this else this.

Definition loadRolesFromStorage (this : RolesService)
  : option (list InternalRole) :=
  storedRoles this.

Definition clearRolesCache (this : RolesService) : RolesService :=
  set_stored None this.

(** The synchronous part of [loadRoleMappings]: the fetch is started and
    subscribed to, unless a stream exists already. *)
Definition loadRoleMappings (this : RolesService) : RolesService :=
  match internalRolesCache this with
  | None => set_stream (Some InFlight) (next_loading true this)
  | Some _ => this
  end.

(** The pipeline of [fetchRoleMappings] for one outcome of the provider:
    the [tap] on a value, the [catchError] on an error.  It returns the
    service and what the pipeline delivers. *)
Definition fetchRoleMappings (o : FetchOutcome) (this : RolesService)
  : RolesService * RolesStream :=
  match o with
  | FetchEmits roles =>
      (saveRolesToStorage roles (buildRoleMappingCache roles this), Replays roles)
  | FetchErrors => (this, Replays (getFallbackRoles this))
  | FetchCompletesEmpty => (this, Completed)
  end.

(** The fetch of the current stream ends: the pipeline runs, and then
    the [next] or [error] handler of the subscription made by
    [loadRoleMappings] clears the loading flag. *)
Definition fetch_settles (o : FetchOutcome) (this : RolesService) : RolesService :=
  match internalRolesCache this with
  | Some InFlight =>
      let '(this1, stream) := fetchRoleMappings o this in
      next_loading false (set_stream (Some stream) this1)
  | _ => this
  end.

(** The same for a fetch whose stream was dropped by [clearCache]. *)
Definition orphan_settles (o : FetchOutcome) (this : RolesService) : RolesService :=
  match orphaned this with
  | O => this
  | S n =>
      let '(this1, _) := fetchRoleMappings o this in
      next_loading false (set_orphaned n this1)
  end.

(** In the cached branch the stream is replaced: a fetch that is in
    flight then (started by [getAvailableInternalRoles]) is dropped like
    in [clearCache], and its subscription stays alive. *)
Definition initializeRoles (this : RolesService) : RolesService :=
  let this1 := next_loading true this in
  match loadRolesFromStorage this1 with
  | Some ((_ :: _) as cachedRoles) =>
      let dropped :=
        match internalRolesCache this1 with
        | Some InFlight => S (orphaned this1)
        | _ => orphaned this1
        end in
      next_loading false
        (buildRoleMappingCache cachedRoles
           (set_stream (Some (Replays cachedRoles)) (set_orphaned dropped this1)))
  | _ => loadRoleMappings this1
  end.

(** [ensureRolesLoaded]: the promise it returns is the last of
    [promises]; it is resolved at once when the loading flag is
    already [false]. *)
Definition ensureRolesLoaded (this : RolesService) : RolesService :=
  let this1 :=
    if initialized this then this
    else initializeRoles (set_initialized this) in
  add_promise (if isLoadingMappingsSubject this1 then Pending else Resolved) this1.

Definition getAvailableInternalRoles (this : RolesService) : RolesService :=
  match internalRolesCache this with
  | None => loadRoleMappings this
  | Some _ => this
  end.

Definition clearCache (this : RolesService) : RolesService :=
  let dropped :=
    match internalRolesCache this with
    | Some InFlight => S (orphaned this)
    | _ => orphaned this
    end in
  loadRoleMappings (set_mapping ∅ (set_stream None (set_orphaned dropped this))).

(** The promise returned by the latest call of [ensureRolesLoaded]. *)
Definition last_promise (this : RolesService) : option PromiseState :=
  last (promises this).

(** Calls and events, and a run of them. *)
Inductive Event : Type :=
  | CallEnsureRolesLoaded
  | CallGetAvailableInternalRoles
  | CallClearCache
  | FetchSettles (o : FetchOutcome)
  | OrphanSettles (o : FetchOutcome).

Definition step (this : RolesService) (e : Event) : RolesService :=
  match e with
  | CallEnsureRolesLoaded => ensureRolesLoaded this
  | CallGetAvailableInternalRoles => getAvailableInternalRoles this
  | CallClearCache => clearCache this
  | FetchSettles o => fetch_settles o this
  | OrphanSettles o => orphan_settles o this
  end.

Definition run (events : list Event) (this : RolesService) : RolesService :=
  foldl step this events.
End service.

(** ** Role lookup *)

(** [Set.prototype.add] on a set kept in insertion order. *)
Definition set_add (x : string) (s : list string) : list string :=
  if bool_decide (x ∈ s) then s else s ++ [x].

(** One round of the outer [forEach]. *)
Definition add_mapped (cache : gmap string (list string))
    (internalRoles : list string) (keycloakRole : string) : list string :=
  match cache !! keycloakRole with
  | Some mappedRoles => foldl (fun s role => set_add role s) internalRoles mappedRoles
  | None => internalRoles
  end.

(** [mock] is [environmentService.isMock()].  The method reads the cache
    and returns the service as it found it. *)
Definition mapKeycloakRolesToInternalRoles (mock : bool)
    (keycloakRoles : list string) (this : RolesService)
  : RolesService * list string :=
  if mock then (this, [ADMIN_ROLE this])
  else
    match keycloakRoles with
    | [] => (this, [])
    | _ => (this, foldl (add_mapped (roleMappingCache this)) [] keycloakRoles)
    end.

Definition hasInternalRole (mock : bool) (keycloakRoles : list string)
    (targetInternalRole : string) (this : RolesService) : bool :=
  bool_decide
    (targetInternalRole ∈ (mapKeycloakRolesToInternalRoles mock keycloakRoles this).2).

Definition hasAnyInternalRole (mock : bool) (keycloakRoles : list string)
    (targetInternalRoles : list string) (this : RolesService) : bool :=
  let internalRoles := (mapKeycloakRolesToInternalRoles mock keycloakRoles this).2 in
  existsb (fun role => bool_decide (role ∈ internalRoles)) targetInternalRoles.

Definition hasAllInternalRoles (mock : bool) (keycloakRoles : list string)
    (targetInternalRoles : list string) (this : RolesService) : bool :=
  let internalRoles := (mapKeycloakRolesToInternalRoles mock keycloakRoles this).2 in
  forallb (fun role => bool_decide (role ∈ internalRoles)) targetInternalRoles.

Definition isAdmin (mock : bool) (keycloakRoles : list string)
    (this : RolesService) : bool :=
  hasInternalRole mock keycloakRoles (ADMIN_ROLE this) this.

Definition isAdminOrSystem (mock : bool) (keycloakRoles : list string)
    (this : RolesService) : bool :=
  hasAnyInternalRole mock keycloakRoles [ADMIN_ROLE this; SYSTEM_ROLE this] this.

(** The loop of [checkRouteAccess] over the entries of
    [ROUTE_ROLE_MAPPINGS], in the order of [Object.entries]: the pair of
    [requiredRoles] and [longestMatch]. *)
Definition longest_match (mappings : list (string * list string))
    (routePath : string) : list string * string :=
  foldl (fun acc entry =>
           if startsWith routePath entry.1
              && (String.length acc.2 <? String.length entry.1)%nat
           then (entry.2, entry.1)
           else acc)
        ([], "") mappings.

(** [mappings] is [rolesConfig.ROUTE_ROLE_MAPPINGS]. *)
Definition checkRouteAccess (mappings : list (string * list string))
    (mock : bool) (keycloakRoles : list string) (routePath : string)
    (this : RolesService) : bool :=
  match (longest_match mappings routePath).1 with
  | [] => true
  | requiredRoles => hasAnyInternalRole mock keycloakRoles requiredRoles this
  end.

End RolesService.

(* ===================================================================== *)
(** * guards/role.guard.ts: RoleGuard *)
(* ===================================================================== *)

Module RoleGuard.

(** [RoleRouteData]: an absent entry of [route.data] is [None]. *)
Record RoleRouteData : Type := {
  roles : option (list string);
  allRoles : option (list string);
  excludeRoles : option (list string)
}.

(** [router.createUrlTree(commands, { queryParams })] *)
Record UrlTree : Type := {
  commands : list string;
  queryParams : list (string * string)
}.

(** [boolean | UrlTree]; the guard never returns [false]. *)
Inductive GuardResult : Type :=
  | Allow
  | Redirect (tree : UrlTree).

Definition denied (reason : string) : GuardResult :=
  Redirect {| commands := ["/dashboard"];
              queryParams := [("error", "access-denied"); ("reason", reason)] |}.

Definition includes (userRoles : list string) (role : string) : bool :=
  bool_decide (role ∈ userRoles).

(** The roles the check runs on: in mock mode the admin role is put in
    front of [authService.getRoles()]. *)
Definition effective_roles (stage : Stage.Stage) (adminRole : string)
    (authRoles : list string) : list string :=
  if bool_decide (stage = Stage.MOCK) then adminRole :: authRoles else authRoles.

Definition holds_excluded (data : RoleRouteData) (userRoles : list string) : bool :=
  match excludeRoles data with
  | Some ex => existsb (includes userRoles) ex
  | None => false
  end.

Definition misses_required (data : RoleRouteData) (userRoles : list string) : bool :=
  match allRoles data with
  | Some ((_ :: _) as requiredAllRoles) => negb (forallb (includes userRoles) requiredAllRoles)
  | _ => false
  end.

Definition lacks_any (data : RoleRouteData) (userRoles : list string) : bool :=
  match roles data with
  | Some ((_ :: _) as requiredRoles) => negb (existsb (includes userRoles) requiredRoles)
  | _ => false
  end.

Definition checkRouteDataRoles (data : RoleRouteData) (stage : Stage.Stage)
    (adminRole : string) (authRoles : list string) : GuardResult :=
  match roles data, allRoles data, excludeRoles data with
  | None, None, None => Allow
  | _, _, _ =>
      let userRoles := effective_roles stage adminRole authRoles in
      if holds_excluded data userRoles then denied "excluded-role"
      else if misses_required data userRoles then denied "insufficient-roles"
      else if lacks_any data userRoles then denied "no-required-role"
      else Allow
  end.

Definition denied_by_guard (error : string) : GuardResult :=
  Redirect {| commands := ["/dashboard"]; queryParams := [("error", error)] |}.

(** [canActivate] for the route [data] and the URL [routePath].  Outside
    mock mode the guard waits for the first [false] of
    [isLoadingMappings$]; [None] is the guard still waiting, and the
    result is computed from the roles and the service as they are when
    the flag is cleared.  [authRoles] is [authService.getRoles()].
    Nothing in the function given to [map] throws, so the [catchError]
    has no case here. *)
Definition canActivate (mappings : list (string * list string))
    (data : RoleRouteData) (routePath : string) (stage : Stage.Stage)
    (authRoles : list string) (rolesService : RolesService.RolesService)
  : option GuardResult :=
  let adminRole := RolesService.ADMIN_ROLE rolesService in
  if bool_decide (stage = Stage.MOCK)
  then Some (checkRouteDataRoles data stage adminRole authRoles)
  else if RolesService.isLoadingMappingsSubject rolesService then None
  else
    match authRoles with
    | [] => Some (denied_by_guard "access_denied_no_roles")
    | _ =>
        match checkRouteDataRoles data stage adminRole authRoles with
        | Allow =>
            if RolesService.checkRouteAccess mappings false authRoles
                 routePath rolesService
            then Some Allow
            else Some (denied_by_guard "access_denied_insufficient_permissions")
        | routeDataCheck => Some routeDataCheck
        end
    end.

End RoleGuard.

(* ===================================================================== *)
(** * services/menu.service.ts: MenuService *)
(* ===================================================================== *)

Module MenuService.

Record MenuItemRole : Type := {
  requiredRoles : option (list string);
  requiredAllRoles : option (list string);
  excludeRoles : option (list string)
}.

(** [MenuItemWithRoles], with the fields that the service reads.
    [items] is [None] when the property is missing or [undefined];
    [command] tells whether a function is given. *)
#[local] Unset Elimination Schemes.
Inductive MenuItemWithRoles : Type :=
  | MenuItem (label : string) (roles : option MenuItemRole)
             (items : option (list MenuItemWithRoles))
             (routerLink : JSValue) (url : JSValue) (command : bool).
#[local] Set Elimination Schemes.

Definition roles (item : MenuItemWithRoles) : option MenuItemRole :=
  match item with MenuItem _ r _ _ _ _ => r end.

Definition items (item : MenuItemWithRoles) : option (list MenuItemWithRoles) :=
  match item with MenuItem _ _ i _ _ _ => i end.

Definition routerLink (item : MenuItemWithRoles) : JSValue :=
  match item with MenuItem _ _ _ r _ _ => r end.

Definition url (item : MenuItemWithRoles) : JSValue :=
  match item with MenuItem _ _ _ _ u _ => u end.

Definition command (item : MenuItemWithRoles) : bool :=
  match item with MenuItem _ _ _ _ _ c => c end.

Definition hasAccessToMenuItem (menuItem : MenuItemWithRoles)
    (userRoles : list string) : bool :=
  match roles menuItem with
  | None => true
  | Some r =>
      if match excludeRoles r with
         | Some ex => existsb (fun excludeRole => bool_decide (excludeRole ∈ userRoles)) ex
         | None => false
         end
      then false
      else if match requiredAllRoles r with
              | Some ((_ :: _) as al) =>
                  negb (forallb (fun role => bool_decide (role ∈ userRoles)) al)
              | _ => false
              end
      then false
      else if match requiredRoles r with
              | Some ((_ :: _) as rq) =>
                  negb (existsb (fun role => bool_decide (role ∈ userRoles)) rq)
              | _ => false
              end
      then false
      else true
  end.

(** The last [filter]: a parent that has lost its children and has no
    target of its own is removed. *)
Definition kept (item : MenuItemWithRoles) : bool :=
  negb (bool_decide (items item = None)
        && negb (truthy (routerLink item))
        && negb (truthy (url item))
        && negb (command item)).

(** The function given to [map]: the children of an item that passed the
    first [filter] are filtered in the same way. *)
Fixpoint filter_children (userRoles : list string) (item : MenuItemWithRoles)
  : MenuItemWithRoles :=
  match item with
  | MenuItem label r i link u c =>
      match i with
      | Some ((_ :: _) as children) =>
          let filteredChildren :=
            List.filter kept
              (omap (fun child =>
                       if hasAccessToMenuItem child userRoles
                       then Some (filter_children userRoles child)
                       else None) children) in
          MenuItem label r
            (match filteredChildren with
             | [] => None
             | _ => Some filteredChildren
             end) link u c
      | _ => item
      end
  end.

Definition filterMenuItemsRecursive (menuItems : list MenuItemWithRoles)
    (userRoles : list string) : list MenuItemWithRoles :=
  List.filter kept
    (map (filter_children userRoles)
         (List.filter (fun item => hasAccessToMenuItem item userRoles) menuItems)).

(** [mock] is [environmentService.isMock()], [authUserRoles] is
    [authService.getUserRoles()]. *)
Definition getCurrentUserRoles (mock : bool) (adminRole : string)
    (authUserRoles : list string) : list string :=
  if mock then [adminRole] else authUserRoles.

(** [authenticated] is [authService.isAuthenticated()]. *)
Definition filterMenuItems (authenticated mock : bool) (adminRole : string)
    (authUserRoles : list string) (menuItems : list MenuItemWithRoles)
  : list MenuItemWithRoles :=
  if negb authenticated && negb mock then []
  else filterMenuItemsRecursive menuItems
         (getCurrentUserRoles mock adminRole authUserRoles).

Definition hasAnyRole (mock : bool) (adminRole : string)
    (authUserRoles : list string) (targets : list string) : bool :=
  let userRoles := getCurrentUserRoles mock adminRole authUserRoles in
  existsb (fun role => bool_decide (role ∈ userRoles)) targets.

Definition hasAllRoles (mock : bool) (adminRole : string)
    (authUserRoles : list string) (targets : list string) : bool :=
  let userRoles := getCurrentUserRoles mock adminRole authUserRoles in
  forallb (fun role => bool_decide (role ∈ userRoles)) targets.

(** Whether [P] holds for an item and for the items below it. *)
Fixpoint every (P : MenuItemWithRoles -> bool) (item : MenuItemWithRoles) : bool :=
  P item &&
  match item with
  | MenuItem _ _ (Some children) _ _ _ => forallb (every P) children
  | _ => true
  end.

End MenuService.

(* ===================================================================== *)
(** * services/environment.service.ts, factories/logger.factory.ts *)
(* ===================================================================== *)

Module EnvironmentService.

(** The members of [LogLevel], as [LogLevelOrder] lists them. *)
Inductive LogLevel : Type := OFF | ERROR | WARN | INFO | DEBUG.

(** [CoreEnvironment]; [apiUrl] can be [undefined] after a runtime
    configuration that carries the property without a value.
    [keycloakOnLoad] and [keycloakPkceMethod], which are copied like the
    other Keycloak settings, are left out. *)
Record CoreEnvironment : Type := {
  stage : Stage.Stage;
  apiUrl : Opt string;
  useProxy : Opt bool;
  keycloakUrl : Opt string;
  keycloakRealm : Opt string;
  keycloakClientId : Opt string;
  logLevel : LogLevel
}.

(** [Partial<CoreEnvironment>] as it is read from the configuration
    file: [stage] and [logLevel] are the strings of the file. *)
Record RuntimeConfig : Type := {
  r_stage : Opt string;
  r_apiUrl : Opt string;
  r_useProxy : Opt bool;
  r_keycloakUrl : Opt string;
  r_keycloakRealm : Opt string;
  r_keycloakClientId : Opt string;
  r_logLevel : Opt string
}.

Definition BOOTSTRAP_CONFIG : CoreEnvironment :=
  {| stage := Stage.BOOTSTRAP; apiUrl := Given ""; useProxy := Missing;
     keycloakUrl := Missing; keycloakRealm := Missing; keycloakClientId := Missing;
     logLevel := DEBUG |}.

Section service.
(** [String.prototype.toUpperCase] *)
Variable toUpperCase : string -> string.

(** [stage?.toUpperCase()] and the [switch] on it. *)
Definition parseStage (stage : Opt string) : Stage.Stage :=
  match stage with
  | Given s =>
      let upper := toUpperCase s in
      if bool_decide (upper = "PROD") then Stage.PROD
      else if bool_decide (upper = "SYST") then Stage.SYST
      else if bool_decide (upper = "DEV") then Stage.DEV
      else if bool_decide (upper = "MOCK") then Stage.MOCK
      else if bool_decide (upper = "ENTW") then Stage.ENTW
      else if bool_decide (upper = "INTG") then Stage.INTG
      else if bool_decide (upper = "GATE") then Stage.GATE
      else Stage.DEV
  | _ => Stage.DEV
  end.

Definition parseLogLevel (logLevel : Opt string) : LogLevel :=
  match logLevel with
  | Given s =>
      let upper := toUpperCase s in
      if bool_decide (upper = "DEBUG") then DEBUG
      else if bool_decide (upper = "INFO") then INFO
      else if bool_decide (upper = "WARN") then WARN
      else if bool_decide (upper = "ERROR") then ERROR
      else INFO
  | _ => INFO
  end.

(** The environment after [updateFromRuntimeConfig(runtimeConfig)]. *)
Definition updateFromRuntimeConfig (runtimeConfig : RuntimeConfig) : CoreEnvironment :=
  {| stage := parseStage (r_stage runtimeConfig);
     apiUrl := spread (apiUrl BOOTSTRAP_CONFIG) (r_apiUrl runtimeConfig);
     useProxy := spread (useProxy BOOTSTRAP_CONFIG) (r_useProxy runtimeConfig);
     keycloakUrl := spread (keycloakUrl BOOTSTRAP_CONFIG) (r_keycloakUrl runtimeConfig);
     keycloakRealm :=
       spread (keycloakRealm BOOTSTRAP_CONFIG) (r_keycloakRealm runtimeConfig);
     keycloakClientId :=
       spread (keycloakClientId BOOTSTRAP_CONFIG) (r_keycloakClientId runtimeConfig);
     logLevel := parseLogLevel (r_logLevel runtimeConfig) |}.
End service.

Definition isProduction (environment : CoreEnvironment) : bool :=
  bool_decide (stage environment = Stage.PROD).

Definition isDevelopment (environment : CoreEnvironment) : bool :=
  negb (bool_decide (stage environment = Stage.PROD)).

Definition isMock (environment : CoreEnvironment) : bool :=
  bool_decide (stage environment = Stage.MOCK).

Definition isSystemTest (environment : CoreEnvironment) : bool :=
  bool_decide (stage environment = Stage.SYST).

End EnvironmentService.

Module Logger.
Import EnvironmentService.

Definition LogLevelOrder (level : LogLevel) : Z :=
  match level with
  | OFF => 0 | ERROR => 1 | WARN => 2 | INFO => 3 | DEBUG => 4
  end.

(** Whether the getter returns the bound console function ([true]) or
    [noop], for the log level that the logger reads. *)
Definition log (logLevel : LogLevel) : bool :=
  bool_decide (LogLevelOrder logLevel >= LogLevelOrder INFO).

Definition warn (logLevel : LogLevel) : bool :=
  bool_decide (LogLevelOrder logLevel >= LogLevelOrder WARN).

Definition error (logLevel : LogLevel) : bool :=
  bool_decide (LogLevelOrder logLevel >= LogLevelOrder ERROR).

Definition debug (logLevel : LogLevel) : bool :=
  bool_decide (LogLevelOrder logLevel >= LogLevelOrder DEBUG).

End Logger.

(* ===================================================================== *)
(** * Derived notions and sample inputs *)
(* ===================================================================== *)

Section role_notions.
Import RolesService.

Definition sample_cache : gmap string (list string) :=
  <["kc-user" := ["offerte"; "dashboard"]]> (<["kc-admin" := ["admin"; "offerte"]]> ∅).

Definition sample_service : RolesService :=
  set_mapping sample_cache (constructor "admin" "system" None).

Definition offerte_role : InternalRole :=
  {| name := "offerte"; displayName := "Offerte"; description := "Offers";
     keycloakRoles := ["kc-user"; "kc-admin"] |}.

Definition admin_role : InternalRole :=
  {| name := "admin"; displayName := "Administrator"; description := "All";
     keycloakRoles := ["kc-admin"] |}.

(** What the stream of a fetch replays for an outcome of the provider. *)
Definition delivered (this : RolesService) (o : FetchOutcome) : RolesStream :=
  match o with
  | FetchEmits roles => Replays roles
  | FetchErrors => Replays (getFallbackRoles this)
  | FetchCompletesEmpty => Completed
  end.

(** An event that comes from the provider, not from a caller. *)
Definition from_provider (e : Event) : Prop :=
  match e with
  | FetchSettles _ | OrphanSettles _ => True
  | _ => False
  end.

(** The trace on which the promise stays pending: the stream is created
    by [getAvailableInternalRoles], its fetch fails, and only then is
    [ensureRolesLoaded] called for the first time. *)
Definition early_load_trace : list Event :=
  [CallGetAvailableInternalRoles; FetchSettles FetchErrors; CallEnsureRolesLoaded].
End role_notions.

Section guard_notions.
Import RoleGuard.

Definition mixed_route : RoleRouteData :=
  {| roles := Some ["viewer"];
     allRoles := Some ["editor"; "auditor"];
     excludeRoles := Some ["guest"] |}.

Definition editor_route : RoleRouteData :=
  {| roles := Some ["editor"; "viewer"];
     allRoles := Some ["editor"];
     excludeRoles := Some ["editor"] |}.
End guard_notions.

Section banner_notions.
Import AppBannerComponent.

(** The state invariant: the counter is the number of kept timestamps. *)
Definition count_matches (this : AppBannerComponent) : Prop :=
  errorCount (bannerState this)
  = Z.of_nat (length (errorTimestamps (bannerState this))).

Definition three_errors : AppBannerComponent :=
  run (OpRegisterError None 3000)
    (run (OpRegisterError None 2000) (run (OpRegisterError None 1000) initial)).

Definition four_errors : AppBannerComponent :=
  run (OpRegisterError None 4000) three_errors.

(** The error count that [registerError] reaches: the timestamps of the
    state that lie within the window, and the current error. *)
Definition errors_in_window (cfg : option ErrorBannerConfig) (now : Z)
    (this : AppBannerComponent) : Z :=
  Z.of_nat (length (filter (fun timestamp => now - timestamp < window_of cfg)
                           (errorTimestamps (bannerState this)))) + 1.

(** A 5xx answer or a timeout, as the error interceptor sees them. *)
Definition qualifying (o : Interceptors.Outcome) : Prop :=
  match o with
  | Interceptors.TimeoutError => True
  | Interceptors.HttpError error =>
      Interceptors.from_status_page error = false /\ 500 <= Interceptors.err_status error
  | _ => False
  end.

End banner_notions.

Section interceptor_notions.
Import Interceptors.

Definition dev_services : Services :=
  {| apiMetaService := ApiService.initial;
     bannerService := {| BannerService.bannerComponent := None |};
     messageService := [];
     router := [];
     stage := Stage.DEV |}.

Definition prod_envelope : JSValue :=
  JObj [("meta", JObj [("stage", JStr "PROD")]);
        ("data", JObj [("x", JNum 1)])].

Definition relative_request : HttpRequest :=
  {| url := "/api/offers"; headers := [] |}.

Definition absolute_request : HttpRequest :=
  {| url := "https://api.example.org/offers"; headers := [] |}.

Definition legacy_envelope : JSValue :=
  JObj [("status", JNum 1);
        ("result", JObj [("y", JNum 2)]);
        ("session", JStr "abc")].

(** Services after a response in the current format has set the metadata. *)
Definition services_with_metadata : Services :=
  set_api (ApiService.setApiMetadata
             (JObj [("session", JStr "old"); ("stage", JStr "DEV")])
             ApiService.initial)
          dev_services.

Definition forbidden_navigation : Navigation :=
  {| commands := ["/status/403"]; queryParams := [("error", "forbidden")] |}.
End interceptor_notions.

Definition forbidden_api_error : Interceptors.HttpErrorResponse :=
  {| Interceptors.err_status := 403;
     Interceptors.err_url := Some "/api/offers/17";
     Interceptors.err_error := JObj [("error", JStr "not yours")];
     Interceptors.err_message := "Http failure response for /api/offers/17: 403" |}.

Definition forbidden_status_page_error : Interceptors.HttpErrorResponse :=
  {| Interceptors.err_status := 403;
     Interceptors.err_url := Some "/api/status/403/details";
     Interceptors.err_error := JNull;
     Interceptors.err_message := "Http failure response for /api/status/403/details: 403" |}.

Definition empty_browser : BrowserStorageService.Browser :=
  {| BrowserStorageService.localStorage := ∅;
     BrowserStorageService.sessionStorage := ∅ |}.


(** A browser whose storages take every item. *)
Definition roomy : BrowserStorageService.StorageType -> gmap string string ->
                   string -> string -> bool :=
  fun _ _ _ _ => true.

(** Local storage after an earlier release: version 1 and a stored theme. *)
Definition browser_of_version_1 : BrowserStorageService.Browser :=
  {| BrowserStorageService.localStorage :=
       <["preferences-version" := "1"]>
         (<["user-preferences" := "{" +:+ quote "theme" +:+ ":" +:+ quote "lara-dark-teal" +:+ "}"]> ∅);
     BrowserStorageService.sessionStorage := ∅ |}.

Section more_role_notions.
Import RolesService.

(** The names pushed under the provider role [k]: one for each time a
    role of the list names [k]. *)
Definition names_for (k : string) (internalRoles : list InternalRole)
  : list string :=
  flat_map (fun r => (fun _ => name r) <$> filter (fun k' => k' = k) (keycloakRoles r))
           internalRoles.

(** A promise is pending only while the loading flag is set. *)
Definition pending_waits (this : RolesService) : Prop :=
  Pending ∈ promises this -> isLoadingMappingsSubject this = true.

(** The number of calls of [ensureRolesLoaded] among the events. *)
Definition ensure_calls (events : list Event) : nat :=
  length (List.filter (fun e => match e with
                                | CallEnsureRolesLoaded => true
                                | _ => false
                                end) events).

Definition sample_mappings : list (string * list string) :=
  [("/", []); ("/admin", ["admin"]); ("/admin/users", ["admin"; "offerte"]);
   ("/offers", ["offerte"])].

Definition indexed_service : RolesService :=
  buildRoleMappingCache [offerte_role; admin_role] (constructor "admin" "system" None).

(** A service that has loaded its roles from the session storage. *)
Definition loaded_service : RolesService :=
  ensureRolesLoaded (constructor "admin" "system" (Some [offerte_role; admin_role])).
End more_role_notions.

Section more_interceptor_notions.
Import Interceptors.

(** A 403 answer that does not come from a status page. *)
Definition forbidden_redirect (o : Outcome) : bool :=
  match o with
  | HttpError error =>
      negb (from_status_page error) && bool_decide (err_status error = 403)
  | _ => false
  end.

(** The header name as [HttpHeaders] compares it. *)
Definition same_header (a b : string) : Prop := toLowerCase a = toLowerCase b.

Definition silent_request : HttpRequest :=
  {| url := "/api/jobs/7"; headers := [("x-suppress-error-toast", "1")] |}.
End more_interceptor_notions.

Section log_notions.
Import ApiLogService.

(** The ids of the logged entries, newest entry first. *)
Definition ids (this : ApiLogService) : list Z := id <$> logs this.

(** Every number of the list is below the numbers before it. *)
Fixpoint descending (l : list Z) : Prop :=
  match l with
  | [] => True
  | x :: l' => Forall (fun y => y < x) l' /\ descending l'
  end.

(** The subject holds the log, the ids fall strictly from the newest
    entry to the oldest, and every id has been given out by the counter. *)
Definition log_invariant (this : ApiLogService) : Prop :=
  logsSubject this = logs this /\
  descending (ids this) /\
  Forall (fun i => 0 <= i < idCounter this) (ids this) /\
  0 <= idCounter this.

(** A call made for another request than the one of [e], while the log
    is not cleared. *)
Definition of_other_request (e : ApiLogEntry) (op : Op) : Prop :=
  match op with
  | AddEntry _ _ => True
  | UpdateEntry updatedEntry => id updatedEntry <> id e
  | ClearLogs => False
  end.

(** The entry that the logging interceptor makes for the sample request
    at time 5 on an empty log. *)
Definition sample_pending_entry : ApiLogEntry :=
  {| id := 0; timestamp := 5; method := "GET"; url := "/api/offers";
     status := pending; requestHeaders := []; requestBody := JNull;
     responseHeaders := Missing; responseBody := Missing;
     duration := Missing; expanded := Missing |}.

Definition sample_logged_request : ApiLoggingInterceptor.LoggedRequest :=
  {| ApiLoggingInterceptor.request_method := "GET";
     ApiLoggingInterceptor.request := relative_request;
     ApiLoggingInterceptor.request_body := JNull |}.
End log_notions.

#[global] Instance StorageType_eq_dec : EqDecision BrowserStorageService.StorageType.
Proof. solve_decision. Defined.

Section storage_notions.
Import BrowserStorageService.

(** The storage and the key under which the service keeps the item
    [key] for [options]; [None] for an unsupported storage type. *)
Definition slot (options : option StorageOptions) (key : string)
  : option (StorageType * string) :=
  let opts := merge_options options in
  match getStorage (type opts) with
  | Some t => Some (t, getPrefixedKey key (prefix opts))
  | None => None
  end.

(** The keys of a storage in the order in which the map lists them. *)
Definition listed_keys (m : gmap string string) : list string :=
  (map_to_list m).*1.

(** A local storage with an item under the empty key, two items of the
    application [app.] and one of the availability test. *)
Definition crowded_browser : Browser :=
  {| localStorage :=
       <["" := "x"]> (<["app.theme" := "dark"]> (<["app.lang" := "de"]>
         (<["__storage_test__" := "mine"]> ∅)));
     sessionStorage := <["app.theme" := "light"]> ∅ |}.
End storage_notions.

Section preference_notions.
Import BrowserStorageService PreferencesService.

(** The preferences are an object that has every key of the defaults. *)
Definition has_default_keys (preferences : JSValue) : Prop :=
  exists entries,
    preferences = JObj entries /\
    forall k, is_Some (assoc_get k (own_entries defaultPreferences)) ->
              is_Some (assoc_get k entries).

(** What [savePreferences] writes for [preferences]. *)
Definition saved_as (preferences : JSValue) (b : Browser) : Prop :=
  localStorage b !! LOCAL_STORAGE_KEY = Some (serialize preferences).
End preference_notions.

Section api_service_notions.
Import ApiService.

(** The calls that change the service. *)
Inductive ApiServiceOp : Type :=
  | SetApiMetadata (meta : JSValue)
  | ClearApiMetadata
  | SetSessionId (sessionId : JSValue).

(** A run of calls; [None] when a call threw. *)
Definition api_service_step (this : option ApiService) (op : ApiServiceOp)
  : option ApiService :=
  match this with
  | None => None
  | Some this =>
      match op with
      | SetApiMetadata meta => Some (setApiMetadata meta this)
      | ClearApiMetadata => Some (clearApiMetadata this)
      | SetSessionId sessionId => setSessionId sessionId this
      end
  end.

Definition api_service_run (ops : list ApiServiceOp) (this : ApiService)
  : option ApiService :=
  foldl api_service_step (Some this) ops.

(** The getters of the metadata fields other than the session. *)
Definition other_getters : list (ApiService -> JSValue) :=
  [getTimestamp; getStage; getApiVersion; getCacheValidThru; getErrorCode;
   getErrorMessage].
End api_service_notions.

Section more_banner_notions.
Import AppBannerComponent.

(** The banner is visible exactly when it has a configuration, a pending
    auto-hide timer belongs to a visible banner whose configuration asks
    for it, and a configuration has a non-empty id. *)
Definition banner_consistent (this : AppBannerComponent) : Prop :=
  (isVisible (bannerState this) = true <-> is_Some (config (bannerState this))) /\
  (forall t, autoHideTimer this = Some t ->
             t <> 0 /\
             exists c, config (bannerState this) = Some c /\
                       autoHide c = Given true /\ autoHideTimeout c = Given t) /\
  (forall c, config (bannerState this) = Some c ->
             exists s, id c = Given s /\ s <> "").

(** An error banner shown directly, with the optional fields left out. *)
Definition plain_error_banner : BannerConfig :=
  {| type := BannerError;
     title := "core.backendErrorBanner.title";
     message := "core.backendErrorBanner.message";
     icon := Missing; customClasses := Missing; autoHide := Missing;
     autoHideTimeout := Missing; closable := Missing; id := Missing |}.

(** The configurations that the error interceptor passes to
    [registerError]. *)
Definition interceptor_config (cfg : option ErrorBannerConfig) : Prop :=
  cfg = None \/ cfg = Some Interceptors.backend_error_config.
End more_banner_notions.

Section escalation_notions.
Import AppBannerComponent.


End escalation_notions.

Section menu_notions.
Import MenuService.

(** The role sets of a menu item as route data of the role guard. *)
Definition route_data_of (item : MenuItemWithRoles) : RoleGuard.RoleRouteData :=
  match roles item with
  | Some r =>
      {| RoleGuard.roles := requiredRoles r;
         RoleGuard.allRoles := requiredAllRoles r;
         RoleGuard.excludeRoles := excludeRoles r |}
  | None =>
      {| RoleGuard.roles := None; RoleGuard.allRoles := None;
         RoleGuard.excludeRoles := None |}
  end.

(** The item is accessible and is not a parent left without children and
    without a target. *)
Definition shown (userRoles : list string) (item : MenuItemWithRoles) : bool :=
  hasAccessToMenuItem item userRoles && kept item.

Definition leaf (label : string) (r : option MenuItemRole) : MenuItemWithRoles :=
  MenuItem label r None (JStr ("/" +:+ label)) JUndefined false.

Definition only_for (role : string) : option MenuItemRole :=
  Some {| requiredRoles := Some [role]; requiredAllRoles := None;
          excludeRoles := None |}.

(** A menu with a group for administrators, a group whose only entry is
    for administrators, and a group with an empty list of entries. *)
Definition sample_menu : list MenuItemWithRoles :=
  [leaf "home" None;
   MenuItem "admin" (only_for "admin")
     (Some [leaf "users" None]) JUndefined JUndefined false;
   MenuItem "tools" None
     (Some [leaf "audit" (only_for "admin")]) JUndefined JUndefined false;
   MenuItem "empty" None (Some []) JUndefined JUndefined false].
End menu_notions.

Section environment_notions.
Import EnvironmentService.

(** A configuration file that names no stage and asks for no logging. *)
Definition quiet_config : RuntimeConfig :=
  {| r_stage := Missing; r_apiUrl := Given "https://api.example.org";
     r_useProxy := Missing; r_keycloakUrl := Missing; r_keycloakRealm := Missing;
     r_keycloakClientId := Missing; r_logLevel := Given "OFF" |}.
End environment_notions.

(* ===================================================================== *)
(** * Properties of the role lookup *)
(* ===================================================================== *)

Section role_lookup.
Import RolesService.

Lemma set_add_elem (x y : string) (s : list string) :
  y ∈ set_add x s <-> y = x \/ y ∈ s.
Proof.
  unfold set_add. case_bool_decide as Hin.
  - split; [auto | intros [-> | ?]; done].
  - rewrite elem_of_app, list_elem_of_singleton. tauto.
Qed.

Lemma set_add_NoDup (x : string) (s : list string) :
  NoDup s -> NoDup (set_add x s).
Proof.
  intros Hs. unfold set_add. case_bool_decide as Hin; [done |].
  apply NoDup_app. split_and!; [done | | apply NoDup_singleton].
  intros y Hy ->%list_elem_of_singleton. done.
Qed.

Lemma add_all_elem (vs s : list string) (y : string) :
  y ∈ foldl (fun s role => set_add role s) s vs <-> y ∈ s \/ y ∈ vs.
Proof.
  revert s. induction vs as [| v vs IH]; intros s; simpl.
  - rewrite elem_of_nil. tauto.
  - rewrite IH, set_add_elem, elem_of_cons. tauto.
Qed.

Lemma add_all_NoDup (vs s : list string) :
  NoDup s -> NoDup (foldl (fun s role => set_add role s) s vs).
Proof.
  revert s. induction vs as [| v vs IH]; intros s Hs; simpl; [done |].
  apply IH, set_add_NoDup, Hs.
Qed.

(** A role is in the result exactly if it was collected before or some
    given provider role maps to it. *)
Lemma lookup_rounds_elem (cache : gmap string (list string))
    (ks acc : list string) (y : string) :
  y ∈ foldl (add_mapped cache) acc ks <->
  y ∈ acc \/ exists k vs, k ∈ ks /\ cache !! k = Some vs /\ y ∈ vs.
Proof.
  revert acc. induction ks as [| k ks IH]; intros acc; simpl.
  - split; [auto |]. intros [? | (k & vs & Hk & _)]; [done |].
    by apply elem_of_nil in Hk.
  - rewrite IH. unfold add_mapped.
    destruct (cache !! k) as [vs |] eqn:Hk.
    + rewrite add_all_elem. split.
      * intros [[? | ?] | (k' & vs' & ? & ? & ?)]; [by left | right | right].
        -- exists k, vs. split_and!; [apply list_elem_of_here | done | done].
        -- exists k', vs'. split_and!; [by apply list_elem_of_further | done | done].
      * intros [? | (k' & vs' & [-> | ?]%elem_of_cons & Hk' & ?)].
        -- by left; left.
        -- left; right. congruence.
        -- right. by exists k', vs'.
    + split.
      * intros [? | (k' & vs' & ? & ? & ?)]; [by left | right].
        exists k', vs'. split_and!; [by apply list_elem_of_further | done | done].
      * intros [? | (k' & vs' & [-> | ?]%elem_of_cons & Hk' & ?)];
          [by left | congruence | right; by exists k', vs'].
Qed.

Lemma lookup_rounds_NoDup (cache : gmap string (list string))
    (ks acc : list string) :
  NoDup acc -> NoDup (foldl (add_mapped cache) acc ks).
Proof.
  revert acc. induction ks as [| k ks IH]; intros acc Hacc; simpl; [done |].
  apply IH. unfold add_mapped. destruct (cache !! k); [| done].
  by apply add_all_NoDup.
Qed.

Lemma mapped_roles_elem (mock : bool) (ks : list string) (this : RolesService)
    (y : string) :
  y ∈ (mapKeycloakRolesToInternalRoles mock ks this).2 <->
  if mock then y = ADMIN_ROLE this
  else exists k vs, k ∈ ks /\ roleMappingCache this !! k = Some vs /\ y ∈ vs.
Proof.
  unfold mapKeycloakRolesToInternalRoles. destruct mock; simpl.
  - apply list_elem_of_singleton.
  - destruct ks as [| k ks]; simpl.
    + split; [by intros ?%elem_of_nil |].
      intros (k & vs & Hk & _). by apply elem_of_nil in Hk.
    + change (y ∈ foldl (add_mapped (roleMappingCache this)) [] (k :: ks) <->
              exists k0 vs, k0 ∈ k :: ks /\ roleMappingCache this !! k0 = Some vs /\ y ∈ vs).
      rewrite lookup_rounds_elem. split; [| by right].
      intros [?%elem_of_nil | ?]; done.
Qed.

Lemma mapped_roles_NoDup (mock : bool) (ks : list string) (this : RolesService) :
  NoDup (mapKeycloakRolesToInternalRoles mock ks this).2.
Proof.
  unfold mapKeycloakRolesToInternalRoles. destruct mock; simpl.
  - apply NoDup_singleton.
  - destruct ks as [| k ks]; simpl; [apply NoDup_nil_2 |].
    change (NoDup (foldl (add_mapped (roleMappingCache this)) [] (k :: ks))).
    apply lookup_rounds_NoDup, NoDup_nil_2.
Qed.

Lemma mapped_roles_state (mock : bool) (ks : list string) (this : RolesService) :
  (mapKeycloakRolesToInternalRoles mock ks this).1 = this.
Proof.
  unfold mapKeycloakRolesToInternalRoles.
  destruct mock; [done |]. by destruct ks.
Qed.

(** C1: for every service state (whatever the reverse index holds),
    every list of provider roles and every permutation of it,
    [mapKeycloakRolesToInternalRoles] leaves the service, and with it the
    role-mapping cache, as it was, and returns the same set of internal
    role names for both orders: the two results have no duplicates,
    contain the same names and are permutations of each other. *)
Theorem mapKeycloakRolesToInternalRoles_order_independent
    (mock : bool) (this : RolesService) (keycloakRoles permuted : list string) :
  keycloakRoles ≡ₚ permuted ->
  let r1 := mapKeycloakRolesToInternalRoles mock keycloakRoles this in
  let r2 := mapKeycloakRolesToInternalRoles mock permuted this in
  r1.1 = this /\ r2.1 = this /\
  roleMappingCache r1.1 = roleMappingCache this /\
  NoDup r1.2 /\ NoDup r2.2 /\
  (forall role, role ∈ r1.2 <-> role ∈ r2.2) /\
  list_to_set r1.2 =@{gset string} list_to_set r2.2 /\
  r1.2 ≡ₚ r2.2.
Proof.
  intros Hperm r1 r2. subst r1 r2.
  assert (forall role,
             role ∈ (mapKeycloakRolesToInternalRoles mock keycloakRoles this).2 <->
             role ∈ (mapKeycloakRolesToInternalRoles mock permuted this).2) as Hsame.
  { intros role. rewrite !mapped_roles_elem. destruct mock; [done |].
    split; intros (k & vs & Hk & Hvs & Hy); exists k, vs; split_and!; try done.
    - by rewrite <- Hperm.
    - by rewrite Hperm. }
  rewrite !mapped_roles_state. split_and!; try done.
  - apply mapped_roles_NoDup.
  - apply mapped_roles_NoDup.
  - apply set_eq. intros role. rewrite !elem_of_list_to_set. apply Hsame.
  - apply NoDup_Permutation; [apply mapped_roles_NoDup .. | apply Hsame].
Qed.

Lemma mapKeycloakRolesToInternalRoles_order_independent_witness :
  (mapKeycloakRolesToInternalRoles false ["kc-user"; "kc-admin"] sample_service).2
  ≡ₚ (mapKeycloakRolesToInternalRoles false ["kc-admin"; "kc-user"] sample_service).2.
Proof.
  apply (mapKeycloakRolesToInternalRoles_order_independent
           false sample_service ["kc-user"; "kc-admin"] ["kc-admin"; "kc-user"]).
  apply perm_swap.
Defined.

Example mapKeycloakRolesToInternalRoles_sample :
  (mapKeycloakRolesToInternalRoles false ["kc-user"; "kc-admin"] sample_service).2
  = ["offerte"; "dashboard"; "admin"] /\
  (mapKeycloakRolesToInternalRoles false ["kc-admin"; "kc-user"] sample_service).2
  = ["admin"; "offerte"; "dashboard"].
Proof. split; vm_compute; reflexivity. Qed.
End role_lookup.


(* ===================================================================== *)
(** * Properties of the role guard *)
(* ===================================================================== *)

Section role_guard.
Import RoleGuard.

Lemma existsb_includes (userRoles l : list string) :
  existsb (includes userRoles) l = true <-> exists r, r ∈ l /\ r ∈ userRoles.
Proof.
  rewrite existsb_exists. unfold includes. split.
  - intros (r & Hr%list_elem_of_In & Hu%bool_decide_eq_true). eauto.
  - intros (r & Hr & Hu). exists r. split; [by apply list_elem_of_In |].
    by apply bool_decide_eq_true.
Qed.

Lemma forallb_includes (userRoles l : list string) :
  forallb (includes userRoles) l = true <-> forall r, r ∈ l -> r ∈ userRoles.
Proof.
  rewrite forallb_forall. unfold includes. split.
  - intros H r Hr%list_elem_of_In. by eapply bool_decide_eq_true_1, H.
  - intros H r Hr%list_elem_of_In. by apply bool_decide_eq_true_2, H.
Qed.

Lemma forallb_includes_false (userRoles l : list string) :
  forallb (includes userRoles) l = false <-> exists r, r ∈ l /\ r ∉ userRoles.
Proof.
  induction l as [| a l IH]; simpl.
  - split; [done | intros (r & Hr & _)]. by apply elem_of_nil in Hr.
  - rewrite andb_false_iff, IH. unfold includes at 1.
    rewrite bool_decide_eq_false. split.
    + intros [Ha | (r & Hr & Hn)].
      * exists a. split; [apply list_elem_of_here | done].
      * exists r. split; [by apply list_elem_of_further | done].
    + intros (r & [-> | Hr]%elem_of_cons & Hn); [by left | right; by exists r].
Qed.

Lemma holds_excluded_spec (data : RoleRouteData) (userRoles : list string) :
  holds_excluded data userRoles = true <->
  exists ex r, excludeRoles data = Some ex /\ r ∈ ex /\ r ∈ userRoles.
Proof.
  unfold holds_excluded. destruct (excludeRoles data) as [ex |].
  - rewrite existsb_includes. split.
    + intros (r & ? & ?). by exists ex, r.
    + intros (ex' & r & [= <-] & ? & ?). by exists r.
  - split; [done | intros (? & ? & ? & _); done].
Qed.

Lemma misses_required_spec (data : RoleRouteData) (userRoles : list string) :
  misses_required data userRoles = true <->
  exists al r, allRoles data = Some al /\ r ∈ al /\ r ∉ userRoles.
Proof.
  unfold misses_required. destruct (allRoles data) as [[| a al] |].
  - split; [done | intros (? & r & [= <-] & Hr & _)]. by apply elem_of_nil in Hr.
  - rewrite negb_true_iff.
    rewrite (forallb_includes_false userRoles (a :: al)). split.
    + intros (r & Hr & Hn). exists (a :: al), r. by split_and!.
    + intros (al' & r & [= <-] & Hr & Hn). exists r. by split.
  - split; [done | intros (? & ? & ? & _); done].
Qed.

Lemma lacks_any_spec (data : RoleRouteData) (userRoles : list string) :
  lacks_any data userRoles = true <->
  exists req, roles data = Some req /\ req <> [] /\
              forall r, r ∈ req -> r ∉ userRoles.
Proof.
  unfold lacks_any. destruct (roles data) as [[| a req] |].
  - split; [done | intros (? & [= <-] & ? & _); done].
  - rewrite negb_true_iff, <- not_true_iff_false.
    rewrite (existsb_includes userRoles (a :: req)). split.
    + intros Hnot. exists (a :: req). split_and!; [done | done |].
      intros r Hr Hu. apply Hnot. by exists r.
    + intros (req' & [= <-] & _ & Hnone) (r & Hr & Hu). by apply (Hnone r).
  - split; [done | intros (? & ? & _); done].
Qed.

(** The early return is the case in which none of the three checks can
    fire, so the guard is the chain of the three checks. *)
Lemma checkRouteDataRoles_chain (data : RoleRouteData) (stage : Stage.Stage)
    (adminRole : string) (authRoles : list string) :
  checkRouteDataRoles data stage adminRole authRoles =
  let userRoles := effective_roles stage adminRole authRoles in
  if holds_excluded data userRoles then denied "excluded-role"
  else if misses_required data userRoles then denied "insufficient-roles"
  else if lacks_any data userRoles then denied "no-required-role"
  else Allow.
Proof.
  unfold checkRouteDataRoles, holds_excluded, misses_required, lacks_any.
  destruct (roles data), (allRoles data), (excludeRoles data); reflexivity.
Qed.

Example checkRouteDataRoles_cases :
  checkRouteDataRoles {| roles := None; allRoles := None; excludeRoles := None |}
                      Stage.DEV "admin" [] = Allow /\
  checkRouteDataRoles mixed_route Stage.DEV "admin" ["editor"; "auditor"; "viewer"; "guest"]
  = denied "excluded-role" /\
  checkRouteDataRoles mixed_route Stage.DEV "admin" ["editor"] = denied "insufficient-roles" /\
  checkRouteDataRoles mixed_route Stage.DEV "admin" ["editor"; "auditor"]
  = denied "no-required-role" /\
  checkRouteDataRoles mixed_route Stage.DEV "admin" ["auditor"; "viewer"; "editor"] = Allow /\
  checkRouteDataRoles {| roles := Some ["admin"]; allRoles := None; excludeRoles := None |}
                      Stage.MOCK "admin" [] = Allow.
Proof. vm_compute. split_and!; reflexivity. Qed.

(** C2: for every route data with any-of ([roles]), all-of ([allRoles])
    and none-of ([excludeRoles]) sets and every list of user roles (in
    mock mode the admin role is put in front of them), the guard checks
    the excluded roles first and deny wins: a user who holds an excluded
    role gets the redirect to /dashboard with the reason 'excluded-role',
    not [true], whatever the other sets are, in particular when that role
    is also in a required set; only when no excluded role is held does a
    missing all-of role redirect (reason 'insufficient-roles'), only then
    does the any-of set redirect (reason 'no-required-role'), and
    otherwise access is granted. *)
Theorem checkRouteDataRoles_exclusion_first (data : RoleRouteData)
    (stage : Stage.Stage) (adminRole : string) (authRoles : list string) :
  let userRoles :=
    if bool_decide (stage = Stage.MOCK) then adminRole :: authRoles else authRoles in
  let result := checkRouteDataRoles data stage adminRole authRoles in
  let redirect (reason : string) :=
    Redirect {| commands := ["/dashboard"];
                queryParams := [("error", "access-denied"); ("reason", reason)] |} in
  let excluded_held :=
    exists ex r, excludeRoles data = Some ex /\ r ∈ ex /\ r ∈ userRoles in
  let required_missing :=
    exists al r, allRoles data = Some al /\ r ∈ al /\ r ∉ userRoles in
  let any_lacking :=
    exists req, roles data = Some req /\ req <> [] /\
                forall r, r ∈ req -> r ∉ userRoles in
  (excluded_held -> result = redirect "excluded-role" /\ result <> Allow) /\
  (forall r req ex,
      roles data = Some req \/ allRoles data = Some req ->
      excludeRoles data = Some ex ->
      r ∈ req -> r ∈ ex -> r ∈ userRoles ->
      result = redirect "excluded-role" /\ result <> Allow) /\
  (~ excluded_held -> required_missing ->
   result = redirect "insufficient-roles" /\ result <> Allow) /\
  (~ excluded_held -> ~ required_missing -> any_lacking ->
   result = redirect "no-required-role" /\ result <> Allow) /\
  (~ excluded_held -> ~ required_missing -> ~ any_lacking -> result = Allow) /\
  (forall r, r ∈ authRoles -> r ∈ userRoles).
Proof.
  intros userRoles result redirect excluded_held required_missing any_lacking.
  assert (forall reason, denied reason = redirect reason /\ denied reason <> Allow)
    as Hdenied by (intros reason; split; [reflexivity | discriminate]).
  assert (effective_roles stage adminRole authRoles = userRoles) as Hroles
    by reflexivity.
  subst result. rewrite checkRouteDataRoles_chain. cbv zeta. rewrite Hroles.
  pose proof (holds_excluded_spec data userRoles) as Hex.
  pose proof (misses_required_spec data userRoles) as Hall.
  pose proof (lacks_any_spec data userRoles) as Hany.
  fold excluded_held in Hex. fold required_missing in Hall.
  fold any_lacking in Hany.
  assert (excluded_held -> holds_excluded data userRoles = true) as Hex1 by apply Hex.
  split_and!.
  - intros H. rewrite Hex1 by done. apply Hdenied.
  - intros r req ex _ Hexd _ Hr Hu. rewrite Hex1; [apply Hdenied |]. by exists ex, r.
  - intros Hn Hm. destruct (holds_excluded data userRoles); [exfalso; by apply Hn, Hex |].
    apply Hall in Hm. rewrite Hm. apply Hdenied.
  - intros Hn Hm Ha. destruct (holds_excluded data userRoles); [exfalso; by apply Hn, Hex |].
    destruct (misses_required data userRoles); [exfalso; by apply Hm, Hall |].
    apply Hany in Ha. rewrite Ha. apply Hdenied.
  - intros Hn Hm Ha. destruct (holds_excluded data userRoles); [exfalso; by apply Hn, Hex |].
    destruct (misses_required data userRoles); [exfalso; by apply Hm, Hall |].
    destruct (lacks_any data userRoles); [exfalso; by apply Ha, Hany |]. done.
  - intros r Hr. subst userRoles.
    case_bool_decide; [by apply list_elem_of_further | done].
Qed.

Lemma checkRouteDataRoles_exclusion_first_witness :
  checkRouteDataRoles editor_route Stage.DEV "admin" ["editor"]
  = Redirect {| commands := ["/dashboard"];
                queryParams := [("error", "access-denied");
                                ("reason", "excluded-role")] |} /\
  checkRouteDataRoles editor_route Stage.DEV "admin" ["editor"] <> Allow.
Proof.
  apply (proj1 (checkRouteDataRoles_exclusion_first
                  editor_route Stage.DEV "admin" ["editor"])).
  exists ["editor"], "editor".
  split_and!; [reflexivity | apply list_elem_of_here |].
  vm_compute. apply list_elem_of_here.
Defined.
End role_guard.


(* ===================================================================== *)
(** * Properties of the error banner *)
(* ===================================================================== *)

Section banner.
Import AppBannerComponent.

Lemma show_count_matches (cfg : BannerConfig) (now : Z) (this : AppBannerComponent) :
  count_matches this -> count_matches (show cfg now this).
Proof. unfold count_matches. simpl. done. Qed.

Lemma hide_count_matches (this : AppBannerComponent) : count_matches (hide this).
Proof. reflexivity. Qed.

Lemma registerError_count_matches (cfg : option ErrorBannerConfig) (now : Z)
    (this : AppBannerComponent) :
  count_matches (registerError cfg now this).1.
Proof.
  unfold registerError. case_bool_decide; simpl.
  - apply show_count_matches. reflexivity.
  - reflexivity.
Qed.

Lemma run_count_matches (op : Op) (this : AppBannerComponent) :
  count_matches this -> count_matches (run op this).
Proof.
  intros Hinv. destruct op as [cfg now | | cfg now |]; simpl.
  - by apply show_count_matches.
  - apply hide_count_matches.
  - apply registerError_count_matches.
  - unfold autoHideTimer_fires. destruct (autoHideTimer this);
      [apply hide_count_matches | done].
Qed.

(** C10: [errorCount] always equals the length of [errorTimestamps]: the
    initial banner state satisfies it, [show], [hide] and [registerError]
    (and the auto-hide timer, which calls [hide]) preserve it, and so it
    holds in every state the component reaches. *)
Theorem bannerState_errorCount_is_length :
  count_matches initial /\
  (forall cfg now this, count_matches this -> count_matches (show cfg now this)) /\
  (forall this, count_matches this -> count_matches (hide this)) /\
  (forall cfg now this,
      count_matches this -> count_matches (registerError cfg now this).1) /\
  (forall this, reachable this -> count_matches this).
Proof.
  split_and!.
  - reflexivity.
  - apply show_count_matches.
  - intros this _. apply hide_count_matches.
  - intros cfg now this _. apply registerError_count_matches.
  - intros this Hreach. induction Hreach as [| op this _ IH].
    + reflexivity.
    + by apply run_count_matches.
Qed.

Lemma bannerState_errorCount_is_length_witness :
  reachable three_errors /\ count_matches three_errors /\
  errorCount (bannerState three_errors) = 3.
Proof.
  assert (reachable three_errors) as Hreach by (repeat constructor).
  split_and!; [done | | reflexivity].
  apply (proj2 (proj2 (proj2 (proj2 bannerState_errorCount_is_length)))), Hreach.
Defined.

(** ** Escalation from toast to banner *)



End banner.


Section escalation.
Import AppBannerComponent.

Lemma errors_in_window_length (cfg : option ErrorBannerConfig) (now : Z)
    (this : AppBannerComponent) :
  Z.of_nat (length (validTimestamps cfg now (errorTimestamps (bannerState this))))
  = errors_in_window cfg now this.
Proof.
  unfold validTimestamps, errors_in_window. rewrite length_app. simpl. lia.
Qed.





End escalation.


(* ===================================================================== *)
(** * Properties of role loading *)
(* ===================================================================== *)

Section role_loading.
Import RolesService.
Variable storage_accepts : list InternalRole -> bool.

(** On a service that nothing has touched since its construction, the
    first call of [ensureRolesLoaded] returns a promise that is resolved
    at once from a non-empty cached role list, and otherwise as soon as
    the fetch ends, whether with roles, with an error (the fallback role
    is then what the stream replays) or without a value; the loading flag
    is cleared and no promise is rejected. *)
Lemma ensureRolesLoaded_first_call (admin system : string)
    (stored : option (list InternalRole)) (o : FetchOutcome) :
  let this0 := constructor admin system stored in
  let this1 := ensureRolesLoaded this0 in
  let this2 := fetch_settles storage_accepts o this1 in
  last_promise this2 = Some Resolved /\
  isLoadingMappingsSubject this2 = false /\
  (Rejected ∉ promises this2) /\
  (match stored with
   | Some (r :: rs) =>
       last_promise this1 = Some Resolved /\
       internalRolesCache this2 = Some (Replays (r :: rs)) /\
       roleMappingCache this2 = index_roles (r :: rs)
   | _ =>
       last_promise this1 = Some Pending /\
       internalRolesCache this2 = Some (delivered this0 o)
   end).
Proof.
  intros this0 this1 this2. subst this0 this1 this2.
  destruct stored as [[| r rs] |]; destruct o as [roles | |];
    unfold ensureRolesLoaded, fetch_settles; simpl;
    unfold saveRolesToStorage; simpl;
    try destruct (storage_accepts roles); simpl;
    (split_and!; try reflexivity;
     intros Hin; repeat (apply elem_of_cons in Hin as [Hin | Hin]; [done |]);
     by apply elem_of_nil in Hin).
Qed.

Lemma run_app (events1 events2 : list Event) (this : RolesService) :
  run storage_accepts (events1 ++ events2) this
  = run storage_accepts events2 (run storage_accepts events1 this).
Proof. unfold run. apply foldl_app. Qed.

Lemma settled_service_ignores_provider (this : RolesService) (events : list Event) :
  internalRolesCache this <> Some InFlight ->
  orphaned this = 0%nat ->
  Forall from_provider events ->
  run storage_accepts events this = this.
Proof.
  intros Hstream Horphan Hev. induction Hev as [| e events He _ IH]; [done |].
  unfold run in *. simpl. destruct e as [| | | o | o]; simpl in He; try done.
  - replace (step storage_accepts this (FetchSettles o)) with this; [exact IH |].
    simpl. unfold fetch_settles.
    destruct (internalRolesCache this) as [[| |] |]; done.
  - replace (step storage_accepts this (OrphanSettles o)) with this; [exact IH |].
    simpl. unfold orphan_settles. by rewrite Horphan.
Qed.

(** The reverse index lists, for each provider role, the internal roles in
    the order of the role list. *)
Example index_roles_sample :
  index_roles [offerte_role; admin_role] !! "kc-user" = Some ["offerte"] /\
  index_roles [offerte_role; admin_role] !! "kc-admin" = Some ["offerte"; "admin"] /\
  index_roles [offerte_role; admin_role] !! "kc-other" = None.
Proof. vm_compute. split_and!; reflexivity. Qed.

Example ensureRolesLoaded_from_cache :
  let this := ensureRolesLoaded (constructor "admin" "system" (Some [offerte_role])) in
  promises this = [Resolved] /\
  isLoadingMappingsSubject this = false /\
  roleMappingCache this = index_roles [offerte_role].
Proof. vm_compute. split_and!; reflexivity. Qed.

Example ensureRolesLoaded_from_network :
  let this1 := ensureRolesLoaded (constructor "admin" "system" None) in
  let this2 := RolesService.run (fun _ => true)
                 [FetchSettles (FetchEmits [offerte_role]); CallEnsureRolesLoaded] this1 in
  promises this1 = [Pending] /\
  promises this2 = [Resolved; Resolved] /\
  storedRoles this2 = Some [offerte_role].
Proof. vm_compute. split_and!; reflexivity. Qed.

(** C4 (failing trace): on a fresh service with an empty session storage,
    after [getAvailableInternalRoles] has started the fetch and the fetch
    has failed, the fallback role is what the stream replays, yet the
    first [ensureRolesLoaded] sets the loading flag again, starts no fetch
    and returns a promise that is pending; no later answer of the provider
    resolves it. *)
Theorem ensureRolesLoaded_pending_after_early_load (admin system : string)
    (later : list Event) :
  let this0 := constructor admin system None in
  let this := run storage_accepts early_load_trace this0 in
  internalRolesCache this = Some (Replays (getFallbackRoles this0)) /\
  isLoadingMappingsSubject this = true /\
  last_promise this = Some Pending /\
  (Forall from_provider later ->
   last_promise (run storage_accepts later this) = Some Pending /\
   isLoadingMappingsSubject (run storage_accepts later this) = true).
Proof.
  intros this0 this. subst this0 this.
  split_and!; [reflexivity | reflexivity | reflexivity |].
  intros Hlater.
  rewrite settled_service_ignores_provider;
    [split; reflexivity | simpl; discriminate | reflexivity | exact Hlater].
Qed.

End role_loading.

Lemma ensureRolesLoaded_pending_after_early_load_witness :
  RolesService.last_promise
    (RolesService.run (fun _ => true)
       (early_load_trace
          ++ [RolesService.FetchSettles (RolesService.FetchEmits []);
              RolesService.OrphanSettles RolesService.FetchErrors])
       (RolesService.constructor "admin" "system" None))
  = Some RolesService.Pending.
Proof.
  rewrite run_app.
  apply (ensureRolesLoaded_pending_after_early_load (fun _ => true) "admin" "system").
  repeat constructor.
Defined.



(* ===================================================================== *)
(** * Properties of the interceptors *)
(* ===================================================================== *)

Section assoc_facts.
Context {V : Type}.

Lemma assoc_get_replace (k : string) (v : V) (l : list (string * V)) :
  is_Some (assoc_get k l) -> assoc_get k (assoc_replace k v l) = Some v.
Proof.
  induction l as [| [k' v'] l IH]; simpl; [by intros [? ?] |].
  case_bool_decide as Hk; simpl.
  - intros _. by rewrite bool_decide_eq_true_2.
  - intros Hl. rewrite bool_decide_eq_false_2 by done. by apply IH.
Qed.

Lemma assoc_get_insert_index (n : N) (k : string) (v : V) (l : list (string * V)) :
  assoc_get k l = None -> assoc_get k (assoc_insert_index n k v l) = Some v.
Proof.
  induction l as [| [k' v'] l IH]; simpl.
  - intros _. by rewrite bool_decide_eq_true_2.
  - case_bool_decide as Hk; [done |]. intros Hl.
    destruct (array_index k') as [m |]; [destruct (m <? n)%N |]; simpl.
    + rewrite bool_decide_eq_false_2 by done. by apply IH.
    + by rewrite bool_decide_eq_true_2.
    + by rewrite bool_decide_eq_true_2.
Qed.

Lemma assoc_get_app_None (k : string) (v : V) (l : list (string * V)) :
  assoc_get k l = None -> assoc_get k (l ++ [(k, v)]) = Some v.
Proof.
  induction l as [| [k' v'] l IH]; simpl.
  - intros _. by rewrite bool_decide_eq_true_2.
  - case_bool_decide; [done | apply IH].
Qed.

(** Reading back the property that was just assigned. *)
Lemma assoc_get_set (k : string) (v : V) (l : list (string * V)) :
  assoc_get k (assoc_set k v l) = Some v.
Proof.
  unfold assoc_set. destruct (assoc_get k l) as [old |] eqn:Hget.
  - apply assoc_get_replace. by rewrite Hget.
  - destruct (array_index k).
    + by apply assoc_get_insert_index.
    + by apply assoc_get_app_None.
Qed.
End assoc_facts.

Section envelope.
Import Interceptors.

(** C5 (as amended): for every response to a request that the interceptor
    does not skip, whose body is not taken for the legacy envelope, has a
    truthy [meta] and a defined [data], and whose [meta.stage] is set and
    differs from the client's stage, the interceptor navigates to
    /status/500 with the mismatch message and still forwards [data] as
    the body of the response. *)
Theorem apiInterceptor_stage_mismatch (request : HttpRequest) (body : JSValue)
    (status : Z) (w : Services) :
  skipped request = false ->
  is_legacy body = false ->
  is_meta_data body = true ->
  let metaStage := get_prop (get_prop body "meta") "stage" in
  truthy metaStage = true ->
  strict_eq_string metaStage (Stage.to_string (stage w)) = false ->
  let r := apiInterceptor request (HttpResponse body status) w in
  r.2 = Some (HttpResponse (get_prop body "data") status) /\
  router r.1 = router w ++ [stage_mismatch_navigation (stage w) metaStage] /\
  ApiService.apiMetadata (apiMetaService r.1) = get_prop body "meta".
Proof.
  intros Hskip Hlegacy Hshape metaStage Htruthy Hdiff r. subst r.
  unfold apiInterceptor, unwrap. rewrite Hskip, Hlegacy, Hshape. simpl.
  fold metaStage. rewrite Htruthy, Hdiff. simpl.
  destruct (truthy (get_prop body "errors") && typeof_object (get_prop body "errors")
            && negb (headers_has "X-Suppress-Error-Toast" request)); done.
Qed.

Lemma apiInterceptor_stage_mismatch_witness :
  let r := apiInterceptor relative_request (HttpResponse prod_envelope 200) dev_services in
  r.2 = Some (HttpResponse (JObj [("x", JNum 1)]) 200) /\
  router r.1 = [stage_mismatch_navigation Stage.DEV (JStr "PROD")].
Proof.
  destruct (apiInterceptor_stage_mismatch relative_request prod_envelope 200
              dev_services) as (Hbody & Hnav & _); try reflexivity.
  split; [exact Hbody | exact Hnav].
Defined.

(** The claim as stated fails for a response to an absolute URL: the
    request is handed on untouched, so there is no navigation and the
    envelope is not unwrapped. *)
Lemma apiInterceptor_stage_mismatch_counterexample :
  let r := apiInterceptor absolute_request (HttpResponse prod_envelope 200) dev_services in
  is_meta_data prod_envelope = true /\
  truthy (get_prop (get_prop prod_envelope "meta") "stage") = true /\
  strict_eq_string (get_prop (get_prop prod_envelope "meta") "stage")
                   (Stage.to_string (stage dev_services)) = false /\
  router r.1 = [] /\
  r.2 <> Some (HttpResponse (JObj [("x", JNum 1)]) 200).
Proof. vm_compute. split_and!; try reflexivity. discriminate. Qed.

(** The legacy test comes first: an envelope that also carries [status]
    and [result] is unwrapped as legacy, without a stage check. *)
Example apiInterceptor_legacy_takes_precedence :
  let body := JObj [("meta", JObj [("stage", JStr "PROD")]);
                    ("data", JObj [("x", JNum 1)]);
                    ("status", JNum 1); ("result", JNum 7)] in
  let r := apiInterceptor relative_request (HttpResponse body 200) dev_services in
  router r.1 = [] /\ r.2 = Some (HttpResponse (JNum 7) 200).
Proof. vm_compute. split; reflexivity. Qed.

(** The legacy envelope on a request that the interceptor does not skip,
    the service holding no metadata or an object: the interceptor
    forwards [result] as the body of the response, and hands [session]
    to [setSessionId], which stores it in the metadata object if the
    service holds one. *)
Lemma apiInterceptor_legacy_envelope (request : HttpRequest) (body : JSValue)
    (status : Z) (w : Services) :
  skipped request = false ->
  is_legacy body = true ->
  (ApiService.apiMetadata (apiMetaService w) = JNull \/
   exists l, ApiService.apiMetadata (apiMetaService w) = JObj l) ->
  let r := apiInterceptor request (HttpResponse body status) w in
  r.2 = Some (HttpResponse (get_prop body "result") status) /\
  router r.1 = router w /\
  (forall l, ApiService.apiMetadata (apiMetaService w) = JObj l ->
     get_prop (ApiService.apiMetadata (apiMetaService r.1)) "session"
     = get_prop body "session" /\
     ApiService.getSessionId (apiMetaService r.1)
     = match get_prop body "session" with
       | JUndefined | JNull => JNull
       | session => session
       end).
Proof.
  intros Hskip Hlegacy Hmeta r. subst r.
  unfold apiInterceptor, unwrap. rewrite Hskip, Hlegacy.
  unfold ApiService.setSessionId.
  destruct Hmeta as [Hnull | [l Hobj]].
  - rewrite Hnull. simpl.
    destruct (truthy (get_prop body "message") && typeof_string (get_prop body "message")
              && negb (headers_has "X-Suppress-Error-Toast" request)); simpl;
      (split_and!; [done | done | intros l Hl; congruence]).
  - rewrite Hobj. simpl.
    destruct (truthy (get_prop body "message") && typeof_string (get_prop body "message")
              && negb (headers_has "X-Suppress-Error-Toast" request)); simpl;
      (split_and!; [done | done |]; intros l' _;
       unfold ApiService.getSessionId, ApiService.optional_prop; simpl;
       rewrite assoc_get_set; simpl; done).
Qed.

Lemma apiInterceptor_legacy_envelope_witness :
  let r := apiInterceptor relative_request (HttpResponse legacy_envelope 200)
                          services_with_metadata in
  r.2 = Some (HttpResponse (JObj [("y", JNum 2)]) 200) /\
  ApiService.getSessionId (apiMetaService r.1) = JStr "abc".
Proof.
  destruct (apiInterceptor_legacy_envelope relative_request legacy_envelope 200
              services_with_metadata) as (Hbody & _ & Hsession);
    [reflexivity | reflexivity | right; eexists; reflexivity |].
  split; [exact Hbody |].
  exact (proj2 (Hsession _ eq_refl)).
Defined.

(** For a response to an absolute URL, which the interceptor skips, the
    session id is not recorded and the envelope is not unwrapped. *)
Lemma apiInterceptor_legacy_envelope_counterexample :
  let r := apiInterceptor absolute_request (HttpResponse legacy_envelope 200)
                          services_with_metadata in
  is_legacy legacy_envelope = true /\
  ApiService.getSessionId (apiMetaService r.1) = JStr "old" /\
  r.2 <> Some (HttpResponse (JObj [("y", JNum 2)]) 200).
Proof. vm_compute. split_and!; try reflexivity. discriminate. Qed.

(** C6 (failing input): for every response to a request that the
    interceptor does not skip, whose body is a legacy envelope (defined
    [status] and [result]), while the API service holds no metadata, as
    it does until a response in the current format has arrived: the
    interceptor forwards [result] as the body, but the [session] of the
    envelope is recorded nowhere: [setSessionId] returns without storing
    it, the service is left as it was and [getSessionId] still answers
    [null], whatever session the envelope carries. *)
Theorem apiInterceptor_legacy_session_dropped (request : HttpRequest)
    (body : JSValue) (status : Z) (w : Services) :
  skipped request = false ->
  is_legacy body = true ->
  ApiService.apiMetadata (apiMetaService w) = JNull ->
  let r := apiInterceptor request (HttpResponse body status) w in
  r.2 = Some (HttpResponse (get_prop body "result") status) /\
  apiMetaService r.1 = apiMetaService w /\
  ApiService.apiMetadata (apiMetaService r.1) = JNull /\
  ApiService.getSessionId (apiMetaService r.1) = JNull /\
  (forall session, get_prop body "session" = JStr session ->
                   ApiService.getSessionId (apiMetaService r.1) <> JStr session).
Proof.
  intros Hskip Hlegacy Hnull r. subst r.
  unfold apiInterceptor, unwrap. rewrite Hskip, Hlegacy.
  unfold ApiService.setSessionId. rewrite Hnull. simpl.
  destruct (truthy (get_prop body "message") && typeof_string (get_prop body "message")
            && negb (headers_has "X-Suppress-Error-Toast" request)); simpl;
    unfold ApiService.getSessionId; rewrite Hnull; simpl;
    split_and!; done.
Qed.

(** The example of the specification on services that have seen no
    response yet: the body [{y:2}] is forwarded, the session "abc" is
    not recorded. *)
Lemma apiInterceptor_legacy_session_dropped_witness :
  let r := apiInterceptor relative_request (HttpResponse legacy_envelope 200)
                          dev_services in
  r.2 = Some (HttpResponse (JObj [("y", JNum 2)]) 200) /\
  ApiService.getSessionId (apiMetaService r.1) = JNull /\
  ApiService.getSessionId (apiMetaService r.1) <> JStr "abc".
Proof.
  destruct (apiInterceptor_legacy_session_dropped relative_request legacy_envelope
              200 dev_services) as (Hbody & _ & _ & Hnone & Hnot);
    [reflexivity | reflexivity | reflexivity |].
  split_and!; [exact Hbody | exact Hnone | by apply Hnot].
Defined.

(** While the service holds no metadata, [setSessionId] stores nothing. *)
Example apiInterceptor_legacy_session_without_metadata :
  let r := apiInterceptor relative_request (HttpResponse legacy_envelope 200)
                          dev_services in
  r.2 = Some (HttpResponse (JObj [("y", JNum 2)]) 200) /\
  ApiService.getSessionId (apiMetaService r.1) = JNull.
Proof. vm_compute. split; reflexivity. Qed.
End envelope.

Section forbidden.
Import Interceptors.
Variable translate : string -> string.

(** C8 (as amended): for every request that fails with status 403, the
    error interceptor navigates to /status/403 and rethrows the error,
    unless the URL of the failed response contains /status/403 or
    /status/500: an error of the status pages themselves is rethrown
    without navigation. *)
Theorem errorInterceptor_forbidden (request : HttpRequest) (now : Z)
    (error : HttpErrorResponse) (w : Services) :
  err_status error = 403 ->
  let r := errorInterceptor translate request now (HttpError error) w in
  r.2 = ThrowHttpError error /\
  (from_status_page error = false -> router r.1 = router w ++ [forbidden_navigation]) /\
  (from_status_page error = true -> r.1 = w).
Proof.
  intros Hst r. subst r. unfold errorInterceptor, handle_error.
  destruct (from_status_page error) eqn:Hpage.
  - split_and!; [done | done | done].
  - rewrite Hst. simpl.
    destruct (negb (BannerService.isActive (bannerService w))
              && negb (headers_has "X-Suppress-Error-Toast" request));
      simpl; split_and!; done.
Qed.
End forbidden.

Lemma errorInterceptor_forbidden_witness :
  Interceptors.router
    (Interceptors.errorInterceptor (fun key => key) relative_request 1000
       (Interceptors.HttpError forbidden_api_error) dev_services).1
  = [forbidden_navigation].
Proof.
  destruct (errorInterceptor_forbidden (fun key => key) relative_request 1000
              forbidden_api_error dev_services eq_refl) as (_ & Hnav & _).
  apply Hnav. reflexivity.
Defined.

(** The claim as stated fails for a 403 answer to a request of a status
    page: nothing is navigated to. *)
Lemma errorInterceptor_forbidden_counterexample :
  Interceptors.err_status forbidden_status_page_error = 403 /\
  Interceptors.router
    (Interceptors.errorInterceptor (fun key => key) relative_request 1000
       (Interceptors.HttpError forbidden_status_page_error) dev_services).1
  = [].
Proof. vm_compute. split; reflexivity. Qed.


(* ===================================================================== *)
(** * Properties of the storage service and of the preferences *)
(* ===================================================================== *)


Section storage.
Import BrowserStorageService.
Variable JSON_parse : string -> option JSValue.
Variable accepts : StorageType -> gmap string string -> string -> string -> bool.

(** What [getItem] returns for an item that [setItem] has just stored with
    the same key and options: the parse of the serialized value when it
    parses, the serialized value as a string otherwise. *)
Lemma getItem_after_setItem (key : string) (value : JSValue)
    (options : option StorageOptions) (b : Browser) :
  (setItem accepts key value options b).2 = true ->
  getItem JSON_parse key options (setItem accepts key value options b).1
  = match JSON_parse (serialize value) with
    | Some v => v
    | None => JStr (serialize value)
    end.
Proof.
  unfold setItem, getItem.
  destruct (getStorage (type (merge_options options))) as [t |]; [| done].
  destruct (accepts t _ _ _); [| done]. intros _. simpl.
  destruct t; simpl; by rewrite lookup_insert_eq.
Qed.

(** A string is stored as it is, so a string that is a JSON text is read
    back as the value it denotes. *)
Lemma getItem_string_that_parses (key s : string) (v : JSValue)
    (options : option StorageOptions) (b : Browser) :
  (setItem accepts key (JStr s) options b).2 = true ->
  JSON_parse s = Some v ->
  getItem JSON_parse key options (setItem accepts key (JStr s) options b).1 = v.
Proof.
  intros Hset Hparse. rewrite getItem_after_setItem by done. simpl. by rewrite Hparse.
Qed.

(** A string that is not a JSON text comes back unchanged, and so does any
    other value that the parser reads back from its serialization. *)
Lemma getItem_round_trip (key : string) (value : JSValue)
    (options : option StorageOptions) (b : Browser) :
  (setItem accepts key value options b).2 = true ->
  match value with
  | JStr s => JSON_parse s = None
  | _ => JSON_parse (serialize value) = Some value
  end ->
  getItem JSON_parse key options (setItem accepts key value options b).1 = value.
Proof.
  intros Hset Hparse. rewrite getItem_after_setItem by done.
  destruct value; simpl in *; by rewrite Hparse.
Qed.
End storage.

(** C9 (failing input): [setItem('preferences-version', '2')] succeeds and
    stores the one character 2; [getItem] of the same key with the
    same options parses it and returns the number 2, which is not the
    string that was stored. *)
Theorem getItem_returns_number_for_numeral_string :
  let stored := BrowserStorageService.setItem roomy "preferences-version" (JStr "2")
                  None empty_browser in
  stored.2 = true /\
  BrowserStorageService.localStorage stored.1 !! "preferences-version" = Some "2" /\
  BrowserStorageService.getItem JSON_parse_text "preferences-version" None stored.1
  = JNum 2 /\
  BrowserStorageService.getItem JSON_parse_text "preferences-version" None stored.1
  <> JStr "2".
Proof. vm_compute. split_and!; try reflexivity. discriminate. Qed.

(** Objects do come back: the defaults of the preferences, for one. *)
Example getItem_returns_stored_object :
  let stored := BrowserStorageService.setItem roomy "user-preferences"
                  PreferencesService.defaultPreferences None empty_browser in
  BrowserStorageService.getItem JSON_parse_text "user-preferences" None stored.1
  = PreferencesService.defaultPreferences.
Proof. vm_compute. reflexivity. Qed.

Section preferences.
Import BrowserStorageService PreferencesService.
Variable JSON_parse : string -> option JSValue.
Variable accepts : StorageType -> gmap string string -> string -> string -> bool.

End preferences.



(** The version is written as the string 2 and read back as the number 2,
    which is never strictly equal to the current version string: the
    next load resets the preferences again, although the version has not
    changed, and a preference the user has changed in between is lost. *)
Example constructor_resets_on_every_load :
  let first := PreferencesService.constructor JSON_parse_text roomy empty_browser in
  let changed := PreferencesService.updatePreference roomy "theme"
                   (JStr "lara-dark-teal") first in
  let second := PreferencesService.constructor JSON_parse_text roomy changed.1 in
  BrowserStorageService.localStorage changed.1 !! "preferences-version" = Some "2" /\
  get_prop (PreferencesService.getPreferences changed.2) "theme" = JStr "lara-dark-teal" /\
  BrowserStorageService.getLocal JSON_parse_text "user-preferences" None changed.1
  = PreferencesService.getPreferences changed.2 /\
  PreferencesService.getPreferences second.2 = PreferencesService.defaultPreferences /\
  BrowserStorageService.localStorage second.1 !! "user-preferences"
  = JSON_stringify PreferencesService.defaultPreferences.
Proof. vm_compute. split_and!; reflexivity. Qed.



(* ===================================================================== *)
(** * Further properties of the role service *)
(* ===================================================================== *)

Section reverse_index.
Import RolesService.

Lemma push_roles_lookup (n k : string) (ks : list string)
    (m : gmap string (list string)) :
  default [] (foldl (push_role n) m ks !! k)
  = default [] (m !! k) ++ ((fun _ => n) <$> filter (fun k' => k' = k) ks).
Proof.
  revert m. induction ks as [| k' ks IH]; intros m; simpl.
  - by rewrite app_nil_r.
  - rewrite IH. unfold push_role.
    destruct (decide (k' = k)) as [-> | Hne].
    + rewrite lookup_insert_eq, filter_cons_True by done. simpl.
      by rewrite <- app_assoc.
    + rewrite lookup_insert_ne, filter_cons_False by done. done.
Qed.

Lemma push_roles_is_Some (n k : string) (ks : list string)
    (m : gmap string (list string)) :
  is_Some (foldl (push_role n) m ks !! k) <-> is_Some (m !! k) \/ k ∈ ks.
Proof.
  revert m. induction ks as [| k' ks IH]; intros m; simpl.
  - rewrite elem_of_nil. tauto.
  - rewrite IH, elem_of_cons. unfold push_role.
    destruct (decide (k' = k)) as [-> | Hne].
    + rewrite lookup_insert_eq. split; [intros _; right; by left |].
      intros _. left. by eexists.
    + rewrite lookup_insert_ne by done. split; intros [? | ?]; auto.
      destruct H as [-> | ?]; [done | auto].
Qed.

Lemma index_fold_lookup (k : string) (internalRoles : list InternalRole)
    (m : gmap string (list string)) :
  default []
    (foldl (fun m internalRole =>
              foldl (push_role (name internalRole)) m (keycloakRoles internalRole))
           m internalRoles !! k)
  = default [] (m !! k) ++ names_for k internalRoles.
Proof.
  revert m. induction internalRoles as [| r rs IH]; intros m; simpl.
  - by rewrite app_nil_r.
  - rewrite IH, push_roles_lookup. by rewrite <- app_assoc.
Qed.

Lemma index_fold_is_Some (k : string) (internalRoles : list InternalRole)
    (m : gmap string (list string)) :
  is_Some
    (foldl (fun m internalRole =>
              foldl (push_role (name internalRole)) m (keycloakRoles internalRole))
           m internalRoles !! k)
  <-> is_Some (m !! k) \/ exists r, r ∈ internalRoles /\ k ∈ keycloakRoles r.
Proof.
  revert m. induction internalRoles as [| r rs IH]; intros m; simpl.
  - split; [auto | intros [? | (r & Hr & _)]; [done | by apply elem_of_nil in Hr]].
  - rewrite IH, push_roles_is_Some. split.
    + intros [[? | ?] | (r' & ? & ?)]; [by left | right | right].
      * exists r. split; [apply list_elem_of_here | done].
      * exists r'. split; [by apply list_elem_of_further | done].
    + intros [? | (r' & [-> | ?]%elem_of_cons & ?)];
        [by left; left | by left; right | right; by exists r'].
Qed.

Lemma names_for_elem (k n : string) (internalRoles : list InternalRole) :
  n ∈ names_for k internalRoles <->
  exists r, r ∈ internalRoles /\ name r = n /\ k ∈ keycloakRoles r.
Proof.
  unfold names_for. rewrite list_elem_of_In, in_flat_map. split.
  - intros (r & Hr%list_elem_of_In & Hn%list_elem_of_In).
    apply list_elem_of_fmap in Hn as (k' & -> & Hk').
    apply list_elem_of_filter in Hk' as [-> Hk']. by exists r.
  - intros (r & Hr & <- & Hk). exists r. split; [by apply list_elem_of_In |].
    apply list_elem_of_In, list_elem_of_fmap. exists k. split; [done |].
    by apply list_elem_of_filter.
Qed.

Lemma index_roles_lookup (internalRoles : list InternalRole) (k : string) :
  (is_Some (index_roles internalRoles !! k)
   <-> exists r, r ∈ internalRoles /\ k ∈ keycloakRoles r) /\
  default [] (index_roles internalRoles !! k) = names_for k internalRoles /\
  (forall n, n ∈ default [] (index_roles internalRoles !! k) <->
             exists r, r ∈ internalRoles /\ name r = n /\ k ∈ keycloakRoles r).
Proof.
  unfold index_roles. split_and!.
  - rewrite index_fold_is_Some, lookup_empty. split; [| by right].
    intros [[? ?] | ?]; done.
  - by rewrite index_fold_lookup, lookup_empty.
  - intros n. rewrite index_fold_lookup, lookup_empty. simpl. apply names_for_elem.
Qed.

(** X1: the reverse index that [buildRoleMappingCache] builds has an entry
    for a provider role exactly if some internal role of the list names
    it, and the entry holds, in the order of the list, the names of the
    internal roles that name it; what the cache held before is gone. *)
Theorem buildRoleMappingCache_lookup (internalRoles : list InternalRole)
    (this : RolesService) (k : string) :
  let cache := roleMappingCache (buildRoleMappingCache internalRoles this) in
  (is_Some (cache !! k) <-> exists r, r ∈ internalRoles /\ k ∈ keycloakRoles r) /\
  default [] (cache !! k) = names_for k internalRoles /\
  (forall n, n ∈ default [] (cache !! k) <->
             exists r, r ∈ internalRoles /\ name r = n /\ k ∈ keycloakRoles r).
Proof. simpl. apply index_roles_lookup. Qed.

(** X2: once the cache is built from a role list, the lookup outside mock
    mode returns an internal role exactly if the list has a role of that
    name that names one of the given provider roles. *)
Theorem mapKeycloakRolesToInternalRoles_after_build
    (internalRoles : list InternalRole) (this : RolesService)
    (keycloakRoles : list string) (n : string) :
  n ∈ (mapKeycloakRolesToInternalRoles false keycloakRoles
         (buildRoleMappingCache internalRoles this)).2
  <-> exists r k, r ∈ internalRoles /\ name r = n /\
                  k ∈ keycloakRoles /\ k ∈ RolesService.keycloakRoles r.
Proof.
  rewrite mapped_roles_elem.
  pose proof (index_roles_lookup internalRoles) as Hspec.
  change (roleMappingCache (buildRoleMappingCache internalRoles this))
    with (index_roles internalRoles).
  split.
  - intros (k & vs & Hk & Hvs & Hn).
    destruct (Hspec k) as (_ & _ & Helem).
    rewrite Hvs in Helem. simpl in Helem.
    apply Helem in Hn as (r & Hr & Hname & Hkr). by exists r, k.
  - intros (r & k & Hr & Hname & Hk & Hkr).
    destruct (Hspec k) as (Hsome & _ & Helem).
    assert (is_Some (index_roles internalRoles !! k))
      as [vs Hvs] by (apply Hsome; by exists r).
    exists k, vs. split_and!; [done | done |].
    rewrite Hvs in Helem. simpl in Helem. apply Helem. by exists r.
Qed.
End reverse_index.

Section role_checks.
Import RolesService.

Lemma existsb_elem (l targets : list string) :
  existsb (fun role => bool_decide (role ∈ l)) targets = true
  <-> exists t, t ∈ targets /\ t ∈ l.
Proof.
  rewrite existsb_exists. split.
  - intros (t & Ht%list_elem_of_In & Hl%bool_decide_eq_true). eauto.
  - intros (t & Ht & Hl). exists t. split; [by apply list_elem_of_In |].
    by apply bool_decide_eq_true.
Qed.

Lemma forallb_elem (l targets : list string) :
  forallb (fun role => bool_decide (role ∈ l)) targets = true
  <-> forall t, t ∈ targets -> t ∈ l.
Proof.
  rewrite forallb_forall. split.
  - intros H t Ht%list_elem_of_In. by eapply bool_decide_eq_true_1, H.
  - intros H t Ht%list_elem_of_In. by apply bool_decide_eq_true_2, H.
Qed.

(** X3: the three role checks agree with one another: [hasAnyInternalRole]
    holds exactly if [hasInternalRole] holds for one of the targets,
    [hasAllInternalRoles] exactly if it holds for each of them; so no
    target gives "any" false and "all" true, and "all" of a non-empty
    list implies "any".  In mock mode the user is the administrator. *)
Theorem role_checks_agree (mock : bool) (keycloakRoles targets : list string)
    (this : RolesService) :
  (hasAnyInternalRole mock keycloakRoles targets this = true <->
   exists t, t ∈ targets /\ hasInternalRole mock keycloakRoles t this = true) /\
  (hasAllInternalRoles mock keycloakRoles targets this = true <->
   forall t, t ∈ targets -> hasInternalRole mock keycloakRoles t this = true) /\
  hasAnyInternalRole mock keycloakRoles [] this = false /\
  hasAllInternalRoles mock keycloakRoles [] this = true /\
  (targets <> [] -> hasAllInternalRoles mock keycloakRoles targets this = true ->
   hasAnyInternalRole mock keycloakRoles targets this = true) /\
  (isAdmin mock keycloakRoles this = true ->
   isAdminOrSystem mock keycloakRoles this = true) /\
  isAdmin true keycloakRoles this = true.
Proof.
  assert (Hany : forall ts,
             hasAnyInternalRole mock keycloakRoles ts this = true <->
             exists t, t ∈ ts /\ hasInternalRole mock keycloakRoles t this = true).
  { intros ts. unfold hasAnyInternalRole, hasInternalRole. rewrite existsb_elem.
    split; intros (t & Ht & Hin); exists t; split; try done.
    - by apply bool_decide_eq_true_2.
    - by apply bool_decide_eq_true_1 in Hin. }
  assert (Hall : forall ts,
             hasAllInternalRoles mock keycloakRoles ts this = true <->
             forall t, t ∈ ts -> hasInternalRole mock keycloakRoles t this = true).
  { intros ts. unfold hasAllInternalRoles, hasInternalRole. rewrite forallb_elem.
    split; intros H t Ht.
    - by apply bool_decide_eq_true_2, H.
    - specialize (H t Ht). by apply bool_decide_eq_true_1 in H. }
  split_and!; [apply Hany | apply Hall | reflexivity | reflexivity | | |].
  - intros Hne Hallt. apply Hany. destruct targets as [| t ts]; [done |].
    exists t. split; [apply list_elem_of_here |].
    apply (proj1 (Hall (t :: ts)) Hallt), list_elem_of_here.
  - intros Hadmin. unfold isAdmin in Hadmin. unfold isAdminOrSystem.
    apply Hany. exists (ADMIN_ROLE this). split; [apply list_elem_of_here | done].
  - unfold isAdmin, hasInternalRole. simpl. apply bool_decide_eq_true_2.
    apply list_elem_of_here.
Qed.

Lemma role_checks_agree_witness :
  hasAnyInternalRole false ["kc-user"] ["dashboard"; "offerte"] indexed_service = true.
Proof.
  apply (proj1 (role_checks_agree false ["kc-user"] ["dashboard"; "offerte"]
                  indexed_service)).
  exists "offerte". split; [apply list_elem_of_further, list_elem_of_here |].
  vm_compute. reflexivity.
Defined.

(** ** Route access *)

Lemma prefix_same_length (a b p : string) :
  String.prefix a p = true -> String.prefix b p = true ->
  String.length a = String.length b -> a = b.
Proof.
  revert a b. induction p as [| c p IH]; intros a b Ha Hb Hlen.
  - destruct a, b; simpl in *; done.
  - destruct a as [| x a], b as [| y b]; simpl in *; try done.
    destruct (ascii_dec x c) as [-> |]; [| done].
    destruct (ascii_dec y c) as [-> |]; [| done].
    f_equal. apply IH; [done | done | lia].
Qed.

(** The loop keeps a matching entry of maximal length. *)
Lemma longest_fold_spec (routePath : string) (l : list (string * list string))
    (acc : list string * string) :
  let r := foldl (fun acc entry =>
                    if startsWith routePath entry.1
                       && (String.length acc.2 <? String.length entry.1)%nat
                    then (entry.2, entry.1) else acc) acc l in
  (r = acc \/ ((r.2, r.1) ∈ l /\ startsWith routePath r.2 = true)) /\
  (String.length acc.2 <= String.length r.2)%nat /\
  (forall entry, entry ∈ l -> startsWith routePath entry.1 = true ->
                 (String.length entry.1 <= String.length r.2)%nat).
Proof.
  revert acc. induction l as [| e l IH]; intros acc; simpl.
  - split_and!; [by left | done | intros ? ?%elem_of_nil; done].
  - set (acc' := if startsWith routePath e.1
                    && (String.length acc.2 <? String.length e.1)%nat
                 then (e.2, e.1) else acc).
    destruct (IH acc') as (Hin & Hlen & Hmax).
    assert (String.length acc.2 <= String.length acc'.2)%nat as Hacc.
    { subst acc'. destruct (startsWith routePath e.1); simpl; [| done].
      destruct (String.length acc.2 <? String.length e.1)%nat eqn:Hlt; simpl; [| done].
      apply Nat.ltb_lt in Hlt. lia. }
    split_and!.
    + destruct Hin as [Heq | [Hin Hpre]].
      * rewrite Heq. subst acc'.
        destruct (startsWith routePath e.1) eqn:Hpre; simpl; [| by left].
        destruct (String.length acc.2 <? String.length e.1)%nat; simpl; [| by left].
        right. split; [| done]. destruct e. apply list_elem_of_here.
      * right. split; [by apply list_elem_of_further | done].
    + lia.
    + intros entry [-> | Hentry]%elem_of_cons Hpre; [| by apply Hmax].
      etrans; [| exact Hlen]. subst acc'. rewrite Hpre. simpl.
      destruct (String.length acc.2 <? String.length e.1)%nat eqn:Hlt; simpl; [done |].
      apply Nat.ltb_ge in Hlt. done.
Qed.

(** X4: [checkRouteAccess] decides by the longest route of the mapping that
    is a prefix of the path: when that route requires no role, or when no
    non-empty route matches at all, access is granted; otherwise access
    is what [hasAnyInternalRole] says for the roles of that route. *)
Theorem checkRouteAccess_longest_prefix (mappings : list (string * list string))
    (mock : bool) (keycloakRoles : list string) (routePath : string)
    (this : RolesService) :
  ((forall entry, entry ∈ mappings -> startsWith routePath entry.1 = true ->
                  entry.1 = "") ->
   checkRouteAccess mappings mock keycloakRoles routePath this = true) /\
  (forall route requiredRoles,
      NoDup mappings.*1 ->
      (route, requiredRoles) ∈ mappings ->
      route <> "" ->
      startsWith routePath route = true ->
      (forall entry, entry ∈ mappings -> startsWith routePath entry.1 = true ->
                     (String.length entry.1 <= String.length route)%nat) ->
      checkRouteAccess mappings mock keycloakRoles routePath this
      = match requiredRoles with
        | [] => true
        | _ => hasAnyInternalRole mock keycloakRoles requiredRoles this
        end).
Proof.
  unfold checkRouteAccess, longest_match.
  destruct (longest_fold_spec routePath mappings ([], "")) as (Hin & _ & Hmax).
  cbv zeta in Hin, Hmax. split.
  - intros Hnone. clear Hin Hmax.
    assert (forall (l : list (string * list string)) (acc : list string * string),
              acc.2 = "" ->
              (forall entry, entry ∈ l -> startsWith routePath entry.1 = true ->
                             entry.1 = "") ->
              foldl (fun acc entry =>
                       if startsWith routePath entry.1
                          && (String.length acc.2 <? String.length entry.1)%nat
                       then (entry.2, entry.1) else acc) acc l = acc) as Hkeep.
    { induction l as [| e l IHl]; intros acc Hacc2 Hl; simpl; [done |].
      destruct (startsWith routePath e.1) eqn:Hpe; simpl.
      - rewrite (Hl e (list_elem_of_here _ _) Hpe), Hacc2. simpl.
        apply IHl; [done |]. intros entry He. apply Hl.
        by apply list_elem_of_further.
      - apply IHl; [done |]. intros entry He. apply Hl.
        by apply list_elem_of_further. }
    by rewrite Hkeep.
  - intros route requiredRoles Hnodup Hentry Hne Hpre Hlongest.
    pose proof (Hmax _ Hentry Hpre) as Hle. simpl in Hle.
    destruct Hin as [Heq | [Hin Hpre']].
    + rewrite Heq in Hle. simpl in Hle. destruct route; [done | simpl in Hle; lia].
    + pose proof (Hlongest _ Hin Hpre') as Hge. simpl in Hge.
      revert Hin Hpre' Hle Hge.
      generalize (foldl (fun acc entry =>
                           if startsWith routePath entry.1
                              && (String.length acc.2 <? String.length entry.1)%nat
                           then (entry.2, entry.1) else acc) ([], "") mappings).
      intros [roles route'] Hin Hpre' Hle Hge. simpl in *.
      assert (route' = route) as ->.
      { apply (prefix_same_length _ _ routePath);
          [exact Hpre' | exact Hpre | by apply Nat.le_antisymm]. }
      assert (roles = requiredRoles) as ->; [| by destruct requiredRoles].
      apply (elem_of_list_to_map_1 (M := gmap string)) in Hin, Hentry; try done.
      congruence.
Qed.

Lemma checkRouteAccess_longest_prefix_witness :
  checkRouteAccess sample_mappings false ["kc-user"] "/admin/users/7" indexed_service
  = hasAnyInternalRole false ["kc-user"] ["admin"; "offerte"] indexed_service.
Proof.
  apply (proj2 (checkRouteAccess_longest_prefix sample_mappings false ["kc-user"]
                  "/admin/users/7" indexed_service) "/admin/users" ["admin"; "offerte"]).
  - apply (bool_decide_unpack _). vm_compute. reflexivity.
  - unfold sample_mappings. do 2 apply list_elem_of_further. apply list_elem_of_here.
  - discriminate.
  - reflexivity.
  - intros entry Hin _. unfold sample_mappings in Hin.
    repeat (apply elem_of_cons in Hin as [-> | Hin]; [simpl; lia |]).
    by apply elem_of_nil in Hin.
Defined.
End role_checks.

(* ===================================================================== *)
(** * Further properties of role loading *)
(* ===================================================================== *)

Section role_states.
Import RolesService.
Variable storage_accepts : list InternalRole -> bool.

Lemma next_loading_waits (b : bool) (this : RolesService) :
  pending_waits this -> pending_waits (next_loading b this).
Proof.
  unfold pending_waits. intros H. destruct b; simpl; [done |].
  intros (p & Hp & _)%list_elem_of_fmap. by destruct p.
Qed.

Lemma next_loading_length (b : bool) (this : RolesService) :
  length (promises (next_loading b this)) = length (promises this).
Proof. destruct b; simpl; [done | apply length_fmap]. Qed.

Lemma fetchRoleMappings_follows (o : FetchOutcome) (this : RolesService) :
  promises (fetchRoleMappings storage_accepts o this).1 = promises this /\
  isLoadingMappingsSubject (fetchRoleMappings storage_accepts o this).1
  = isLoadingMappingsSubject this /\
  orphaned (fetchRoleMappings storage_accepts o this).1 = orphaned this /\
  internalRolesCache (fetchRoleMappings storage_accepts o this).1
  = internalRolesCache this.
Proof.
  destruct o as [roles | |]; simpl; try done.
  unfold saveRolesToStorage. by destruct (storage_accepts roles).
Qed.

Lemma loadRoleMappings_waits (this : RolesService) :
  pending_waits this -> pending_waits (loadRoleMappings this).
Proof.
  intros H. unfold loadRoleMappings. destruct (internalRolesCache this); [done |].
  by apply (next_loading_waits true) in H.
Qed.

Lemma loadRoleMappings_length (this : RolesService) :
  length (promises (loadRoleMappings this)) = length (promises this).
Proof. unfold loadRoleMappings. by destruct (internalRolesCache this). Qed.

Lemma initializeRoles_waits (this : RolesService) :
  pending_waits this -> pending_waits (initializeRoles this).
Proof.
  intros H. unfold initializeRoles, loadRolesFromStorage. simpl.
  destruct (storedRoles this) as [[| r rs] |].
  - apply loadRoleMappings_waits. by apply (next_loading_waits true) in H.
  - unfold pending_waits. simpl. intros (p & Hp & _)%list_elem_of_fmap. by destruct p.
  - apply loadRoleMappings_waits. by apply (next_loading_waits true) in H.
Qed.

Lemma initializeRoles_length (this : RolesService) :
  length (promises (initializeRoles this)) = length (promises this).
Proof.
  unfold initializeRoles, loadRolesFromStorage. simpl.
  destruct (storedRoles this) as [[| r rs] |]; simpl;
    rewrite ?loadRoleMappings_length, ?length_fmap; done.
Qed.

Lemma settle_resolves (o : FetchOutcome) (this : RolesService) :
  (internalRolesCache this = Some InFlight ->
   (Pending ∉ promises (fetch_settles storage_accepts o this)) /\
   isLoadingMappingsSubject (fetch_settles storage_accepts o this) = false) /\
  (orphaned this <> 0%nat ->
   (Pending ∉ promises (orphan_settles storage_accepts o this)) /\
   isLoadingMappingsSubject (orphan_settles storage_accepts o this) = false).
Proof.
  split.
  - intros Hstream. unfold fetch_settles. rewrite Hstream.
    destruct (fetchRoleMappings storage_accepts o this) as [this1 stream]. simpl.
    split; [| done]. intros (p & Hp & _)%list_elem_of_fmap. by destruct p.
  - intros Horphan. unfold orphan_settles.
    destruct (orphaned this) as [| n]; [done |].
    destruct (fetchRoleMappings storage_accepts o this) as [this1 stream]. simpl.
    split; [| done]. intros (p & Hp & _)%list_elem_of_fmap. by destruct p.
Qed.

Lemma step_waits (e : Event) (this : RolesService) :
  pending_waits this -> pending_waits (step storage_accepts this e).
Proof.
  intros H. destruct e as [| | | o | o]; simpl.
  - unfold ensureRolesLoaded.
    set (this1 := if initialized this then this
                  else initializeRoles (set_initialized this)).
    assert (pending_waits this1) as H1.
    { subst this1. destruct (initialized this); [done |].
      by apply initializeRoles_waits. }
    unfold pending_waits in *. simpl.
    destruct (isLoadingMappingsSubject this1); [done |].
    intros [Hin | Hin%list_elem_of_singleton]%elem_of_app; [by apply H1 | done].
  - unfold getAvailableInternalRoles.
    destruct (internalRolesCache this) eqn:Hc; [done |].
    by apply loadRoleMappings_waits.
  - unfold clearCache. cbv zeta. by apply loadRoleMappings_waits.
  - destruct (internalRolesCache this) as [[| |] |] eqn:Hstream;
      try (unfold fetch_settles; by rewrite Hstream).
    intros Hpending. by destruct (proj1 (settle_resolves o this) Hstream).
  - destruct (orphaned this) as [| n] eqn:Horphan;
      [unfold orphan_settles; by rewrite Horphan |].
    intros Hpending.
    destruct (proj2 (settle_resolves o this)) as [Hnone _]; [by rewrite Horphan | done].
Qed.

Lemma step_length (e : Event) (this : RolesService) :
  length (promises (step storage_accepts this e))
  = (length (promises this) + ensure_calls [e])%nat.
Proof.
  destruct e as [| | | o | o]; simpl; unfold ensure_calls; simpl.
  - unfold ensureRolesLoaded. simpl. rewrite length_app. simpl.
    destruct (initialized this); [done |].
    by rewrite initializeRoles_length.
  - unfold getAvailableInternalRoles.
    destruct (internalRolesCache this) eqn:Hc; [lia |].
    rewrite loadRoleMappings_length. lia.
  - unfold clearCache. cbv zeta. rewrite ?loadRoleMappings_length. simpl. lia.
  - unfold fetch_settles. destruct (internalRolesCache this) as [[| |] |]; try lia.
    destruct (fetchRoleMappings_follows o this) as (Hp & _).
    destruct (fetchRoleMappings storage_accepts o this) as [this1 stream].
    simpl in *. rewrite length_fmap, Hp. lia.
  - unfold orphan_settles. destruct (orphaned this) as [| n]; [lia |].
    destruct (fetchRoleMappings_follows o this) as (Hp & _).
    destruct (fetchRoleMappings storage_accepts o this) as [this1 stream].
    simpl in *. rewrite length_fmap, Hp. lia.
Qed.

(** X5: for a session entry that is absent or a role list, as the
    service itself writes it: whatever is called on the service and
    however the fetches end, the service holds one promise for each call
    of [ensureRolesLoaded], and a promise is pending only while the
    loading flag is set: whenever the flag is cleared, no promise
    returned so far is still pending.  In particular a fetch that
    settles, be it the one of the current stream or one that was
    dropped, leaves no promise pending. *)
Theorem promises_follow_loading_flag (admin system : string)
    (stored : option (list InternalRole)) (events : list Event) :
  let this := run storage_accepts events (constructor admin system stored) in
  length (promises this) = ensure_calls events /\
  (Pending ∈ promises this -> isLoadingMappingsSubject this = true) /\
  (isLoadingMappingsSubject this = false -> Pending ∉ promises this) /\
  (forall o, internalRolesCache this = Some InFlight ->
             Pending ∉ promises (fetch_settles storage_accepts o this)) /\
  (forall o, orphaned this <> 0%nat ->
             Pending ∉ promises (orphan_settles storage_accepts o this)).
Proof.
  intros this.
  assert (pending_waits this /\ length (promises this) = ensure_calls events)
    as [Hwaits Hlength].
  { subst this. unfold run.
    assert (pending_waits (constructor admin system stored)) as Hinit
        by (by intros ?%elem_of_nil).
    replace (ensure_calls events)
      with (length (promises (constructor admin system stored))
            + ensure_calls events)%nat by done.
    revert Hinit. generalize (constructor admin system stored).
    induction events as [| e events IH]; intros s Hs; simpl.
    - split; [done |]. unfold ensure_calls. simpl. lia.
    - destruct (IH (step storage_accepts s e)) as [Hw Hl]; [by apply step_waits |].
      split; [done |]. rewrite Hl, step_length.
      unfold ensure_calls. simpl. destruct e; simpl; lia. }
  split_and!; [done | done | | |].
  - intros Hflag Hpending. apply Hwaits in Hpending. congruence.
  - intros o Hstream. by apply settle_resolves.
  - intros o Horphan. by apply settle_resolves.
Qed.

Lemma mapped_roles_empty_cache (keycloakRoles : list string) (this : RolesService) :
  roleMappingCache this = ∅ ->
  (mapKeycloakRolesToInternalRoles false keycloakRoles this).2 = [].
Proof.
  intros Hempty. unfold mapKeycloakRolesToInternalRoles. simpl.
  destruct keycloakRoles as [| k ks]; [done |]. rewrite Hempty.
  generalize (k :: ks). intros l. induction l as [| x l IH]; [done |].
  simpl. unfold add_mapped at 2. by rewrite lookup_empty.
Qed.

(** X6: when the first load of a service without cached roles fails, the
    stream replays the fallback role (named as the admin role), but the
    reverse index stays empty: outside mock mode no list of provider roles
    maps to any internal role, and nobody is administrator. *)
Theorem failed_fetch_grants_no_role (admin system : string)
    (stored : option (list InternalRole)) (keycloakRoles : list string) :
  (stored = None \/ stored = Some []) ->
  let this := fetch_settles storage_accepts FetchErrors
                (ensureRolesLoaded (constructor admin system stored)) in
  internalRolesCache this = Some (Replays (getFallbackRoles this)) /\
  name <$> getFallbackRoles this = [ADMIN_ROLE this] /\
  (mapKeycloakRolesToInternalRoles false keycloakRoles this).2 = [] /\
  isAdmin false keycloakRoles this = false /\
  isAdminOrSystem false keycloakRoles this = false.
Proof.
  intros Hstored this.
  assert (roleMappingCache this = ∅ /\
          internalRolesCache this = Some (Replays (getFallbackRoles this)))
    as [Hcache Hstream].
  { subst this. by destruct Hstored as [-> | ->]. }
  pose proof (mapped_roles_empty_cache keycloakRoles this Hcache) as Hmap.
  split_and!; [done | done | done | |].
  - unfold isAdmin, hasInternalRole. rewrite Hmap.
    apply bool_decide_eq_false_2. by intros ?%elem_of_nil.
  - unfold isAdminOrSystem, hasAnyInternalRole. by rewrite Hmap.
Qed.

(** X7: a fetch that [clearCache] has dropped still acts on the service
    when it settles.  If it settles first, it clears the loading flag
    while the fetch of the new stream is still in flight; if it settles
    last with roles, the reverse index is built from its roles, not from
    the roles the current stream replays. *)
Theorem clearCache_dropped_fetch_settles (this : RolesService)
    (o : FetchOutcome) (old new : list InternalRole) :
  internalRolesCache this = Some InFlight ->
  let cleared := clearCache this in
  let early := orphan_settles storage_accepts o cleared in
  let late := orphan_settles storage_accepts (FetchEmits old)
                (fetch_settles storage_accepts (FetchEmits new) cleared) in
  (roleMappingCache cleared = ∅ /\
   internalRolesCache cleared = Some InFlight /\
   isLoadingMappingsSubject cleared = true) /\
  (isLoadingMappingsSubject early = false /\
   internalRolesCache early = Some InFlight /\
   (Pending ∉ promises early)) /\
  (internalRolesCache late = Some (Replays new) /\
   roleMappingCache late = index_roles old).
Proof.
  intros Hstream cleared early late.
  assert (internalRolesCache cleared = Some InFlight /\
          orphaned cleared = S (orphaned this) /\
          roleMappingCache cleared = ∅ /\
          isLoadingMappingsSubject cleared = true) as (Hc & Ho & Hm & Hl).
  { subst cleared. unfold clearCache. rewrite Hstream. done. }
  clearbody cleared. split_and!; try done.
  - subst early. unfold orphan_settles. rewrite Ho.
    by destruct (fetchRoleMappings storage_accepts o cleared).
  - subst early. unfold orphan_settles. rewrite Ho.
    destruct (fetchRoleMappings_follows o cleared) as (_ & _ & _ & Hs).
    destruct (fetchRoleMappings storage_accepts o cleared). simpl in *. congruence.
  - subst early. unfold orphan_settles. rewrite Ho.
    destruct (fetchRoleMappings storage_accepts o cleared). simpl.
    intros (p & Hp & _)%list_elem_of_fmap. by destruct p.
  - subst late. unfold fetch_settles. rewrite Hc. simpl.
    unfold orphan_settles, saveRolesToStorage.
    destruct (storage_accepts new); simpl; rewrite Ho; simpl;
      unfold saveRolesToStorage; by destruct (storage_accepts old).
  - subst late. unfold fetch_settles. rewrite Hc. simpl.
    unfold orphan_settles, saveRolesToStorage.
    destruct (storage_accepts new); simpl; rewrite Ho; simpl;
      unfold saveRolesToStorage; by destruct (storage_accepts old).
Qed.

(** X8: the roles that a fetch delivers, once the session storage has
    taken them, bring a service constructed later over that storage to
    the same reverse index and the same replayed roles, without a fetch:
    its first [ensureRolesLoaded] returns a resolved promise. *)
Theorem roles_restored_from_session (admin system : string)
    (stored : option (list InternalRole)) (roles : list InternalRole) :
  roles <> [] ->
  storage_accepts roles = true ->
  let this := fetch_settles storage_accepts (FetchEmits roles)
                (ensureRolesLoaded (constructor admin system stored)) in
  let restored := ensureRolesLoaded (constructor admin system (storedRoles this)) in
  roleMappingCache restored = roleMappingCache this /\
  internalRolesCache restored = internalRolesCache this /\
  isLoadingMappingsSubject restored = false /\
  promises restored = [Resolved].
Proof.
  intros Hne Hacc this restored. subst this restored.
  destruct stored as [[| r rs] |]; unfold ensureRolesLoaded, fetch_settles; simpl;
    unfold saveRolesToStorage; simpl; rewrite ?Hacc; simpl;
    try (destruct roles as [| r' rs']; [done |]); done.
Qed.
End role_states.

Lemma promises_follow_loading_flag_witness :
  RolesService.Pending ∉
    RolesService.promises
      (RolesService.run (fun _ => true)
         [RolesService.CallGetAvailableInternalRoles;
          RolesService.CallEnsureRolesLoaded;
          RolesService.CallEnsureRolesLoaded]
         (RolesService.constructor "admin" "system" (Some [offerte_role]))).
Proof.
  apply (promises_follow_loading_flag (fun _ => true) "admin" "system"
           (Some [offerte_role])
           [RolesService.CallGetAvailableInternalRoles;
            RolesService.CallEnsureRolesLoaded;
            RolesService.CallEnsureRolesLoaded]).
  reflexivity.
Defined.

(** A fetch started by [getAvailableInternalRoles] and dropped when
    [ensureRolesLoaded] finds cached roles still rebuilds the reverse
    index and rewrites the session entry when it settles. *)
Example initializeRoles_drops_fetch :
  let this :=
    RolesService.run (fun _ => true)
      [RolesService.CallGetAvailableInternalRoles;
       RolesService.CallEnsureRolesLoaded;
       RolesService.OrphanSettles (RolesService.FetchEmits [admin_role])]
      (RolesService.constructor "admin" "system" (Some [offerte_role])) in
  RolesService.internalRolesCache this
  = Some (RolesService.Replays [offerte_role]) /\
  RolesService.roleMappingCache this = RolesService.index_roles [admin_role] /\
  RolesService.storedRoles this = Some [admin_role] /\
  RolesService.promises this = [RolesService.Resolved].
Proof. vm_compute. split_and!; reflexivity. Qed.

Lemma failed_fetch_grants_no_role_witness :
  RolesService.isAdmin false ["kc-admin"]
    (RolesService.fetch_settles (fun _ => true) RolesService.FetchErrors
       (RolesService.ensureRolesLoaded (RolesService.constructor "admin" "system" None)))
  = false.
Proof.
  apply (failed_fetch_grants_no_role (fun _ => true) "admin" "system" None ["kc-admin"]).
  by left.
Defined.

Lemma clearCache_dropped_fetch_settles_witness :
  RolesService.roleMappingCache
    (RolesService.orphan_settles (fun _ => true) (RolesService.FetchEmits [admin_role])
       (RolesService.fetch_settles (fun _ => true) (RolesService.FetchEmits [offerte_role])
          (RolesService.clearCache
             (RolesService.ensureRolesLoaded
                (RolesService.constructor "admin" "system" None)))))
  = RolesService.index_roles [admin_role].
Proof.
  apply (clearCache_dropped_fetch_settles (fun _ => true)
           (RolesService.ensureRolesLoaded
              (RolesService.constructor "admin" "system" None))
           RolesService.FetchErrors [admin_role] [offerte_role]).
  reflexivity.
Defined.

Lemma roles_restored_from_session_witness :
  RolesService.promises
    (RolesService.ensureRolesLoaded
       (RolesService.constructor "admin" "system"
          (RolesService.storedRoles
             (RolesService.fetch_settles (fun _ => true)
                (RolesService.FetchEmits [offerte_role])
                (RolesService.ensureRolesLoaded
                   (RolesService.constructor "admin" "system" None))))))
  = [RolesService.Resolved].
Proof.
  apply (roles_restored_from_session (fun _ => true) "admin" "system" None [offerte_role]);
    [discriminate | reflexivity].
Defined.

(* ===================================================================== *)
(** * Further properties of the role guard *)
(* ===================================================================== *)

Section guard_decisions.
Import RoleGuard.

(** X9: when [canActivate] waits and when it grants access.  It waits
    exactly outside mock mode while the role mappings are loading.  It
    grants access exactly if the route data check grants it and, outside
    mock mode, the user has a provider role and the route mapping grants
    access too; in mock mode the route mapping, the loading flag and the
    reverse index are not looked at. *)
Theorem canActivate_decides (mappings : list (string * list string))
    (data : RoleRouteData) (routePath : string) (stage : Stage.Stage)
    (authRoles : list string) (rolesService : RolesService.RolesService) :
  let adminRole := RolesService.ADMIN_ROLE rolesService in
  let result := canActivate mappings data routePath stage authRoles rolesService in
  (result = None <->
   stage <> Stage.MOCK /\
   RolesService.isLoadingMappingsSubject rolesService = true) /\
  (result = Some Allow <->
   checkRouteDataRoles data stage adminRole authRoles = Allow /\
   (stage = Stage.MOCK \/
    (RolesService.isLoadingMappingsSubject rolesService = false /\
     authRoles <> [] /\
     RolesService.checkRouteAccess mappings false authRoles routePath rolesService
     = true))).
Proof.
  intros adminRole result. subst adminRole result. unfold canActivate.
  case_bool_decide as Hstage.
  - split; [split; [done | by intros [? _]] |].
    split; [intros [= ->]; auto | by intros [-> _]].
  - destruct (RolesService.isLoadingMappingsSubject rolesService).
    + split; [done |]. split; [done |]. by intros [_ [? | [? _]]].
    + split.
      { split; [| by intros [_ ?]].
        destruct authRoles as [| a authRoles]; [done |].
        destruct (checkRouteDataRoles data stage _ (a :: authRoles)); [| done].
        by destruct (RolesService.checkRouteAccess mappings false (a :: authRoles)
                       routePath rolesService). }
      destruct authRoles as [| a authRoles].
      * split; [done | by intros [_ [? | (_ & ? & _)]]].
      * destruct (checkRouteDataRoles data stage _ (a :: authRoles)) eqn:Hdata.
        -- destruct (RolesService.checkRouteAccess mappings false (a :: authRoles)
                       routePath rolesService).
           ++ split; [| done]. intros _. split; [done |]. right. by split_and!.
           ++ split; [done |]. by intros [_ [? | (_ & _ & ?)]].
        -- split; [done |]. by intros [? _].
Qed.

(** X10: in every stage, a user who holds a role that the route data
    excludes is never let in: the guard either still waits for the role
    mappings or redirects to the dashboard with the reason
    'excluded-role', whatever the other role sets and the route mapping
    say. *)
Theorem canActivate_excluded_role (mappings : list (string * list string))
    (data : RoleRouteData) (routePath : string) (stage : Stage.Stage)
    (authRoles : list string) (rolesService : RolesService.RolesService)
    (ex : list string) (role : string) :
  excludeRoles data = Some ex ->
  role ∈ ex ->
  role ∈ authRoles ->
  canActivate mappings data routePath stage authRoles rolesService = None \/
  canActivate mappings data routePath stage authRoles rolesService
  = Some (denied "excluded-role").
Proof.
  intros Hex Hrole Hauth.
  assert (checkRouteDataRoles data stage (RolesService.ADMIN_ROLE rolesService)
            authRoles = denied "excluded-role") as Hdata.
  { rewrite checkRouteDataRoles_chain. cbv zeta.
    replace (holds_excluded data _) with true; [done |].
    symmetry. apply holds_excluded_spec. exists ex, role. split_and!; [done | done |].
    unfold effective_roles. case_bool_decide; [by apply list_elem_of_further | done]. }
  unfold canActivate. rewrite Hdata.
  case_bool_decide; [by right |].
  destruct (RolesService.isLoadingMappingsSubject rolesService); [by left |].
  destruct authRoles as [| a authRoles]; [by apply elem_of_nil in Hauth |].
  by right.
Qed.
End guard_decisions.

Lemma canActivate_decides_witness :
  RoleGuard.canActivate sample_mappings
    {| RoleGuard.roles := Some ["kc-user"]; RoleGuard.allRoles := None;
       RoleGuard.excludeRoles := None |}
    "/offers/12" Stage.PROD ["kc-user"] loaded_service
  = Some RoleGuard.Allow.
Proof.
  apply (canActivate_decides sample_mappings
           {| RoleGuard.roles := Some ["kc-user"]; RoleGuard.allRoles := None;
              RoleGuard.excludeRoles := None |}
           "/offers/12" Stage.PROD ["kc-user"] loaded_service).
  split; [reflexivity |]. right. split; [reflexivity |]. split; [discriminate |].
  reflexivity.
Defined.

Lemma canActivate_excluded_role_witness :
  RoleGuard.canActivate sample_mappings mixed_route "/offers/12" Stage.PROD
    ["viewer"; "guest"] loaded_service
  = Some (RoleGuard.denied "excluded-role").
Proof.
  destruct (canActivate_excluded_role sample_mappings mixed_route "/offers/12"
              Stage.PROD ["viewer"; "guest"] loaded_service ["guest"] "guest"
              eq_refl (list_elem_of_here _ _)
              (list_elem_of_further _ _ _ (list_elem_of_here _ _))) as [H | H].
  - discriminate H.
  - exact H.
Defined.

(* ===================================================================== *)
(** * Further properties of the interceptors *)
(* ===================================================================== *)

Section request_interceptors.
Import Interceptors.

Lemma prefix_app (p a b : string) :
  String.prefix p a = true -> String.prefix p (a +:+ b) = true.
Proof.
  revert a. induction p as [| c p IH]; intros a H; [by destruct (a +:+ b) |].
  destruct a as [| x a]; [done |].
  change (String x a +:+ b) with (String x (a +:+ b)). simpl in *.
  destruct (ascii_dec c x); [by apply IH | done].
Qed.

Lemma request_eta (request : HttpRequest) :
  {| url := url request; headers := headers request |} = request.
Proof. by destruct request. Qed.

(** X11: what [apiUrlInterceptor] does to a request.  The headers are
    kept.  With the empty base URL (proxy mode) every request is handed
    on as it is.  With a non-empty base URL a URL [/api] followed by
    [rest] becomes the base URL followed by [rest].  With a base URL that
    starts with [http] the interceptor changes a request at most once:
    what it hands on, it would hand on unchanged. *)
Theorem apiUrlInterceptor_rewrites (baseUrl : string) (request : HttpRequest) :
  headers (apiUrlInterceptor baseUrl request) = headers request /\
  apiUrlInterceptor "" request = request /\
  (forall rest, baseUrl <> "" -> url request = "/api" +:+ rest ->
                url (apiUrlInterceptor baseUrl request) = baseUrl +:+ rest) /\
  (startsWith baseUrl "http" = true ->
   apiUrlInterceptor baseUrl (apiUrlInterceptor baseUrl request)
   = apiUrlInterceptor baseUrl request).
Proof.
  split_and!.
  - unfold apiUrlInterceptor. by destruct (_ || _).
  - unfold apiUrlInterceptor. destruct (_ || _); [done |]. simpl. apply request_eta.
  - intros rest Hbase Hurl. unfold apiUrlInterceptor. rewrite Hurl. simpl.
    rewrite bool_decide_eq_false_2 by done.
    change ("" +:+ rest) with rest. unfold startsWith. by destruct rest.
  - intros Hbase. unfold apiUrlInterceptor at 2.
    destruct (startsWith (url request) "./assets/" || startsWith (url request) "http")
      eqn:Hskip.
    + unfold apiUrlInterceptor. by rewrite Hskip.
    + unfold apiUrlInterceptor. cbn [url].
      replace (startsWith (baseUrl +:+ _) "http") with true;
        [by rewrite orb_true_r, ?Hskip |].
      symmetry. by apply prefix_app.
Qed.

(** X12: a request that [apiUrlInterceptor] has put on a base URL starting
    with [http://] or [https://] is one that the envelope interceptor
    skips: its responses are handed on as they are, and no service is
    touched. *)
Theorem apiInterceptor_after_apiUrlInterceptor (baseUrl : string)
    (request : HttpRequest) (event : HttpEvent) (w : Services) :
  startsWith baseUrl "http://" = true \/ startsWith baseUrl "https://" = true ->
  startsWith (url request) "./assets/" = false ->
  startsWith (url request) "http" = false ->
  apiInterceptor (apiUrlInterceptor baseUrl request) event w = (w, Some event).
Proof.
  intros Hbase Hassets Hhttp. unfold apiInterceptor.
  replace (skipped (apiUrlInterceptor baseUrl request)) with true; [done |].
  symmetry. unfold skipped, apiUrlInterceptor. rewrite Hassets, Hhttp. cbn [orb url].
  apply orb_true_iff. destruct Hbase as [H | H].
  - left. apply orb_true_iff. right. by apply prefix_app.
  - right. by apply prefix_app.
Qed.

Lemma find_filter_implied {A} (P Q : A -> bool) (l : list A) :
  (forall x, P x = true -> Q x = true) ->
  List.find P (List.filter Q l) = List.find P l.
Proof.
  intros HPQ. induction l as [| x l IH]; [done |]. simpl.
  destruct (Q x) eqn:HQ; simpl.
  - destruct (P x); [done | exact IH].
  - destruct (P x) eqn:HP; [| exact IH]. apply HPQ in HP. congruence.
Qed.

Lemma find_filter_negated {A} (P : A -> bool) (l : list A) :
  List.find P (List.filter (fun x => negb (P x)) l) = None.
Proof.
  induction l as [| x l IH]; [done |]. simpl.
  destruct (P x) eqn:HP; simpl; [exact IH |]. by rewrite HP.
Qed.

Lemma find_app {A} (P : A -> bool) (l1 l2 : list A) :
  List.find P (l1 ++ l2)
  = match List.find P l1 with Some x => Some x | None => List.find P l2 end.
Proof.
  induction l1 as [| x l1 IH]; [done |]. simpl. by destruct (P x).
Qed.

Lemma headers_get_set (name value : string) (hs : list (string * string))
    (other : string) :
  headers_get other (headers_set name value hs)
  = if bool_decide (toLowerCase other = toLowerCase name) then Some value
    else headers_get other hs.
Proof.
  unfold headers_get, headers_set. rewrite find_app.
  case_bool_decide as Hsame.
  - rewrite Hsame. rewrite find_filter_negated. simpl.
    by rewrite bool_decide_eq_true_2.
  - rewrite find_filter_implied.
    + destruct (List.find _ hs); [done |]. simpl.
      rewrite bool_decide_eq_false_2; [done |]. congruence.
    + intros h Hh%bool_decide_eq_true_1. apply negb_true_iff.
      apply bool_decide_eq_false_2. congruence.
Qed.

(** X13: [authInterceptor] never changes the URL nor a header other than
    [Authorization].  It hands the request on as it is in mock mode, for
    a URL under [/assets/], for a URL ending in [.json], for a URL of the
    configured Keycloak server, and when there is no token; in every
    other case the request it hands on carries the header
    [Authorization: Bearer <token>]. *)
Theorem authInterceptor_token (stage : Stage.Stage) (keycloakUrl token : string)
    (request : HttpRequest) :
  let sent := authInterceptor stage keycloakUrl token request in
  url sent = url request /\
  (forall name, ~ same_header name "Authorization" ->
                headers_get name (headers sent) = headers_get name (headers request)) /\
  (stage = Stage.MOCK \/ token = "" \/ without_token keycloakUrl request = true ->
   sent = request) /\
  (stage <> Stage.MOCK -> token <> "" -> without_token keycloakUrl request = false ->
   headers_get "Authorization" (headers sent) = Some ("Bearer " +:+ token)).
Proof.
  intros sent. subst sent. unfold authInterceptor.
  split_and!.
  - case_bool_decide; [done |]. destruct (without_token _ _); [done |]. simpl.
    by case_bool_decide.
  - intros name Hname. case_bool_decide; [done |].
    destruct (without_token _ _); [done |]. simpl.
    case_bool_decide; [done |]. simpl. rewrite headers_get_set.
    by rewrite bool_decide_eq_false_2.
  - intros [Hmock | [Htoken | Hwithout]].
    + by rewrite bool_decide_eq_true_2.
    + case_bool_decide; [done |]. destruct (without_token _ _); [done |]. simpl.
      by rewrite bool_decide_eq_true_2.
    + case_bool_decide; [done |]. by rewrite Hwithout.
  - intros Hmock Htoken Hwithout.
    rewrite bool_decide_eq_false_2 by done. rewrite Hwithout. simpl.
    rewrite bool_decide_eq_false_2 by done. simpl. rewrite headers_get_set.
    by rewrite bool_decide_eq_true_2.
Qed.
End request_interceptors.

Lemma apiUrlInterceptor_rewrites_witness :
  Interceptors.url (Interceptors.apiUrlInterceptor "https://api.example.org" relative_request)
  = "https://api.example.org/offers".
Proof.
  apply (apiUrlInterceptor_rewrites "https://api.example.org" relative_request);
    [discriminate | reflexivity].
Defined.

Lemma apiInterceptor_after_apiUrlInterceptor_witness :
  Interceptors.apiInterceptor
    (Interceptors.apiUrlInterceptor "https://api.example.org" relative_request)
    (Interceptors.HttpResponse prod_envelope 200) dev_services
  = (dev_services, Some (Interceptors.HttpResponse prod_envelope 200)).
Proof.
  apply apiInterceptor_after_apiUrlInterceptor;
    [right; reflexivity | reflexivity | reflexivity].
Defined.

Lemma authInterceptor_token_witness :
  Interceptors.headers_get "Authorization"
    (Interceptors.headers
       (Interceptors.authInterceptor Stage.PROD "https://login.example.org" "t0k3n"
          relative_request))
  = Some "Bearer t0k3n".
Proof.
  apply (authInterceptor_token Stage.PROD "https://login.example.org" "t0k3n"
           relative_request); [discriminate | discriminate | reflexivity].
Defined.

Section response_interceptors.
Import Interceptors.
Variable translate : string -> string.

(** X14: what [errorInterceptor] does for an outcome of the next handler.
    It never swallows an error: it emits an event exactly when the
    handler emitted that event.  It leaves the API service and the stage
    alone, navigates exactly for a 403 answer that does not come from a
    status page (once, to [/status/403]), adds at most one toast and none
    for a request with the header [X-Suppress-Error-Toast], and touches
    the banner only for a timeout or a 5xx answer. *)
Theorem errorInterceptor_effects (request : HttpRequest) (now : Z) (o : Outcome)
    (w : Services) :
  let w' := (errorInterceptor translate request now o w).1 in
  let result := (errorInterceptor translate request now o w).2 in
  (forall event, result = Emitted event <-> o = Emits event) /\
  apiMetaService w' = apiMetaService w /\
  stage w' = stage w /\
  router w' = (if forbidden_redirect o then router w ++ [forbidden_navigation]
               else router w) /\
  (exists toasts, messageService w' = messageService w ++ toasts /\
                  (length toasts <= 1)%nat /\
                  (headers_has "X-Suppress-Error-Toast" request = true ->
                   toasts = [])) /\
  (bannerService w' <> bannerService w -> qualifying o).
Proof.
  intros w' result. subst w' result. unfold errorInterceptor, handle_error.
  set (suppress := headers_has "X-Suppress-Error-Toast" request).
  assert (forall m : AppMessageService.AppMessageService,
             exists toasts, m = m ++ toasts /\ (length toasts <= 1)%nat /\
                            (suppress = true -> toasts = [])) as Hnone.
  { intros m. exists []. rewrite app_nil_r. split_and!; [done | simpl; lia | done]. }
  assert (forall (m : AppMessageService.AppMessageService) toast,
             suppress = false ->
             exists toasts, m ++ [toast] = m ++ toasts /\ (length toasts <= 1)%nat /\
                            (suppress = true -> toasts = [])) as Hone.
  { intros m toast Hs. exists [toast]. split_and!; [done | simpl; lia | congruence]. }
  destruct o as [event | | error |]; simpl.
  - split_and!; try done. intros event'. split; congruence.
  - destruct (BannerService.registerError None now (bannerService w)) as [b silence].
    split_and!; try done; [by destruct (_ && _) .. |].
    destruct silence, suppress eqn:Hs; simpl; try apply Hnone. by apply Hone.
  - destruct (from_status_page error) eqn:Hpage; simpl.
    { split_and!; done. }
    case_bool_decide as H500.
    + destruct (BannerService.registerError (Some backend_error_config) now
                  (bannerService w)) as [b silence].
      split_and!; try done; try (by destruct (_ && _)).
      * rewrite bool_decide_eq_false_2 by lia. by destruct (_ && _).
      * destruct silence, suppress eqn:Hs; simpl; try apply Hnone. by apply Hone.
    + set (toast := negb (bool_decide (err_status error = 0))
                    && bool_decide (400 <= err_status error)
                    && negb (BannerService.isActive (bannerService w))
                    && negb suppress).
      assert (toast = true -> suppress = false) as Hsup.
      { subst toast. destruct suppress; [by rewrite andb_false_r | done]. }
      split_and!.
      * done.
      * by destruct toast; case_bool_decide.
      * by destruct toast; case_bool_decide.
      * by destruct toast; case_bool_decide.
      * destruct toast; case_bool_decide; simpl; try apply Hnone;
          by apply Hone, Hsup.
      * by destruct toast; case_bool_decide.
  - split_and!; done.
Qed.

(** X15: what the envelope interceptor does for an event.  It leaves the
    stage and the banner alone, keeps the status of a response, adds no
    toast for a request with the header [X-Suppress-Error-Toast],
    navigates at most once, and hands on untouched every event that is
    not a response and every response whose body is neither a legacy nor
    a meta-data envelope. *)
Theorem apiInterceptor_effects (request : HttpRequest) (event : HttpEvent)
    (w : Services) :
  let w' := (apiInterceptor request event w).1 in
  let out := (apiInterceptor request event w).2 in
  stage w' = stage w /\
  bannerService w' = bannerService w /\
  (headers_has "X-Suppress-Error-Toast" request = true ->
   messageService w' = messageService w) /\
  (exists navigations, router w' = router w ++ navigations /\
                       (length navigations <= 1)%nat) /\
  (forall body status body' status',
      event = HttpResponse body status -> out = Some (HttpResponse body' status') ->
      status' = status) /\
  ((forall body status, event = HttpResponse body status ->
                        is_legacy body = false /\ is_meta_data body = false) ->
   w' = w /\ out = Some event).
Proof.
  intros w' out. subst w' out. unfold apiInterceptor.
  set (suppress := headers_has "X-Suppress-Error-Toast" request).
  assert (exists navigations, router w = router w ++ navigations /\
                              (length navigations <= 1)%nat) as Hnone.
  { exists []. rewrite app_nil_r. split; [done | simpl; lia]. }
  destruct (skipped request); simpl.
  { split_and!; try done. intros ? ? ? ? -> [= -> ->]. done. }
  destruct event as [body status | kind]; simpl; [| split_and!; done].
  destruct (is_legacy body) eqn:Hlegacy.
  - destruct (ApiService.setSessionId _ _) as [api |]; simpl.
    + split_and!.
      * by destruct (_ && _ && _).
      * by destruct (_ && _ && _).
      * intros Hs. rewrite Hs. by rewrite andb_false_r.
      * by destruct (_ && _ && _).
      * by intros ? ? ? ? [= -> ->] [= _ ->].
      * intros H. destruct (H _ _ eq_refl). congruence.
    + split_and!; try done. intros H. destruct (H _ _ eq_refl). congruence.
  - destruct (is_meta_data body) eqn:Hmeta; simpl.
    + set (mismatch := truthy _ && negb (strict_eq_string _ _)).
      set (errors := truthy _ && typeof_object _ && negb suppress).
      split_and!.
      * by destruct mismatch, errors.
      * by destruct mismatch, errors.
      * intros Hs. subst errors. rewrite Hs, andb_false_r. by destruct mismatch.
      * destruct mismatch, errors; simpl; try done;
          (eexists; split; [reflexivity | simpl; lia]).
      * by intros ? ? ? ? [= -> ->] [= _ ->].
      * intros H. destruct (H _ _ eq_refl). congruence.
    + split_and!; try done. by intros ? ? ? ? [= -> ->] [= _ ->].
Qed.
End response_interceptors.

Lemma errorInterceptor_effects_witness :
  Interceptors.messageService
    (Interceptors.errorInterceptor (fun key => key) silent_request 1000
       (Interceptors.HttpError forbidden_api_error) dev_services).1
  = [].
Proof.
  destruct (errorInterceptor_effects (fun key => key) silent_request 1000
              (Interceptors.HttpError forbidden_api_error) dev_services)
    as (_ & _ & _ & _ & (toasts & Hm & _ & Hsilent) & _).
  rewrite Hm, (Hsilent eq_refl). reflexivity.
Defined.

Lemma apiInterceptor_effects_witness :
  Interceptors.messageService
    (Interceptors.apiInterceptor silent_request
       (Interceptors.HttpResponse
          (JObj [("meta", JObj [("stage", JStr "DEV")]); ("data", JNum 1);
                 ("errors", JObj [("name", JStr "too long")])]) 200)
       dev_services).1
  = [].
Proof.
  apply (apiInterceptor_effects silent_request
           (Interceptors.HttpResponse
              (JObj [("meta", JObj [("stage", JStr "DEV")]); ("data", JNum 1);
                     ("errors", JObj [("name", JStr "too long")])]) 200)
           dev_services).
  reflexivity.
Defined.

(* ===================================================================== *)
(** * Properties of the API log *)
(* ===================================================================== *)

Section api_log.
Import ApiLogService.

Lemma findIndex_Some (i : Z) (l : list ApiLogEntry) (n : nat) :
  findIndex i l = Some n -> exists e, l !! n = Some e /\ id e = i.
Proof.
  unfold findIndex. destruct (list_find _ l) as [[n' e] |] eqn:Hfind; [| done].
  intros [= <-]. apply list_find_Some in Hfind as (Hl & Hid & _). by exists e.
Qed.

Lemma findIndex_None (i : Z) (l : list ApiLogEntry) :
  findIndex i l = None <-> forall e, e ∈ l -> id e <> i.
Proof.
  unfold findIndex. destruct (list_find _ l) as [[n' e] |] eqn:Hfind; simpl.
  - split; [done |]. intros Hall.
    apply list_find_Some in Hfind as (Hl & Hid & _).
    destruct (Hall e); [by eapply list_elem_of_lookup_2 | done].
  - split; [| done]. intros _. apply list_find_None in Hfind.
    by apply Forall_forall.
Qed.

Lemma updateEntry_ids (updatedEntry : ApiLogEntry) (this : ApiLogService) :
  ids (updateEntry updatedEntry this) = ids this /\
  idCounter (updateEntry updatedEntry this) = idCounter this.
Proof.
  unfold updateEntry, ids.
  destruct (findIndex (id updatedEntry) (logs this)) as [n |] eqn:Hfind; [| done].
  apply findIndex_Some in Hfind as (e & Hn & Hid). simpl. split; [| done].
  rewrite list_fmap_insert. apply list_insert_id. by rewrite list_lookup_fmap, Hn, <- Hid.
Qed.

Lemma step_invariant (op : Op) (this : ApiLogService) :
  log_invariant this -> log_invariant (step this op).
Proof.
  intros (Hsubject & Hsorted & Hrange & Hcounter).
  destruct op as [entry now | u |]; simpl.
  - unfold log_invariant, ids. simpl. split_and!; [done | | done | | lia].
    + eapply Forall_impl; [exact Hrange |]. intros i Hi. simpl in Hi. lia.
    + apply Forall_cons. split; [lia |].
      eapply Forall_impl; [exact Hrange |]. simpl. lia.
  - destruct (updateEntry_ids u this) as [Hids Hc].
    unfold log_invariant. rewrite Hids, Hc. split_and!; try done.
    unfold updateEntry. by destruct (findIndex _ _).
  - unfold log_invariant, ids. simpl. split_and!; try done.
Qed.

Lemma run_invariant (ops : list Op) (this : ApiLogService) :
  log_invariant this -> log_invariant (run ops this).
Proof.
  revert this. induction ops as [| op ops IH]; intros this H; [done |].
  apply IH. by apply step_invariant.
Qed.

Lemma descending_NoDup (l : list Z) : descending l -> NoDup l.
Proof.
  induction l as [| x l IH]; [intros _; apply NoDup_nil_2 |].
  intros [Hx Hl]. apply NoDup_cons. split; [| by apply IH].
  intros Hin. rewrite Forall_forall in Hx. specialize (Hx _ Hin). lia.
Qed.

(** X16: in every state that the log service reaches by [addEntry],
    [updateEntry] and [clearLogs], whatever the entries passed, the
    subject holds the current log, the ids of the entries fall strictly
    from the first entry to the last, so no two entries share an id, and
    every id is one that the counter has given out. *)
Theorem log_ids_unique (ops : list Op) :
  let this := run ops initial in
  log_invariant this /\
  NoDup (ids this) /\
  (length (logs this) <= Z.to_nat (idCounter this))%nat.
Proof.
  intros this.
  assert (log_invariant this) as Hinv.
  { apply run_invariant. unfold log_invariant, ids. simpl. by split_and!. }
  split_and!; [done | |].
  - apply descending_NoDup, Hinv.
  - destruct Hinv as (_ & Hsorted & Hrange & Hcounter).
    replace (length (logs this)) with (length (ids this))
      by (unfold ids; apply length_fmap).
    revert Hsorted Hrange Hcounter. generalize (idCounter this), (ids this).
    intros c l. revert c. induction l as [| x l IH]; intros c Hs Hr Hc; simpl; [lia |].
    destruct Hs as [Hx Hl]. apply Forall_cons in Hr as [Hxc Hr].
    assert (length l <= Z.to_nat x)%nat; [| lia].
    apply IH; [done | | lia].
    rewrite Forall_forall in Hx, Hr |- *. intros y Hy.
    specialize (Hx y Hy). specialize (Hr y Hy). lia.
Qed.

Lemma updateEntry_spec (updatedEntry : ApiLogEntry) (this : ApiLogService) :
  NoDup (ids this) ->
  let this' := updateEntry updatedEntry this in
  ((forall e, e ∈ logs this -> id e <> id updatedEntry) -> this' = this) /\
  ((exists e, e ∈ logs this /\ id e = id updatedEntry) ->
   logsSubject this' = logs this' /\
   ids this' = ids this /\
   updatedEntry ∈ logs this' /\
   (forall e, e ∈ logs this' -> id e = id updatedEntry -> e = updatedEntry) /\
   (forall e, id e <> id updatedEntry -> e ∈ logs this' <-> e ∈ logs this)).
Proof.
  intros Hnodup this'. subst this'. split.
  - intros Hnone. unfold updateEntry.
    by rewrite (proj2 (findIndex_None _ _) Hnone).
  - intros (e0 & He0 & Hid0).
    destruct (updateEntry_ids updatedEntry this) as [Hids _].
    unfold updateEntry in *.
    destruct (findIndex (id updatedEntry) (logs this)) as [n |] eqn:Hfind.
    2:{ by destruct (proj1 (findIndex_None _ _) Hfind e0 He0). }
    apply findIndex_Some in Hfind as (e & Hn & Hid). simpl in *.
    assert (n < length (logs this))%nat as Hlen by (by eapply lookup_lt_Some).
    split_and!; [done | done | | |].
    + apply list_elem_of_lookup. exists n. by apply list_lookup_insert_eq.
    + intros x (m & Hm)%list_elem_of_lookup Hx.
      destruct (decide (m = n)) as [-> | Hmn].
      * rewrite list_lookup_insert_eq in Hm by done. congruence.
      * rewrite list_lookup_insert_ne in Hm by done.
        assert (m = n); [| done].
        eapply NoDup_lookup; [exact Hnodup | |]; unfold ids;
          rewrite list_lookup_fmap; [by rewrite Hm; simpl; rewrite Hx | by rewrite Hn; simpl; rewrite Hid].
    + intros x Hx. rewrite !list_elem_of_lookup. split; intros (m & Hm).
      * destruct (decide (m = n)) as [-> | Hmn].
        -- rewrite list_lookup_insert_eq in Hm by done. congruence.
        -- rewrite list_lookup_insert_ne in Hm by done. by exists m.
      * destruct (decide (m = n)) as [-> | Hmn]; [congruence |].
        exists m. by rewrite list_lookup_insert_ne.
Qed.

(** X17: [updateEntry] on a log whose ids are unique.  If no entry has
    the id of the argument, nothing changes.  Otherwise the log keeps its
    length and its ids, the argument is the one entry of its id, and the
    entries of every other id are the ones that were there. *)
Theorem updateEntry_replaces (updatedEntry : ApiLogEntry) (this : ApiLogService) :
  NoDup (ids this) ->
  let this' := updateEntry updatedEntry this in
  ((forall e, e ∈ logs this -> id e <> id updatedEntry) -> this' = this) /\
  ((exists e, e ∈ logs this /\ id e = id updatedEntry) ->
   logsSubject this' = logs this' /\
   ids this' = ids this /\
   updatedEntry ∈ logs this' /\
   (forall e, e ∈ logs this' -> id e = id updatedEntry -> e = updatedEntry) /\
   (forall e, id e <> id updatedEntry -> e ∈ logs this' <-> e ∈ logs this)).
Proof. apply updateEntry_spec. Qed.
End api_log.

Lemma updateEntry_replaces_witness :
  ApiLogService.logs
    (ApiLogService.updateEntry sample_pending_entry
       (ApiLogService.addEntry sample_pending_entry 9 ApiLogService.initial).1)
  = [sample_pending_entry].
Proof.
  destruct (updateEntry_replaces sample_pending_entry
              (ApiLogService.addEntry sample_pending_entry 9 ApiLogService.initial).1)
    as [_ H].
  - apply NoDup_singleton.
  - destruct H as (_ & Hids & Hin & _).
    + eexists. split; [apply list_elem_of_here | reflexivity].
    + reflexivity.
Defined.

Section api_logging.
Import ApiLogService ApiLoggingInterceptor.

Lemma other_requests_keep (e : ApiLogEntry) (ops : list Op) (this : ApiLogService) :
  Forall (of_other_request e) ops ->
  (exists x, x ∈ logs this /\ id x = id e) ->
  exists x, x ∈ logs (run ops this) /\ id x = id e.
Proof.
  intros Hops. revert this. induction Hops as [| op ops Hop _ IH]; intros this Hx; [done |].
  apply IH. clear IH. destruct Hx as (x & Hx & Hid).
  destruct op as [entry now | u |]; simpl in *; [| | done].
  - exists x. split; [by apply list_elem_of_further | done].
  - unfold updateEntry.
    destruct (findIndex (id u) (logs this)) as [n |] eqn:Hfind; [| by exists x].
    apply findIndex_Some in Hfind as (y & Hn & Hy). simpl.
    apply list_elem_of_lookup in Hx as (m & Hm). exists x. split; [| done].
    apply list_elem_of_lookup. exists m. rewrite list_lookup_insert_ne; [done |].
    intros <-. congruence.
Qed.

(** X18: the logging interceptor.  In production it logs nothing.
    Otherwise the request is entered as pending under a new id; when its
    response or its error arrives, after any calls made for other
    requests, the log has exactly one entry of that id: it is marked as
    succeeded or failed, with the duration, and keeps method and URL of
    the request; the error is thrown again.  If the log was cleared in
    between, the answer is not logged. *)
Theorem apiLoggingInterceptor_settles (stage : Stage.Stage) (r : LoggedRequest)
    (now startTime answered : Z) (responseHeaders : list (string * string))
    (body : JSValue) (status_code : Z) (error : Interceptors.HttpErrorResponse)
    (ops : list Op) (log : ApiLogService) (e : ApiLogEntry) :
  (stage = Stage.PROD ->
   on_request stage r now log = (log, None) /\
   on_event None startTime answered responseHeaders
     (Interceptors.HttpResponse body status_code) log = log /\
   on_error None startTime answered error log = (log, Interceptors.ThrowHttpError error)) /\
  (stage <> Stage.PROD ->
   log_invariant log ->
   (on_request stage r now log).2 = Some e ->
   Forall (of_other_request e) ops ->
   let log2 := run ops (on_request stage r now log).1 in
   let settled (final : ApiLogService) (outcome : Status) :=
     exists e', e' ∈ logs final /\
                (forall x, x ∈ logs final -> id x = id e -> x = e') /\
                id e' = id e /\ status e' = outcome /\
                method e' = request_method r /\
                url e' = Interceptors.url (request r) /\
                duration e' = Given (answered - startTime) /\
                ids final = ids log2 in
   id e = idCounter log /\
   status e = pending /\
   settled (on_event (Some e) startTime answered responseHeaders
              (Interceptors.HttpResponse body status_code) log2) succeeded /\
   settled (on_error (Some e) startTime answered error log2).1 failed /\
   (on_error (Some e) startTime answered error log2).2
   = Interceptors.ThrowHttpError error /\
   on_event (Some e) startTime answered responseHeaders
     (Interceptors.HttpResponse body status_code) (clearLogs log2) = clearLogs log2).
Proof.
  split.
  - intros ->. done.
  - intros Hstage Hinv Hentry Hops.
    unfold on_request in Hentry |- *.
    rewrite bool_decide_eq_false_2 in Hentry |- * by done.
    simpl in Hentry |- *. injection Hentry as <-.
    set (e := with_id (idCounter log) now _) in *.
    set (log1 := {| logsSubject := e :: logs log; logs := e :: logs log;
                    idCounter := idCounter log + 1 |}) in *.
    set (log2 := run ops log1).
    assert (log_invariant log2) as Hinv2.
    { apply run_invariant. apply (step_invariant (AddEntry e now) log) in Hinv.
      exact Hinv. }
    assert (exists x, x ∈ logs log2 /\ id x = id e) as Hpresent.
    { apply other_requests_keep; [done |]. exists e. split; [apply list_elem_of_here | done]. }
    assert (NoDup (ids log2)) as Hnodup by apply descending_NoDup, Hinv2.
    split_and!; [done | done | | | done | done].
    + destruct (updateEntry_spec
                  {| id := id e; timestamp := timestamp e; method := method e;
                     url := url e; status := succeeded;
                     requestHeaders := requestHeaders e; requestBody := requestBody e;
                     responseHeaders := Given responseHeaders;
                     responseBody := Given body;
                     duration := Given (answered - startTime);
                     expanded := expanded e |} log2 Hnodup) as [_ H].
      destruct (H Hpresent) as (_ & Hids & Hin & Hsame & _).
      eexists. split_and!; [exact Hin | exact Hsame | done ..].
    + destruct (updateEntry_spec
                  {| id := id e; timestamp := timestamp e; method := method e;
                     url := url e; status := failed;
                     requestHeaders := requestHeaders e; requestBody := requestBody e;
                     responseHeaders := ApiLogService.responseHeaders e;
                     responseBody := Given (Interceptors.err_error error);
                     duration := Given (answered - startTime);
                     expanded := expanded e |} log2 Hnodup) as [_ H].
      destruct (H Hpresent) as (_ & Hids & Hin & Hsame & _).
      eexists. split_and!; [exact Hin | exact Hsame | done ..].
Qed.
End api_logging.

Lemma apiLoggingInterceptor_settles_witness :
  exists e', e' ∈ ApiLogService.logs
                    (ApiLoggingInterceptor.on_event (Some sample_pending_entry) 5 17 []
                       (Interceptors.HttpResponse JNull 200)
                       (ApiLogService.run
                          [ApiLogService.AddEntry sample_pending_entry 6]
                          (ApiLoggingInterceptor.on_request Stage.DEV
                             sample_logged_request 5 ApiLogService.initial).1)) /\
             ApiLogService.status e' = ApiLogService.succeeded.
Proof.
  destruct (proj2 (apiLoggingInterceptor_settles Stage.DEV sample_logged_request
                     5 5 17 [] JNull 200 forbidden_api_error
                     [ApiLogService.AddEntry sample_pending_entry 6]
                     ApiLogService.initial sample_pending_entry))
    as (_ & _ & (e' & Hin & _ & _ & Hst & _) & _).
  - discriminate.
  - unfold log_invariant, ids. simpl. split_and!; [done | done | done | lia].
  - reflexivity.
  - by apply Forall_singleton.
  - exists e'. by split.
Defined.

(* ===================================================================== *)
(** * Further properties of the browser storage service *)
(* ===================================================================== *)

Section storage_slot_frame.
Import BrowserStorageService.
Variable JSON_parse : string -> option JSValue.
Variable accepts : StorageType -> gmap string string -> string -> string -> bool.

Lemma storage_of_with_storage (t t' : StorageType) (m : gmap string string)
    (b : Browser) :
  storage_of t' (with_storage t m b) = if decide (t' = t) then m else storage_of t' b.
Proof. by destruct t, t'. Qed.

(** X19: items are kept apart by their slot, the storage together with
    the prefixed key.  [setItem] and [removeItem] for one slot change
    neither what [getItem] nor what [hasItem] answers for another slot;
    after [removeItem] the slot is empty: [getItem] answers [null] and
    [hasItem] [false]; after a [setItem] that succeeded, [hasItem]
    answers [true]. *)
Theorem storage_slots (key key' : string) (value : JSValue)
    (options options' : option StorageOptions) (b : Browser) :
  let written := (setItem accepts key value options b).1 in
  let removed := (removeItem key options b).1 in
  (slot options' key' <> slot options key ->
   getItem JSON_parse key' options' written = getItem JSON_parse key' options' b /\
   getItem JSON_parse key' options' removed = getItem JSON_parse key' options' b /\
   hasItem key' options' written = hasItem key' options' b /\
   hasItem key' options' removed = hasItem key' options' b) /\
  (slot options' key' = slot options key -> slot options key <> None ->
   getItem JSON_parse key' options' removed = JNull /\
   hasItem key' options' removed = Some false /\
   ((setItem accepts key value options b).2 = true ->
    hasItem key' options' written = Some true)).
Proof.
  intros written removed. subst written removed.
  unfold slot, setItem, removeItem, getItem, hasItem.
  destruct (getStorage (type (merge_options options))) as [t |] eqn:Ht;
    destruct (getStorage (type (merge_options options'))) as [t' |] eqn:Ht';
    simpl; try done.
  - set (k := getPrefixedKey key _). set (k' := getPrefixedKey key' _).
    split.
    + intros Hslot.
      assert (t' <> t \/ (t' = t /\ k' <> k)) as Hcases.
      { destruct (decide (t' = t)) as [-> |]; [right | by left].
        split; [done |]. intros Hk. apply Hslot. by rewrite Hk. }
      destruct (accepts t (storage_of t b) k (serialize value)); simpl;
        rewrite ?storage_of_with_storage;
        destruct Hcases as [Hne | [-> Hne]];
        rewrite ?decide_False by done; rewrite ?decide_True by done;
        rewrite ?lookup_insert_ne by done; rewrite ?lookup_delete_ne by done; done.
    + intros [= -> Hk] _. rewrite Hk.
      rewrite !storage_of_with_storage, !decide_True by done.
      rewrite lookup_delete_eq. split_and!.
      * done.
      * f_equal; apply bool_decide_eq_false_2; by intros [? ?].
      * destruct (accepts t (storage_of t b) k (serialize value)); [| done].
        intros _. simpl. rewrite storage_of_with_storage, decide_True by done.
        rewrite lookup_insert_eq. f_equal; by apply bool_decide_eq_true_2.
Qed.
End storage_slot_frame.

Lemma storage_slots_witness :
  BrowserStorageService.getItem JSON_parse_text "theme"
    (Some {| BrowserStorageService.type := Given BrowserStorageService.SESSION;
             BrowserStorageService.prefix := Given "app." |})
    (BrowserStorageService.removeItem "app.theme" None crowded_browser).1
  = JStr "light".
Proof.
  rewrite (proj1 (proj2 (proj1 (storage_slots JSON_parse_text roomy "app.theme" "theme"
                                  JNull None
                                  (Some {| BrowserStorageService.type :=
                                             Given BrowserStorageService.SESSION;
                                           BrowserStorageService.prefix := Given "app." |})
                                  crowded_browser) ltac:(discriminate)))).
  vm_compute. reflexivity.
Defined.

Section storage_keys.
Import BrowserStorageService.
Variable keys_of : gmap string string -> list string.
(** [storage.key(i)] lists every key of the storage once. *)
Hypothesis keys_of_lists : forall m, keys_of m ≡ₚ listed_keys m.

Lemma keys_of_elem (m : gmap string string) (k : string) :
  k ∈ keys_of m <-> is_Some (m !! k).
Proof.
  rewrite (keys_of_lists m). unfold listed_keys. rewrite list_elem_of_fmap. split.
  - intros ([k' v] & -> & Hin%elem_of_map_to_list). by exists v.
  - intros [v Hv]. exists (k, v). split; [done |]. by apply elem_of_map_to_list.
Qed.

Lemma keys_of_NoDup (m : gmap string string) : NoDup (keys_of m).
Proof. rewrite (keys_of_lists m). apply NoDup_fst_map_to_list. Qed.

Lemma filter_elem {A} (P : A -> bool) (l : list A) (x : A) :
  x ∈ List.filter P l <-> x ∈ l /\ P x = true.
Proof. rewrite !list_elem_of_In. apply filter_In. Qed.

Lemma filter_NoDup {A} (P : A -> bool) (l : list A) :
  NoDup l -> NoDup (List.filter P l).
Proof.
  induction 1 as [| x l Hx Hl IH]; simpl; [apply NoDup_nil_2 |].
  destruct (P x); [| done]. apply NoDup_cons. split; [| done].
  rewrite filter_elem. by intros [? _].
Qed.

Lemma filter_length_without (l : list string) (x : string) :
  NoDup l ->
  length l = (length (List.filter (fun y => negb (bool_decide (y = x))) l)
              + (if bool_decide (x ∈ l) then 1 else 0))%nat.
Proof.
  induction 1 as [| y l Hy Hl IH]; [done |]. simpl.
  destruct (decide (y = x)) as [-> | Hne].
  - rewrite bool_decide_eq_true_2 by done. simpl.
    rewrite (bool_decide_eq_true_2 (x ∈ x :: l)) by apply list_elem_of_here.
    rewrite (bool_decide_eq_false_2 (x ∈ l)) in IH by done. lia.
  - rewrite bool_decide_eq_false_2 by done. simpl. rewrite IH.
    destruct (decide (x ∈ l)) as [Hin | Hin].
    + rewrite !bool_decide_eq_true_2; [lia | by apply list_elem_of_further | done].
    + rewrite !bool_decide_eq_false_2; [lia | | done].
      intros [-> | ?]%elem_of_cons; done.
Qed.

Lemma getKeys_elem (options : option StorageOptions) (b : Browser)
    (t : StorageType) (k : string) :
  getStorage (type (merge_options options)) = Some t ->
  k ∈ getKeys keys_of options b <-> k <> "" /\ is_Some (storage_of t b !! k).
Proof.
  intros Ht. unfold getKeys. rewrite Ht.
  rewrite filter_elem, keys_of_elem, negb_true_iff, bool_decide_eq_false. tauto.
Qed.

(** X20: [getKeys] lists every key of the storage once, except the empty
    key: an item stored under the empty key is counted by [getSize] but
    not listed. *)
Theorem getKeys_skips_empty_key (options : option StorageOptions) (b : Browser)
    (t : StorageType) :
  getStorage (type (merge_options options)) = Some t ->
  let keys := getKeys keys_of options b in
  NoDup keys /\
  (forall k, k ∈ keys <-> k <> "" /\ is_Some (storage_of t b !! k)) /\
  getSize options b
  = Z.of_nat (length keys) + (if storage_of t b !! "" is Some _ then 1 else 0).
Proof.
  intros Ht keys. subst keys.
  split; [| split; [intros k; by apply getKeys_elem |]];
    unfold getKeys, getSize; rewrite Ht.
  - apply filter_NoDup, keys_of_NoDup.
  - replace (size (storage_of t b)) with (length (keys_of (storage_of t b))).
    2:{ rewrite (keys_of_lists _). unfold listed_keys.
        by rewrite length_fmap, length_map_to_list. }
    rewrite (filter_length_without _ "" (keys_of_NoDup _)).
    destruct (storage_of t b !! "") as [v |] eqn:Hempty.
    + rewrite bool_decide_eq_true_2; [lia |]. apply keys_of_elem. by exists v.
    + rewrite bool_decide_eq_false_2; [lia |]. rewrite keys_of_elem, Hempty.
      by intros [? ?].
Qed.

Lemma remove_prefixed_lookup (p : string) (keys : list string)
    (m : gmap string string) (k : string) :
  foldl (fun storage key => if startsWith key p then delete key storage else storage)
        m keys !! k
  = if startsWith k p && bool_decide (k ∈ keys) then None else m !! k.
Proof.
  revert m. induction keys as [| key keys IH]; intros m; simpl.
  - by rewrite andb_false_r.
  - rewrite IH. destruct (startsWith k p) eqn:Hk; simpl.
    + destruct (decide (k ∈ keys)) as [Hin | Hin].
      * rewrite !bool_decide_eq_true_2; [done | by apply list_elem_of_further | done].
      * rewrite (bool_decide_eq_false_2 (k ∈ keys)) by done.
        destruct (decide (k = key)) as [-> | Hne].
        -- rewrite Hk, lookup_delete_eq.
           by rewrite bool_decide_eq_true_2 by apply list_elem_of_here.
        -- rewrite bool_decide_eq_false_2.
           ++ destruct (startsWith key p); [by rewrite lookup_delete_ne |]; done.
           ++ intros [-> | ?]%elem_of_cons; done.
    + destruct (startsWith key p) eqn:Hkey; [| done].
      rewrite lookup_delete_ne; [done |]. intros ->. congruence.
Qed.

(** X21: [clear] empties the storage it is called for when no prefix (or
    the empty prefix) is given; with a prefix it removes exactly the
    items whose key starts with the prefix, in whatever order the browser
    lists the keys.  It returns [true], and the other storage is not
    touched. *)
Theorem clear_by_prefix (options : option StorageOptions) (b : Browser)
    (t : StorageType) :
  getStorage (type (merge_options options)) = Some t ->
  let cleared := (clear keys_of options b).1 in
  (clear keys_of options b).2 = true /\
  (forall t', t' <> t -> storage_of t' cleared = storage_of t' b) /\
  (forall k, storage_of t cleared !! k
             = match prefix (merge_options options) with
               | Given p =>
                   if bool_decide (p = "") then None
                   else if startsWith k p then None
                   else storage_of t b !! k
               | _ => None
               end).
Proof.
  intros Ht cleared. subst cleared. unfold clear. rewrite Ht.
  destruct (prefix (merge_options options)) as [| | p] eqn:Hp.
  - split_and!; [done | |].
    + intros t' Hne. simpl. by rewrite storage_of_with_storage, decide_False.
    + intros k. simpl. by rewrite storage_of_with_storage, decide_True.
  - split_and!; [done | |].
    + intros t' Hne. simpl. by rewrite storage_of_with_storage, decide_False.
    + intros k. simpl. by rewrite storage_of_with_storage, decide_True.
  - case_bool_decide as Hempty.
    + split_and!; [done | |].
      * intros t' Hne. simpl. by rewrite storage_of_with_storage, decide_False.
      * intros k. simpl. by rewrite storage_of_with_storage, decide_True.
    + split_and!; [done | |].
      * intros t' Hne. simpl. by rewrite storage_of_with_storage, decide_False.
      * intros k. simpl. rewrite storage_of_with_storage, decide_True by done.
        rewrite remove_prefixed_lookup.
        destruct (startsWith k p) eqn:Hk; [| done]. simpl.
        case_bool_decide as Hin; [done |].
        assert (getStorage (type (merge_options (Some (merge_options options))))
                = Some t) as Ht2.
        { destruct options as [[ty pr] |]; simpl in *; [| done].
          by destruct ty. }
        destruct (storage_of t b !! k) as [v |] eqn:Hv; [| done].
        destruct Hin. apply (getKeys_elem _ _ t _ Ht2). split; [| by exists v].
        intros ->. destruct p; [done | discriminate].
Qed.

End storage_keys.

Section storage_available.
Import BrowserStorageService.
Variable accepts : StorageType -> gmap string string -> string -> string -> bool.

(** X22: [isAvailable] answers whether the browser takes the test item.
    If so, the item [__storage_test__] is gone afterwards, also when the
    application had one of that name, and every other item is as it was;
    if not, nothing is changed. *)
Theorem isAvailable_test_item (type : option StorageType) (b : Browser) :
  let t := default LOCAL type in
  let checked := (isAvailable accepts type b).1 in
  (isAvailable accepts type b).2
  = accepts t (storage_of t b) "__storage_test__" "test" /\
  ((isAvailable accepts type b).2 = false -> checked = b) /\
  ((isAvailable accepts type b).2 = true ->
   storage_of t checked !! "__storage_test__" = None /\
   (forall k, k <> "__storage_test__" ->
              storage_of t checked !! k = storage_of t b !! k) /\
   (forall t', t' <> t -> storage_of t' checked = storage_of t' b)).
Proof.
  intros t checked. subst checked. unfold isAvailable. fold t.
  destruct (accepts t (storage_of t b) "__storage_test__" "test"); simpl.
  - split_and!; [done | done |]. intros _. split_and!.
    + by rewrite storage_of_with_storage, decide_True, lookup_delete_eq.
    + intros k Hk.
      by rewrite storage_of_with_storage, decide_True, lookup_delete_ne,
                 lookup_insert_ne.
    + intros t' Hne. by rewrite storage_of_with_storage, decide_False.
  - by split_and!.
Qed.
End storage_available.

Lemma listed_keys_lists (m : gmap string string) : listed_keys m ≡ₚ listed_keys m.
Proof. reflexivity. Qed.

Lemma getKeys_skips_empty_key_witness :
  BrowserStorageService.getSize None crowded_browser
  = Z.of_nat (length (BrowserStorageService.getKeys listed_keys None crowded_browser)) + 1.
Proof.
  apply (getKeys_skips_empty_key listed_keys listed_keys_lists None crowded_browser
           BrowserStorageService.LOCAL eq_refl).
Defined.

Lemma clear_by_prefix_witness :
  BrowserStorageService.storage_of BrowserStorageService.LOCAL
    (BrowserStorageService.clearLocal listed_keys (Some "app.") crowded_browser).1
  !! "__storage_test__"
  = Some "mine".
Proof.
  rewrite (proj2 (proj2 (clear_by_prefix listed_keys listed_keys_lists
                           (BrowserStorageService.options_for
                              BrowserStorageService.LOCAL (Some "app."))
                           crowded_browser BrowserStorageService.LOCAL eq_refl))).
  reflexivity.
Defined.

Lemma isAvailable_test_item_witness :
  BrowserStorageService.storage_of BrowserStorageService.LOCAL
    (BrowserStorageService.isAvailable roomy None crowded_browser).1
  !! "__storage_test__"
  = None.
Proof.
  apply (isAvailable_test_item roomy None crowded_browser). reflexivity.
Defined.

(* ===================================================================== *)
(** * Further properties of the preferences and of the API metadata *)
(* ===================================================================== *)

Section assoc_frame.
Context {V : Type}.

Lemma assoc_get_replace_ne (k k' : string) (v : V) (l : list (string * V)) :
  k' <> k -> assoc_get k' (assoc_replace k v l) = assoc_get k' l.
Proof.
  intros Hne. induction l as [| [k0 v0] l IH]; simpl; [done |].
  case_bool_decide as Hk; simpl.
  - subst k0. by rewrite !bool_decide_eq_false_2 by done.
  - by rewrite IH.
Qed.

Lemma assoc_get_insert_index_ne (n : N) (k k' : string) (v : V)
    (l : list (string * V)) :
  k' <> k -> assoc_get k' (assoc_insert_index n k v l) = assoc_get k' l.
Proof.
  intros Hne. induction l as [| [k0 v0] l IH]; simpl.
  - by rewrite bool_decide_eq_false_2 by done.
  - destruct (array_index k0) as [m |]; [destruct (m <? n)%N |]; simpl.
    + by rewrite IH.
    + by rewrite (bool_decide_eq_false_2 (k = k')) by done.
    + by rewrite (bool_decide_eq_false_2 (k = k')) by done.
Qed.

Lemma assoc_get_app_ne (k k' : string) (v : V) (l : list (string * V)) :
  k' <> k -> assoc_get k' (l ++ [(k, v)]) = assoc_get k' l.
Proof.
  intros Hne. induction l as [| [k0 v0] l IH]; simpl.
  - by rewrite bool_decide_eq_false_2 by done.
  - by rewrite IH.
Qed.

(** Assigning a property leaves the other properties as they are. *)
Lemma assoc_get_set_ne (k k' : string) (v : V) (l : list (string * V)) :
  k' <> k -> assoc_get k' (assoc_set k v l) = assoc_get k' l.
Proof.
  intros Hne. unfold assoc_set. destruct (assoc_get k l).
  - by apply assoc_get_replace_ne.
  - destruct (array_index k).
    + by apply assoc_get_insert_index_ne.
    + by apply assoc_get_app_ne.
Qed.

Lemma assoc_set_keeps (k k' : string) (v : V) (l : list (string * V)) :
  is_Some (assoc_get k' l) -> is_Some (assoc_get k' (assoc_set k v l)).
Proof.
  intros H. destruct (decide (k' = k)) as [-> | Hne].
  - rewrite assoc_get_set. by eexists.
  - by rewrite assoc_get_set_ne.
Qed.
End assoc_frame.

Section preferences_more.
Import BrowserStorageService PreferencesService.
Variable JSON_parse : string -> option JSValue.
Variable accepts : StorageType -> gmap string string -> string -> string -> bool.

Lemma assign_keeps (k : string) (a b : list (string * JSValue)) :
  is_Some (assoc_get k a) -> is_Some (assoc_get k (assign a b)).
Proof.
  unfold assign. revert a. induction b as [| [k0 v0] b IH]; intros a Ha; [done |].
  simpl. apply IH. by apply assoc_set_keeps.
Qed.

Lemma merge_with_defaults_keys (stored : JSValue) :
  has_default_keys (merge_with_defaults stored).
Proof.
  eexists. split; [reflexivity |]. intros k Hk. by apply assign_keeps.
Qed.

Lemma defaults_have_keys : has_default_keys defaultPreferences.
Proof. eexists. split; [reflexivity |]. done. Qed.

Lemma savePreferences_keys (preferences : JSValue)
    (st : Browser * PreferencesService) :
  has_default_keys preferences ->
  has_default_keys (getPreferences st.2) ->
  has_default_keys (getPreferences (savePreferences accepts preferences st).2).
Proof.
  intros Hnew Hold. unfold savePreferences.
  destruct (setLocal accepts LOCAL_STORAGE_KEY preferences None st.1) as [b' success].
  by destruct success.
Qed.

Lemma loadPreferences_keys (b : Browser) :
  has_default_keys (loadPreferences JSON_parse b).
Proof.
  unfold loadPreferences. destruct (truthy _).
  - apply merge_with_defaults_keys.
  - apply defaults_have_keys.
Qed.

(** X23: the current preferences are always an object that has every key
    of the default preferences: after the constructor, for whatever the
    local storage held and whether or not the browser takes the writes,
    and after every sequence of [updatePreference], [resetPreferences] and
    [updateTheme]. *)
Theorem preferences_keep_default_keys (b : Browser) (ops : list Op) :
  has_default_keys
    (getPreferences (run accepts ops (constructor JSON_parse accepts b)).2).
Proof.
  assert (has_default_keys (getPreferences (constructor JSON_parse accepts b).2))
    as Hinit.
  { unfold constructor. destruct (negb _).
    - apply savePreferences_keys; [apply defaults_have_keys | apply loadPreferences_keys].
    - destruct (negb _).
      + apply savePreferences_keys; [apply defaults_have_keys | apply loadPreferences_keys].
      + case_bool_decide.
        * apply savePreferences_keys;
            [apply merge_with_defaults_keys | apply loadPreferences_keys].
        * apply loadPreferences_keys. }
  revert Hinit. generalize (constructor JSON_parse accepts b). unfold run.
  induction ops as [| op ops IH]; intros st Hst; [done |].
  simpl. apply IH. destruct op as [key value | | preset primaryColor isDark]; simpl.
  - unfold updatePreference. apply savePreferences_keys; [| done].
    destruct Hst as (entries & -> & Hkeys).
    eexists. split; [reflexivity |]. intros k Hk. by apply assoc_set_keeps, Hkeys.
  - unfold resetPreferences. apply savePreferences_keys; [| done].
    apply defaults_have_keys.
  - unfold updateTheme. apply savePreferences_keys; [| done].
    destruct Hst as (entries & -> & Hkeys).
    eexists. split; [reflexivity |]. intros k Hk.
    by do 4 apply assoc_set_keeps; apply Hkeys.
Qed.

(** X24: [updatePreference] when the browser takes the write and when it
    does not.  If it does, the current preferences have the new value
    under the key and every other property as before, and the local
    storage holds their serialization; the session storage is not
    touched.  If it does not, neither the preferences nor the storages
    change. *)
Theorem updatePreference_saved (key : string) (value : JSValue)
    (st : Browser * PreferencesService) :
  let st' := updatePreference accepts key value st in
  let updatedPrefs :=
    JObj (assoc_set key value (own_entries (getPreferences st.2))) in
  let taken := accepts LOCAL (localStorage st.1) LOCAL_STORAGE_KEY
                 (serialize updatedPrefs) in
  (taken = true ->
   get_prop (getPreferences st'.2) key = value /\
   (forall k, k <> key ->
              get_prop (getPreferences st'.2) k
              = default JUndefined (assoc_get k (own_entries (getPreferences st.2)))) /\
   saved_as (getPreferences st'.2) st'.1 /\
   sessionStorage st'.1 = sessionStorage st.1) /\
  (taken = false -> st' = st).
Proof.
  intros st' updatedPrefs taken. subst st' taken.
  unfold updatePreference, savePreferences, setLocal, setItem. simpl.
  fold updatedPrefs. split.
  - intros ->. simpl. split_and!; [| | | done].
    + by rewrite assoc_get_set.
    + intros k Hk. by rewrite assoc_get_set_ne.
    + unfold saved_as. simpl. by rewrite lookup_insert_eq.
  - intros ->. by destruct st.
Qed.
End preferences_more.

Lemma preferences_keep_default_keys_witness :
  is_Some (assoc_get "scale"
             (own_entries
                (PreferencesService.getPreferences
                   (PreferencesService.run roomy
                      [PreferencesService.UpdateTheme "Lara" "teal" true]
                      (PreferencesService.constructor JSON_parse_text roomy
                         browser_of_version_1)).2))).
Proof.
  destruct (preferences_keep_default_keys JSON_parse_text roomy browser_of_version_1
              [PreferencesService.UpdateTheme "Lara" "teal" true])
    as (entries & -> & Hkeys).
  apply Hkeys. by eexists.
Defined.

Lemma updatePreference_saved_witness :
  get_prop
    (PreferencesService.getPreferences
       (PreferencesService.updatePreference roomy "scale" (JNum 16)
          (PreferencesService.constructor JSON_parse_text roomy empty_browser)).2)
    "scale"
  = JNum 16.
Proof.
  apply (updatePreference_saved roomy "scale" (JNum 16)
           (PreferencesService.constructor JSON_parse_text roomy empty_browser)).
  reflexivity.
Defined.

Section api_metadata.
Import ApiService.

Lemma optional_prop_set_ne (l : list (string * JSValue)) (k k' : string)
    (x : JSValue) :
  k' <> k ->
  optional_prop (JObj (assoc_set k x l)) k' = optional_prop (JObj l) k'.
Proof. intros Hne. unfold optional_prop, get_prop. by rewrite assoc_get_set_ne. Qed.

(** X25: [setSessionId] on metadata that is an object stores the session,
    so that [getSessionId] returns it ([null] for [undefined] or
    [null]), and changes no other metadata field; without metadata it
    does nothing, so the session is dropped.  After any calls that did
    not throw, the subject holds the metadata of the service, and
    [clearApiMetadata] makes every getter return [null]. *)
Theorem setSessionId_stores (this : ApiService) (sessionId : JSValue)
    (ops : list ApiServiceOp) :
  (forall l, apiMetadata this = JObj l ->
     exists this', setSessionId sessionId this = Some this' /\
       getSessionId this' = match sessionId with
                            | JUndefined | JNull => JNull
                            | _ => sessionId
                            end /\
       Forall (fun getter => getter this' = getter this) other_getters) /\
  (truthy (apiMetadata this) = false ->
   setSessionId sessionId this = Some this /\ getSessionId this = JNull) /\
  (forall final, api_service_run ops initial = Some final ->
                 apiMetadataSubject final = apiMetadata final) /\
  Forall (fun getter => getter (clearApiMetadata this) = JNull)
         (getSessionId :: other_getters).
Proof.
  split_and!.
  - intros l Hl. unfold setSessionId. rewrite Hl. simpl. eexists. split; [reflexivity |].
    split.
    + unfold getSessionId, optional_prop, get_prop. simpl. rewrite assoc_get_set.
      simpl. by destruct sessionId.
    + unfold other_getters.
      repeat (apply Forall_cons; split;
              [unfold getTimestamp, getStage, getApiVersion, getCacheValidThru,
                 getErrorCode, getErrorMessage; simpl; rewrite Hl;
               by apply optional_prop_set_ne |]).
      apply Forall_nil_2.
  - intros Hfalsy. unfold setSessionId, getSessionId. rewrite Hfalsy.
    split; [done |]. by destruct (apiMetadata this) as [| | [|] | | | |].
  - unfold api_service_run.
    assert (forall (o : option ApiService),
               (forall s, o = Some s -> apiMetadataSubject s = apiMetadata s) ->
               forall final, foldl api_service_step o ops = Some final ->
                             apiMetadataSubject final = apiMetadata final) as Hrun.
    { induction ops as [| op ops' IH]; intros o Ho final; simpl; [apply Ho |].
      apply IH. intros s. destruct o as [s0 |]; [| done]. simpl.
      destruct op as [meta | | sid]; simpl.
      - by intros [= <-].
      - by intros [= <-].
      - unfold setSessionId. destruct (truthy _); [| intros [= <-]; by apply Ho].
        destruct (set_prop _ _ _); [by intros [= <-] | done]. }
    apply Hrun. by intros s [= <-].
  - repeat (apply Forall_cons; split; [done |]). apply Forall_nil_2.
Qed.
End api_metadata.

Lemma setSessionId_stores_witness :
  exists this',
    ApiService.setSessionId (JStr "abc")
      (Interceptors.apiMetaService services_with_metadata) = Some this' /\
    ApiService.getSessionId this' = JStr "abc" /\
    ApiService.getStage this' = JStr "DEV".
Proof.
  destruct (proj1 (setSessionId_stores
                     (Interceptors.apiMetaService services_with_metadata)
                     (JStr "abc") [])
              [("session", JStr "old"); ("stage", JStr "DEV")] eq_refl)
    as (this' & Hset & Hget & Hother).
  exists this'. split_and!; [done | done |].
  apply Forall_cons in Hother as [_ Hother].
  apply Forall_cons in Hother as [Hstage _]. by rewrite Hstage.
Defined.

(* ===================================================================== *)
(** * Further properties of the banner *)
(* ===================================================================== *)

Section banner_more.
Import AppBannerComponent.

Lemma or_string_nonempty (s : Opt string) (d : string) :
  d <> "" -> or_string s d <> "".
Proof.
  intros Hd. unfold or_string. destruct s as [| | x]; try done.
  by case_bool_decide.
Qed.

Lemma show_consistent (cfg : BannerConfig) (now : Z) (this : AppBannerComponent) :
  banner_consistent (show cfg now this).
Proof.
  unfold banner_consistent, show. simpl. split_and!.
  - split; [by eexists | done].
  - intros t Ht. unfold setupAutoHide in Ht.
    destruct (autoHide (mergedConfig cfg now)) as [| | [|]] eqn:Hauto; try done.
    destruct (autoHideTimeout (mergedConfig cfg now)) as [| | t'] eqn:Htime; try done.
    case_bool_decide as Hzero; [done |]. injection Ht as <-.
    split; [done |]. by eexists.
  - intros c [= <-]. simpl. eexists. split; [done |].
    by apply or_string_nonempty.
Qed.

Lemma hide_consistent (this : AppBannerComponent) : banner_consistent (hide this).
Proof.
  unfold banner_consistent, hide. simpl.
  split_and!; try done; by intros [? ?].
Qed.

(** X26: in every state that the banner reaches by [show], [hide],
    [registerError] and its auto-hide timer, the banner is visible
    exactly when it has a configuration, a pending auto-hide timer
    belongs to a visible banner whose configuration asks for auto-hide
    with that (non-zero) delay, and the configuration has a non-empty
    id. *)
Theorem banner_state_consistent (this : AppBannerComponent) :
  reachable this -> banner_consistent this.
Proof.
  induction 1 as [| op this _ IH].
  - unfold banner_consistent. simpl. split_and!; try done; by intros [? ?].
  - destruct op as [cfg now | | cfg now |]; simpl.
    + apply show_consistent.
    + apply hide_consistent.
    + unfold registerError. case_bool_decide; simpl; [apply show_consistent |].
      exact IH.
    + unfold autoHideTimer_fires. destruct (autoHideTimer this); [| exact IH].
      apply hide_consistent.
Qed.

(** X27: the banner that [registerError] raises for the error
    interceptor does not get the defaults of an error banner: the
    optional fields are passed on as [undefined] and so take the place
    of the defaults.  The banner has no icon and no auto-hide timer, so
    the timer never removes it; an error banner shown with the fields
    left out gets the default icon and hides after 60000 ms. *)
Theorem escalated_banner_stays (cfg : option ErrorBannerConfig) (now : Z)
    (this : AppBannerComponent) :
  interceptor_config cfg ->
  (registerError cfg now this).2 = true ->
  let raised := (registerError cfg now this).1 in
  let shown := show plain_error_banner now this in
  (exists c, config (bannerState raised) = Some c /\
             type c = BannerError /\ icon c = Undef /\ autoHide c = Undef /\
             autoHideTimeout c = Undef /\ closable c = Undef) /\
  isActive raised = true /\
  autoHideTimer raised = None /\
  autoHideTimer_fires raised = raised /\
  (exists c, config (bannerState shown) = Some c /\
             icon c = Given "pi pi-exclamation-triangle" /\
             closable c = Given true) /\
  autoHideTimer shown = Some 60000 /\
  isActive (autoHideTimer_fires shown) = false.
Proof.
  intros Hcfg. unfold registerError. case_bool_decide as Hreached; [| done].
  intros _. simpl.
  destruct Hcfg as [-> | ->]; simpl; split_and!; try done; by eexists.
Qed.
End banner_more.

Lemma banner_state_consistent_witness :
  AppBannerComponent.isVisible (AppBannerComponent.bannerState four_errors) = true
  <-> is_Some (AppBannerComponent.config (AppBannerComponent.bannerState four_errors)).
Proof.
  apply (banner_state_consistent four_errors).
  unfold four_errors, three_errors. repeat apply AppBannerComponent.reachable_run.
  apply AppBannerComponent.reachable_initial.
Defined.

Lemma escalated_banner_stays_witness :
  AppBannerComponent.autoHideTimer
    (AppBannerComponent.registerError None 5000 four_errors).1
  = None.
Proof.
  apply (escalated_banner_stays None 5000 four_errors); [by left | reflexivity].
Defined.

(* ===================================================================== *)
(** * Properties of the menu filter *)
(* ===================================================================== *)

Section menu.
Import MenuService.

(** X28: the menu filter and the role guard decide alike: outside mock
    mode, an item is accessible for a list of user roles exactly if the
    route data check of the guard admits a user with these roles to a
    route that carries the role sets of the item. *)
Theorem hasAccessToMenuItem_as_guard (item : MenuItemWithRoles)
    (userRoles : list string) (stage : Stage.Stage) (adminRole : string) :
  stage <> Stage.MOCK ->
  (hasAccessToMenuItem item userRoles = true <->
   RoleGuard.checkRouteDataRoles (route_data_of item) stage adminRole userRoles
   = RoleGuard.Allow).
Proof.
  intros Hstage. rewrite checkRouteDataRoles_chain. cbv zeta.
  unfold RoleGuard.effective_roles. rewrite bool_decide_eq_false_2 by done.
  unfold hasAccessToMenuItem, route_data_of,
    RoleGuard.holds_excluded, RoleGuard.misses_required, RoleGuard.lacks_any.
  destruct (roles item) as [r |]; simpl; [| done].
  unfold RoleGuard.includes.
  destruct (excludeRoles r) as [ex |];
    destruct (requiredAllRoles r) as [[| a al] |];
    destruct (requiredRoles r) as [[| q rq] |]; simpl;
    repeat match goal with
           | |- context [if ?b then _ else _] => destruct b; simpl
           end;
    unfold RoleGuard.denied; split; congruence.
Qed.

Section nested_induction.
Variable P : MenuItemWithRoles -> Prop.
Hypothesis step :
  forall label r i link u c,
    match i with Some children => Forall P children | None => True end ->
    P (MenuItem label r i link u c).

Lemma MenuItem_nested_ind (item : MenuItemWithRoles) : P item.
Proof.
  revert item. fix IH 1. intros [label r i link u c]. apply step.
  destruct i as [children |]; [| exact I].
  revert children. fix IHchildren 1. intros [| child children].
  - apply Forall_nil_2.
  - apply Forall_cons_2; [apply IH | apply IHchildren].
Qed.
End nested_induction.

Lemma omap_filter_map {A B} (f : A -> B) (p : A -> bool) (l : list A) :
  omap (fun x => if p x then Some (f x) else None) l = map f (List.filter p l).
Proof.
  induction l as [| x l IH]; [done |]. csimpl. destruct (p x); csimpl; by rewrite IH.
Qed.

(** The function given to [map], as the source writes it. *)
Lemma filter_children_unfold (userRoles : list string) (label : string)
    (r : option MenuItemRole) (i : option (list MenuItemWithRoles))
    (link u : JSValue) (c : bool) :
  filter_children userRoles (MenuItem label r i link u c)
  = match i with
    | Some ((_ :: _) as children) =>
        let filteredChildren := filterMenuItemsRecursive children userRoles in
        MenuItem label r
          (match filteredChildren with [] => None | _ => Some filteredChildren end)
          link u c
    | _ => MenuItem label r i link u c
    end.
Proof.
  destruct i as [[| child children] |]; try done.
  simpl. unfold filterMenuItemsRecursive.
  by rewrite <- (omap_filter_map (filter_children userRoles)
                   (fun item => hasAccessToMenuItem item userRoles)).
Qed.

Lemma filter_children_roles (userRoles : list string) (item : MenuItemWithRoles) :
  roles (filter_children userRoles item) = roles item /\
  routerLink (filter_children userRoles item) = routerLink item /\
  url (filter_children userRoles item) = url item /\
  command (filter_children userRoles item) = command item.
Proof.
  destruct item as [label r i link u c]. rewrite filter_children_unfold.
  by destruct i as [[| child children] |].
Qed.

Lemma filter_children_access (userRoles : list string) (item : MenuItemWithRoles) :
  hasAccessToMenuItem (filter_children userRoles item) userRoles
  = hasAccessToMenuItem item userRoles.
Proof.
  unfold hasAccessToMenuItem.
  by rewrite (proj1 (filter_children_roles userRoles item)).
Qed.

Lemma filter_all {A} (p : A -> bool) (l : list A) :
  Forall (fun x => p x = true) l -> List.filter p l = l.
Proof.
  induction 1 as [| x l Hx _ IH]; [done |]. simpl. by rewrite Hx, IH.
Qed.

Lemma filter_Forall {A} (p : A -> bool) (l : list A) :
  Forall (fun x => p x = true) (List.filter p l).
Proof.
  induction l as [| x l IH]; simpl; [apply Forall_nil_2 |].
  destruct (p x) eqn:Hx; [by apply Forall_cons_2 | done].
Qed.

(** Filtering a list again changes nothing, if filtering the children of
    each of its items again changes nothing. *)
Lemma filter_again (userRoles : list string) (l : list MenuItemWithRoles) :
  Forall (fun x => filter_children userRoles (filter_children userRoles x)
                   = filter_children userRoles x) l ->
  filterMenuItemsRecursive (filterMenuItemsRecursive l userRoles) userRoles
  = filterMenuItemsRecursive l userRoles.
Proof.
  intros Hl. unfold filterMenuItemsRecursive.
  set (access := fun item => hasAccessToMenuItem item userRoles).
  set (g := filter_children userRoles) in *.
  assert (Forall (fun y => access y = true /\ g y = y)
                 (List.filter kept (map g (List.filter access l)))) as Hres.
  { apply Forall_forall. intros y Hy%list_elem_of_In.
    apply filter_In in Hy as [Hy _]. apply in_map_iff in Hy as (x & <- & Hx).
    apply filter_In in Hx as [Hx Hax]. split.
    - subst access g. simpl. by rewrite filter_children_access.
    - rewrite Forall_forall in Hl. apply Hl. by apply list_elem_of_In. }
  rewrite (filter_all access).
  2:{ eapply Forall_impl; [exact Hres |]. by intros y [? _]. }
  replace (map g (List.filter kept (map g (List.filter access l))))
    with (List.filter kept (map g (List.filter access l))).
  2:{ symmetry. erewrite map_ext_Forall; [apply map_id |].
      eapply Forall_impl; [exact Hres |]. by intros y [_ ?]. }
  apply filter_all, filter_Forall.
Qed.

Lemma filter_children_again (userRoles : list string) (item : MenuItemWithRoles) :
  filter_children userRoles (filter_children userRoles item)
  = filter_children userRoles item.
Proof.
  induction item as [label r i link u c IH] using MenuItem_nested_ind.
  rewrite (filter_children_unfold userRoles label r i).
  destruct i as [[| child children] |]; try by rewrite filter_children_unfold.
  cbv zeta.
  destruct (filterMenuItemsRecursive (child :: children) userRoles)
    as [| y ys] eqn:Hfiltered; [by rewrite filter_children_unfold |].
  rewrite filter_children_unfold. cbv zeta.
  rewrite <- Hfiltered, (filter_again userRoles (child :: children) IH).
  by rewrite Hfiltered.
Qed.

Lemma every_unfold (P : MenuItemWithRoles -> bool) (label : string)
    (r : option MenuItemRole) (i : option (list MenuItemWithRoles))
    (link u : JSValue) (c : bool) :
  every P (MenuItem label r i link u c)
  = P (MenuItem label r i link u c)
    && match i with Some children => forallb (every P) children | None => true end.
Proof. by destruct i. Qed.

Lemma shown_children (userRoles : list string) (item : MenuItemWithRoles) :
  hasAccessToMenuItem item userRoles = true ->
  kept (filter_children userRoles item) = true ->
  every (shown userRoles) (filter_children userRoles item) = true.
Proof.
  induction item as [label r i link u c IH] using MenuItem_nested_ind.
  intros Haccess Hkept.
  assert (shown userRoles (filter_children userRoles (MenuItem label r i link u c))
          = true) as Htop.
  { unfold shown. by rewrite filter_children_access, Haccess, Hkept. }
  rewrite filter_children_unfold in *.
  destruct i as [[| child children] |];
    try (rewrite every_unfold, Htop; reflexivity).
  cbv zeta in *.
  destruct (filterMenuItemsRecursive (child :: children) userRoles)
    as [| y ys] eqn:Hfiltered;
    rewrite every_unfold, Htop; [reflexivity |].
  rewrite <- Hfiltered. rewrite andb_true_l.
  apply forallb_forall. intros z Hz. unfold filterMenuItemsRecursive in Hz.
  apply filter_In in Hz as [Hz Hzkept]. apply in_map_iff in Hz as (x & <- & Hx).
  apply filter_In in Hx as [Hx Hax].
  rewrite Forall_forall in IH. apply IH; [by apply list_elem_of_In | done | done].
Qed.

(** X29: the menu filter.  Without authentication and outside mock mode
    the menu is empty.  Every item of the filtered menu, at every depth,
    is accessible for the user roles and is not a parent that is left
    without children and without a target; and filtering a filtered menu
    again changes nothing. *)
Theorem filterMenuItems_filters (authenticated mock : bool) (adminRole : string)
    (authUserRoles : list string) (menuItems : list MenuItemWithRoles) :
  let userRoles := getCurrentUserRoles mock adminRole authUserRoles in
  let filtered := filterMenuItems authenticated mock adminRole authUserRoles menuItems in
  (authenticated = false -> mock = false -> filtered = []) /\
  Forall (fun item => every (shown userRoles) item = true) filtered /\
  filterMenuItems authenticated mock adminRole authUserRoles filtered = filtered.
Proof.
  intros userRoles filtered. subst filtered. unfold filterMenuItems. fold userRoles.
  split_and!.
  - by intros -> ->.
  - destruct (negb authenticated && negb mock); [apply Forall_nil_2 |].
    apply Forall_forall. intros z Hz%list_elem_of_In. unfold filterMenuItemsRecursive in Hz.
    apply filter_In in Hz as [Hz Hzkept]. apply in_map_iff in Hz as (x & <- & Hx).
    apply filter_In in Hx as [Hx Hax]. by apply shown_children.
  - destruct (negb authenticated && negb mock); [done |].
    apply filter_again, Forall_forall. intros x _. apply filter_children_again.
Qed.

(** A group whose only entry is filtered out is removed with it, but a
    group that was given an empty list of entries stays. *)
Example filterMenuItems_sample :
  MenuService.filterMenuItems true false "admin" [] sample_menu
  = [leaf "home" None;
     MenuService.MenuItem "empty" None (Some []) JUndefined JUndefined false] /\
  MenuService.filterMenuItems true false "admin" ["admin"] sample_menu = sample_menu /\
  MenuService.filterMenuItems false true "admin" [] sample_menu = sample_menu.
Proof. vm_compute. split_and!; reflexivity. Qed.
End menu.

Lemma hasAccessToMenuItem_as_guard_witness :
  MenuService.hasAccessToMenuItem (leaf "audit" (only_for "admin")) ["admin"] = true.
Proof.
  apply (hasAccessToMenuItem_as_guard (leaf "audit" (only_for "admin")) ["admin"]
           Stage.PROD "admin"); [discriminate | reflexivity].
Defined.

Lemma filterMenuItems_filters_witness :
  MenuService.filterMenuItems false false "admin" ["admin"] sample_menu = [].
Proof.
  apply (filterMenuItems_filters false false "admin" ["admin"] sample_menu);
    reflexivity.
Defined.

(* ===================================================================== *)
(** * Properties of the runtime configuration and of the logger *)
(* ===================================================================== *)

Section environment.
Import EnvironmentService.
Variable toUpperCase : string -> string.

(** X30: what a runtime configuration can and cannot set, for whatever
    [toUpperCase] computes.  The stage is never [BOOTSTRAP] afterwards
    and the log level never [OFF]: a level that is missing or not one of
    DEBUG, INFO, WARN and ERROR (such as OFF) gives INFO, a stage that is
    missing or unknown gives DEV, which counts as development.  So the
    [error] getter of a logger that reads this level is never the no-op.
    For every level, a logger that writes debug lines writes info lines,
    one that writes info lines writes warnings, one that writes warnings
    writes errors, and only [OFF] silences errors. *)
Theorem runtime_config_levels (runtimeConfig : RuntimeConfig) :
  let environment := updateFromRuntimeConfig toUpperCase runtimeConfig in
  stage environment <> Stage.BOOTSTRAP /\
  logLevel environment <> OFF /\
  Logger.error (logLevel environment) = true /\
  ((forall s, r_logLevel runtimeConfig = Given s ->
              toUpperCase s ∉ ["DEBUG"; "INFO"; "WARN"; "ERROR"]) ->
   logLevel environment = INFO) /\
  ((forall s, r_stage runtimeConfig = Given s ->
              toUpperCase s ∉ ["PROD"; "SYST"; "DEV"; "MOCK"; "ENTW"; "INTG"; "GATE"]) ->
   stage environment = Stage.DEV /\ isDevelopment environment = true) /\
  (isProduction environment = true <->
   exists s, r_stage runtimeConfig = Given s /\ toUpperCase s = "PROD") /\
  (forall level,
      (Logger.debug level = true -> Logger.log level = true) /\
      (Logger.log level = true -> Logger.warn level = true) /\
      (Logger.warn level = true -> Logger.error level = true) /\
      (Logger.error level = false <-> level = OFF)).
Proof.
  intros environment. subst environment.
  unfold updateFromRuntimeConfig, isProduction, isDevelopment. simpl.
  split_and!.
  - unfold parseStage. destruct (r_stage runtimeConfig); try done.
    repeat case_bool_decide; done.
  - unfold parseLogLevel. destruct (r_logLevel runtimeConfig); try done.
    repeat case_bool_decide; done.
  - unfold parseLogLevel. destruct (r_logLevel runtimeConfig); try done.
    repeat case_bool_decide; done.
  - intros Hunknown. unfold parseLogLevel.
    destruct (r_logLevel runtimeConfig) as [| | s]; try done.
    specialize (Hunknown s eq_refl).
    repeat case_bool_decide; try done; destruct Hunknown; set_solver.
  - intros Hunknown. unfold parseStage.
    destruct (r_stage runtimeConfig) as [| | s]; try done.
    specialize (Hunknown s eq_refl).
    repeat case_bool_decide; try done; destruct Hunknown; set_solver.
  - unfold parseStage. destruct (r_stage runtimeConfig) as [| | s].
    + split; [done | by intros (? & ? & _)].
    + split; [done | by intros (? & ? & _)].
    + split.
      * intros H. exists s. split; [done |].
        apply bool_decide_eq_true_1 in H.
        destruct (decide (toUpperCase s = "PROD")) as [| Hne]; [done |].
        rewrite bool_decide_eq_false_2 in H by done.
        repeat case_bool_decide; done.
      * intros (s' & [= <-] & Hs). rewrite Hs. reflexivity.
  - intros level. destruct level; vm_compute; split_and!; try done;
      split; done.
Qed.
End environment.

Lemma runtime_config_levels_witness :
  EnvironmentService.logLevel
    (EnvironmentService.updateFromRuntimeConfig (fun s => s) quiet_config)
  = EnvironmentService.INFO.
Proof.
  apply (runtime_config_levels (fun s => s) quiet_config).
  intros s [= <-] Hin.
  repeat (apply elem_of_cons in Hin as [Hin | Hin]; [done |]).
  by apply elem_of_nil in Hin.
Defined.
